(** * create-v1: the environment set-up engine of [src/index.ts]

    A shallow embedding of the configuration-driven part of the tool:
    [loadConfig], [updateEnvFile], [getEnvFileValue], [getExistingValue],
    [updateProjectValue], [getConvexUrls], [shouldIgnoreLog] and
    [setupEnvironment], with the properties of the specification proved
    about them.

    Conventions.  JavaScript strings are Rocq [string]s (byte strings holding
    the UTF-8 text; every character the code inspects is ASCII).  An optional
    field [f?: T] is an [option T].  A JavaScript condition [if (x)] on a
    string or optional string is the boolean [truthy]: defined and not empty.
    The pictographs at the head of some messages are written as the
    characters they stand for; no statement depends on their bytes.
    Objects used as maps are modelled with what JavaScript adds to them.
    [Values] is an object literal with two fields: a key that is neither of
    them still finds the members every object inherits from
    [Object.prototype].  An env object is a list of string bindings with
    distinct keys in the order the keys were created, and [Object.entries]
    lists its index-like keys first, in ascending order.  The env object
    itself is read at its declared type, a record of strings.

    The outside is explicit.  A [World] holds the files and the events so
    far; the libraries the code calls ([path], [child_process], [chalk],
    [boxen], [inquirer], [JSON]) are the fields of a [Host], and the
    statements hold for every host.  Reading a file fails where the world has
    no file.  Writing a file is followed as far as the write completes: a
    write that throws is caught nowhere and ends the run, so the events up to
    and including a write are those of every run, and the events after it
    are those of the runs whose writes complete ([seen_until] cuts the
    events of a run at the first write that throws). *)

From Stdlib Require Import String Ascii List Bool Arith NArith Lia.
From stdpp Require Import base option list strings pretty gmap.
From Equations Require Import Equations.
Import ListNotations.

(** ** JavaScript strings *)

Module Js.

(** [if (s)] for a string: every string but the empty one is truthy. *)
Definition truthy_string (s : string) : bool :=
  match s with
  | EmptyString => false
  | String _ _ => true
  end.

(** [if (x)] for [x : string | undefined]. *)
Definition truthy (x : option string) : bool :=
  match x with
  | Some s => truthy_string s
  | None => false
  end.

(** [a || b] on [string | undefined] operands. *)
Definition or_else (a b : option string) : option string :=
  if truthy a then a else b.

(** [a || b] when [b] is a string: the result is a string. *)
Definition or_string (a : option string) (b : string) : string :=
  match a with
  | Some s => if truthy_string s then s else b
  | None => b
  end.

(** [\w] of a regular expression without the [u] flag: [A-Za-z0-9_]. *)
Definition is_word (c : ascii) : bool :=
  let n := nat_of_ascii c in
  (Nat.leb 65 n && Nat.leb n 90) || (Nat.leb 97 n && Nat.leb n 122)
  || (Nat.leb 48 n && Nat.leb n 57) || Nat.eqb n 95.

Fixpoint all_word (s : string) : bool :=
  match s with
  | EmptyString => true
  | String c t => is_word c && all_word t
  end.

(** The longest prefix of word characters, and what follows it: the greedy
    [\w+] of the pattern (a shorter run is never followed by a brace). *)
Fixpoint span_word (s : string) : string * string :=
  match s with
  | EmptyString => (EmptyString, EmptyString)
  | String c t =>
      if is_word c
      then let '(w, r) := span_word t in (String c w, r)
      else (EmptyString, s)
  end.

(** The line feed, [\n]. *)
Definition newline : ascii := "010"%char.

Definition lbrace : ascii := "{"%char.
Definition rbrace : ascii := "}"%char.

(** One attempt of [/\{\{(\w+)\}\}/] at the head of [s]: the captured key
    and the text after the match. *)
Definition match_placeholder (s : string) : option (string * string) :=
  match s with
  | String a (String b t) =>
      if Ascii.eqb a lbrace && Ascii.eqb b lbrace then
        match span_word t with
        | (String k ks, String c (String d rest)) =>
            if Ascii.eqb c rbrace && Ascii.eqb d rbrace
            then Some (String k ks, rest)
            else None
        | _ => None
        end
      else None
  | _ => None
  end.

Lemma span_word_length s :
  String.length (snd (span_word s)) <= String.length s.
Proof.
  induction s as [|c t IH]; simpl; [lia|].
  destruct (is_word c); simpl; [|lia].
  destruct (span_word t) as [w r]; simpl in *; lia.
Qed.

Lemma match_placeholder_shorter s key rest :
  match_placeholder s = Some (key, rest) ->
  String.length rest < String.length s.
Proof.
  unfold match_placeholder.
  destruct s as [|a [|b t]]; try discriminate.
  destruct (Ascii.eqb a lbrace && Ascii.eqb b lbrace); try discriminate.
  pose proof (span_word_length t) as L.
  destruct (span_word t) as [[|k ks] [|c [|d r]]]; try discriminate.
  destruct (Ascii.eqb c rbrace && Ascii.eqb d rbrace); try discriminate.
  intros [= _ <-]. simpl in *. lia.
Qed.

Definition inspect {A} (a : A) : {b : A | a = b} := exist _ a eq_refl.

(** [s.replace(/\{\{(\w+)\}\}/g, (_, key) => f(key))]: scan from the left;
    where the pattern matches, emit [f key] and go on after the match;
    elsewhere copy one character and go on at the next one. *)
Equations? replace_placeholders (f : string -> string) (s : string) : string
  by wf (String.length s) lt :=
  replace_placeholders f EmptyString := EmptyString;
  replace_placeholders f (String c t)
    with inspect (match_placeholder (String c t)) := {
    | exist _ (Some (key, rest)) _ => f key +:+ replace_placeholders f rest
    | exist _ None _ => String c (replace_placeholders f t) }.
Proof.
  apply (match_placeholder_shorter (String c t) key rest). assumption.
Qed.

(** The text [{{key}}]. *)
Definition placeholder (key : string) : string :=
  String lbrace (String lbrace (key +:+ String rbrace (String rbrace ""))).

End Js.


(** ** The configuration model (the interfaces at the head of the source) *)

Module EnvVariable.
Record t := mk {
  name : string;
  projects : list string;
  details : string;
  required : option bool;
  defaultValue : option string;
  template : option string;
  info : option (list string)
}.
End EnvVariable.

Module SetupStep.
Record t := mk {
  title : string;
  instructions : string;
  variables : list EnvVariable.t;
  additionalInstructions : option (list string);
  required : option bool;
  description : option string;
  interactive : option bool
}.
End SetupStep.

Module Project.
Record t := mk {
  id : string;
  envFile : option string;
  exportCommand : option string;
  importCommand : option string;
  ignoreLogs : option (list string)
}.
End Project.

Module SetupConfig.
Record t := mk {
  introMessage : string;
  projects : list Project.t;
  steps : list SetupStep.t
}.
End SetupConfig.

Module Values.
Record t := mk {
  convexUrl : string;
  convexSiteUrl : string
}.

(** The methods every object inherits from [Object.prototype]. *)
Definition inherited_methods : list string :=
  ["__defineGetter__"; "__defineSetter__"; "hasOwnProperty";
   "__lookupGetter__"; "__lookupSetter__"; "isPrototypeOf";
   "propertyIsEnumerable"; "toString"; "valueOf"; "toLocaleString"].

(** What a key that is no field of the object literal finds on
    [Object.prototype], as the text [replace] makes of it: [constructor] is
    the function [Object], [__proto__] is the prototype itself, the other
    members are methods.  The texts are those Node gives to a built-in
    function and to a plain object. *)
Definition inherited (key : string) : option string :=
  if String.eqb key "constructor"
  then Some "function Object() { [native code] }"
  else if String.eqb key "__proto__" then Some "[object Object]"
  else if existsb (String.eqb key) inherited_methods
  then Some ("function " +:+ key +:+ "() { [native code] }")
  else None.

(** [values[key as keyof Values]] on the object literal
    [{ convexUrl, convexSiteUrl }] (lines 561 and 713): the two fields, the
    inherited members, and [undefined] for every other key. *)
Definition get (values : t) (key : string) : option string :=
  if String.eqb key "convexUrl" then Some (convexUrl values)
  else if String.eqb key "convexSiteUrl" then Some (convexSiteUrl values)
  else inherited key.
End Values.

(** [x === false] and [x !== false] for an optional boolean field. *)
Definition is_false (x : option bool) : bool :=
  match x with
  | Some false => true
  | _ => false
  end.

(** ** JSON documents, as [JSON.parse] returns them *)

#[local] Unset Elimination Schemes.
Inductive json :=
| JNull
| JBool (b : bool)
| JNumber (literal : string)
| JString (s : string)
| JArray (items : list json)
| JObject (members : list (string * json)).
#[local] Set Elimination Schemes.

(** [Array.isArray(v)], with [None] for [undefined]. *)
Definition isArray (v : option json) : bool :=
  match v with
  | Some (JArray _) => true
  | _ => false
  end.

Fixpoint assoc {A} (key : string) (l : list (string * A)) : option A :=
  match l with
  | [] => None
  | (k, v) :: rest => if String.eqb k key then Some v else assoc key rest
  end.

(** [config.projects] on a parsed document: [inl tt] when the access throws
    (the document is [null]), else the member or [undefined]. *)
Definition get_projects (config : json) : unit + option json :=
  match config with
  | JNull => inl tt
  | JObject members => inr (assoc "projects" members)
  | _ => inr None
  end.

(** ** The world the tool runs in *)

(** The styles of [chalk] that the code uses. *)
Inductive Style :=
| BoldCyan | Dim | BoldBlue | White | Yellow | Cyan | Blue | Green | Red
| BoldGreen | Bold.

(** What [execSync] does: it returns the standard output of the command, or
    throws with a message. *)
Inductive ExecResult :=
| ExecReturned (stdout : string)
| ExecThrew (message : string).

(** What the tool does to the outside, in the order it does it. *)
Inductive Event :=
| ConsoleLog (message : string)
| ConsoleError (message : string)
| ReadFile (path : string)
| WriteFile (path content : string)
| Exec (command cwd : string)
| PromptConfirm (message : string) (answer : bool)
| PromptInput (message : string) (default : option string) (answer : string).

(** Files on disk (a path that cannot be read has no binding) and the
    events so far, oldest first. *)
Record World := mkWorld {
  files : gmap string string;
  events : list Event
}.

(** The libraries and the surroundings the code calls into.  Their results
    are not fixed here: every statement holds for each of them. *)
Record Host := mkHost {
  (** [path.join(...parts)] *)
  path_join : list string -> string;
  (** [path.relative(from, to)] *)
  path_relative : string -> string -> string;
  (** [process.cwd()] *)
  process_cwd : string;
  (** [execSync(command, {cwd})] on the files as they are: its result and
      the files as the command leaves them *)
  run_command : string -> string -> gmap string string ->
                ExecResult * gmap string string;
  (** [subject.replace(pattern, replacement)] with a string pattern *)
  string_replace : string -> string -> string -> string;
  (** [s.trim()] *)
  string_trim : string -> string;
  (** [JSON.parse(text)]: the document, or the message of the error *)
  JSON_parse : string -> json + string;
  (** the message of the error [readFileSync] throws for a path *)
  read_error : string -> string;
  (** [chalk.<style>(text)] *)
  chalk : Style -> string -> string;
  (** [boxen(text, {...})] with the options of the info box *)
  boxen : string -> string;
  (** the operator at a confirm prompt, knowing what happened so far *)
  answer_confirm : list Event -> string -> bool;
  (** the operator at an input prompt with its default *)
  answer_input : list Event -> string -> option string -> string
}.

(** ** Sequencing: a state monad over [World] *)

Definition M (A : Type) : Type := World -> A * World.

Definition ret {A} (a : A) : M A := fun w => (a, w).

Definition bind {A B} (m : M A) (k : A -> M B) : M B :=
  fun w => let '(a, w') := m w in k a w'.

Notation "'let*' x := m 'in' k" := (bind m (fun x => k))
  (at level 10, x name, m at level 100, k at level 200).
Notation "m ;;; k" := (bind m (fun _ => k))
  (at level 100, right associativity).

Definition emit (e : Event) : M unit :=
  fun w => (tt, {| files := files w; events := events w ++ [e] |}).

(** [for (const x of xs) body(x)] *)
Fixpoint for_each {A} (xs : list A) (body : A -> M unit) : M unit :=
  match xs with
  | [] => ret tt
  | x :: rest => body x ;;; for_each rest body
  end.

(** ** Env files *)

Module Dotenv.

(** The object [dotenv.parse] returns: string bindings with distinct
    keys, in the order the keys were created.  The order in which the
    object lists its keys is another matter: see [entries]. *)
Definition env := list (string * string).

(** [envConfig[key]] *)
Definition get (e : env) (key : string) : option string := assoc key e.

(** [envConfig[key] = value]: the value of an existing key is replaced, a
    new key is created after the others. *)
Fixpoint set (key value : string) (e : env) : env :=
  match e with
  | [] => [(key, value)]
  | (k, v) :: rest =>
      if String.eqb k key then (k, value) :: rest
      else (k, v) :: set key value rest
  end.

Definition equals : ascii := "="%char.

(** [s] cut at the first [sep]: the text before it, and the text after it
    when there is one. *)
Fixpoint cut (sep : ascii) (s : string) : string * option string :=
  match s with
  | EmptyString => (EmptyString, None)
  | String c t =>
      if Ascii.eqb c sep then (EmptyString, Some t)
      else let '(a, b) := cut sep t in (String c a, b)
  end.

(** The lines of a text: the pieces between its line feeds. *)
Fixpoint lines (s : string) : list string :=
  match s with
  | EmptyString => [EmptyString]
  | String c t =>
      if Ascii.eqb c Js.newline then EmptyString :: lines t
      else match lines t with
           | l :: ls => String c l :: ls
           | [] => [String c EmptyString]
           end
  end.

(** One line [KEY=VALUE]: the key is the text before the first [=] and is
    not empty; any other line assigns nothing. *)
Definition parse_line (l : string) : option (string * string) :=
  match cut equals l with
  | (String k ks, Some v) => Some (String k ks, v)
  | _ => None
  end.

(** What one line does to the object built so far. *)
Definition assign (e : env) (l : string) : env :=
  match parse_line l with
  | Some (k, v) => set k v e
  | None => e
  end.

(** Modelled from the spec: [dotenv.parse] of the dotenv package, which is
    not part of the sources.  The env-file format is plain [KEY=VALUE]
    lines, one assignment per line, with no quoting or escaping; a later
    assignment of a key replaces the earlier one. *)
Definition parse (content : string) : env :=
  fold_left assign (lines content) [].

(** [`${k}=${v}`] *)
Definition line_of (kv : string * string) : string :=
  fst kv +:+ String equals (snd kv).

(** [parts.join("\n")] *)
Fixpoint join (parts : list string) : string :=
  match parts with
  | [] => EmptyString
  | [p] => p
  | p :: rest => p +:+ String Js.newline (join rest)
  end.

Definition is_digit (c : ascii) : bool :=
  let n := nat_of_ascii c in Nat.leb 48 n && Nat.leb n 57.

(** The number a string of decimal digits writes, after [acc]. *)
Fixpoint digits_value (s : string) (acc : N) : option N :=
  match s with
  | EmptyString => Some acc
  | String c t =>
      if is_digit c
      then digits_value t (acc * 10 + (N_of_ascii c - 48))%N
      else None
  end.

(** The array index a key is, when it is one: the key is the canonical
    decimal text (no sign, no leading zero) of a number below [2^32 - 1]. *)
Definition index_of (key : string) : option N :=
  match key with
  | EmptyString => None
  | String c t =>
      if Ascii.eqb c "0"%char && negb (String.eqb t "") then None
      else
        match digits_value key 0 with
        | Some n => if (n <? 4294967295)%N then Some n else None
        | None => None
        end
  end.

(** An indexed binding, put in its place among bindings in ascending
    order. *)
Fixpoint place (n : N) (kv : string * string)
    (sorted : list (N * (string * string))) : list (N * (string * string)) :=
  match sorted with
  | [] => [(n, kv)]
  | (m, x) :: rest =>
      if (n <=? m)%N then (n, kv) :: sorted else (m, x) :: place n kv rest
  end.

(** The bindings whose key is an array index, in ascending order. *)
Fixpoint index_entries (e : env) : list (N * (string * string)) :=
  match e with
  | [] => []
  | kv :: rest =>
      match index_of (fst kv) with
      | Some n => place n kv (index_entries rest)
      | None => index_entries rest
      end
  end.

(** The other bindings, in the order of their creation. *)
Fixpoint named_entries (e : env) : list (string * string) :=
  match e with
  | [] => []
  | kv :: rest =>
      match index_of (fst kv) with
      | Some _ => named_entries rest
      | None => kv :: named_entries rest
      end
  end.

(** [Object.entries(envConfig)]: the own properties in the order every
    ordinary object lists them, array indices first in ascending order,
    then the other keys in the order of their creation. *)
Definition entries (e : env) : list (string * string) :=
  map snd (index_entries e) ++ named_entries e.

(** [Object.entries(envConfig).map(([k, v]) => `${k}=${v}`).join("\n")] *)
Definition serialize (e : env) : string := join (map line_of (entries e)).

End Dotenv.

(** ** The operations of the source *)

(** What [loadConfig] comes to: the parsed document, or [process.exit]. *)
Inductive Loaded :=
| Config (config : json)
| ProcessExit (code : nat).

Section Engine.

Context (H : Host).

Definition console_log (message : string) : M unit :=
  emit (ConsoleLog message).

Definition console_error (message : string) : M unit :=
  emit (ConsoleError message).

(** [fs.readFileSync(path, "utf-8")]; [None] when it throws. *)
Definition readFileSync (path : string) : M (option string) :=
  fun w => (files w !! path,
            {| files := files w; events := events w ++ [ReadFile path] |}).

(** [fs.writeFileSync(path, content)], when it completes.  The event is
    the call; the new content is there once the call returns.  A call that
    throws instead ends the run there: no [try] of the source encloses a
    write (line 87), and [main] exits on the error. *)
Definition writeFileSync (path content : string) : M unit :=
  fun w => (tt, {| files := <[path := content]> (files w);
                   events := events w ++ [WriteFile path content] |}).

(** [execSync(command, {cwd})] *)
Definition execSync (command cwd : string) : M ExecResult :=
  fun w =>
    let '(r, fs) := run_command H command cwd (files w) in
    (r, {| files := fs; events := events w ++ [Exec command cwd] |}).

(** [inquirer.prompt] with one question of type [confirm]. *)
Definition prompt_confirm (message : string) : M bool :=
  fun w =>
    let a := answer_confirm H (events w) message in
    (a, {| files := files w;
           events := events w ++ [PromptConfirm message a] |}).

(** [inquirer.prompt] with one question of type [input]. *)
Definition prompt_input (message : string) (default : option string)
  : M string :=
  fun w =>
    let a := answer_input H (events w) message default in
    (a, {| files := files w;
           events := events w ++ [PromptInput message default a] |}).

(** *** [loadConfig] (lines 53-70) *)

Definition missing_projects : string :=
  "Config file is missing the 'projects' array".

(** The message of the [TypeError] that reading a property of [null]
    throws, as Node words it. *)
Definition null_projects : string :=
  "Cannot read properties of null (reading 'projects')".

(** The [catch] block: report, then [process.exit(1)]. *)
Definition load_failed (message : string) : M Loaded :=
  console_error (chalk H Red ("Error loading config file: " +:+ message)) ;;;
  ret (ProcessExit 1).

Definition loadConfig (configPath : string) : M Loaded :=
  console_log ("Loading config from: " +:+ configPath) ;;;
  let* configContent := readFileSync configPath in
  match configContent with
  | None => load_failed (read_error H configPath)
  | Some content =>
      match JSON_parse H content with
      | inr message => load_failed message
      | inl config =>
          match get_projects config with
          | inl _ => load_failed null_projects
          | inr projects =>
              if isArray projects then ret (Config config)
              else load_failed missing_projects
          end
      end
  end.

(** *** [updateEnvFile] (lines 72-88) *)

Definition updateEnvFile (filePath key value : string) : M unit :=
  let* read := readFileSync filePath in
  let content := default "" read in
  let envConfig := Dotenv.parse content in
  let envConfig := Dotenv.set key value envConfig in
  let newContent := Dotenv.serialize envConfig in
  writeFileSync filePath newContent.

(** *** [getEnvFileValue] (lines 146-155) *)

Definition getEnvFileValue (envFile key : string) : M (option string) :=
  let* read := readFileSync envFile in
  match read with
  | Some envContent => ret (Dotenv.get (Dotenv.parse envContent) key)
  | None => ret None
  end.

(** *** [getExistingValue] (lines 113-144) *)

(** [projects.find((p) => p.id === projectId)] *)
Definition find_project (projects : list Project.t) (projectId : string)
  : option Project.t :=
  List.find (fun p => String.eqb (Project.id p) projectId) projects.

Definition backend_dir (projectDir : string) : string :=
  path_join H [projectDir; "packages"; "backend"].

(** The [else if (project.importCommand)] branch: run the import command
    for the variable; a thrown error is reported and gives no value. *)
Definition import_value (importCommand : string) (variable : EnvVariable.t)
    (projectDir : string) : M (option string) :=
  let convexDir := backend_dir projectDir in
  let* r := execSync
              (string_replace H importCommand "{{name}}"
                 (EnvVariable.name variable))
              convexDir in
  match r with
  | ExecReturned stdout =>
      let value := string_trim H stdout in
      if Js.truthy_string value then ret (Some value) else ret None
  | ExecThrew message =>
      console_error (chalk H Red ("Error: " +:+ message)) ;;;
      ret None
  end.

(** The body of the loop for a project that was found: [Some value] where
    the code says [return value], [None] where it goes on to the next
    identifier. *)
Definition read_project (project : Project.t) (variable : EnvVariable.t)
    (projectDir : string) : M (option string) :=
  if Js.truthy (Project.envFile project) then
    let envFilePath :=
      path_join H [projectDir; default "" (Project.envFile project)] in
    let* value := getEnvFileValue envFilePath (EnvVariable.name variable) in
    if Js.truthy value then ret value else ret None
  else if Js.truthy (Project.importCommand project) then
    import_value (default "" (Project.importCommand project))
      variable projectDir
  else ret None.

(** The loop over [variable.projects], from the identifiers still to
    visit. *)
Fixpoint getExistingValue_loop (projects : list Project.t)
    (variable : EnvVariable.t) (projectDir : string)
    (ids : list string) : M (option string) :=
  match ids with
  | [] => ret None
  | projectId :: rest =>
      match find_project projects projectId with
      | None => getExistingValue_loop projects variable projectDir rest
      | Some project =>
          let* found := read_project project variable projectDir in
          match found with
          | Some value => ret (Some value)
          | None => getExistingValue_loop projects variable projectDir rest
          end
      end
  end.

Definition getExistingValue (projects : list Project.t)
    (variable : EnvVariable.t) (projectDir : string) : M (option string) :=
  getExistingValue_loop projects variable projectDir
    (EnvVariable.projects variable).

(** *** [updateProjectValue] (lines 157-184) *)

Definition export_value (project : Project.t) (exportCommand key value
    projectDir : string) : M unit :=
  let convexDir := backend_dir projectDir in
  let* r := execSync
              (string_replace H
                 (string_replace H exportCommand "{{name}}" key)
                 "{{value}}" value)
              convexDir in
  match r with
  | ExecReturned _ => ret tt
  | ExecThrew message =>
      console_error
        ("Failed to export value for " +:+ key +:+ " to "
         +:+ Project.id project) ;;;
      console_error ("Error: " +:+ message)
  end.

Definition updateProjectValue (project : Project.t) (key value
    projectDir : string) : M (option string) :=
  if Js.truthy (Project.envFile project) then
    let envFilePath :=
      path_join H [projectDir; default "" (Project.envFile project)] in
    let relativePath := path_relative H (process_cwd H) envFilePath in
    updateEnvFile envFilePath key value ;;;
    ret (Some relativePath)
  else if Js.truthy (Project.exportCommand project) then
    export_value project (default "" (Project.exportCommand project))
      key value projectDir ;;;
    ret None
  else ret None.

(** *** [shouldIgnoreLog] (lines 232-234) *)

Definition shouldIgnoreLog (message : string)
    (ignoreLogs : option (list string)) : bool :=
  existsb (fun prefix => String.prefix prefix message)
    (default [] ignoreLogs).

(** *** [setupEnvironment], lines 243-389: the walk of the configuration

    [config] is what [loadConfig] returned at line 241, read at its declared
    type [SetupConfig].  The whole function, from the path of the
    configuration, is [Entry.setupEnvironment] below. *)

(** [config.projects.some((p) => shouldIgnoreLog(message, p.ignoreLogs))] *)
Definition ignored (config : SetupConfig.t) (message : string) : bool :=
  existsb (fun p => shouldIgnoreLog message (Project.ignoreLogs p))
    (SetupConfig.projects config).

(** [customConsole.log] *)
Definition customConsole_log (config : SetupConfig.t) (message : string)
  : M unit :=
  if ignored config message then ret tt else console_log message.

(** The marker an info string shows for a key without a value. *)
Definition not_set (key : string) : string := "[" +:+ key +:+ " not set]".

(** Lines 305-308: the placeholders of an info string. *)
Definition render_info (values : Values.t) (infoItem : string) : string :=
  Js.replace_placeholders
    (fun key => Js.or_string (Values.get values key) (not_set key))
    infoItem.

(** Lines 330-333: the placeholders of a template. *)
Definition render_template (values : Values.t) (template : string)
  : string :=
  Js.replace_placeholders
    (fun key => Js.or_string (Values.get values key) "")
    template.

(** Lines 303-320. *)
Definition show_info (config : SetupConfig.t) (values : Values.t)
    (variable : EnvVariable.t) : M unit :=
  match EnvVariable.info variable with
  | Some items =>
      for_each items (fun infoItem =>
        customConsole_log config
          (boxen H (chalk H Blue (render_info values infoItem))))
  | None => ret tt
  end.

(** Lines 327-334: [defaultValue]. *)
Definition computeDefault (values : Values.t) (variable : EnvVariable.t)
    (existingValue : option string) : option string :=
  Js.or_else existingValue
    (if Js.truthy (EnvVariable.template variable)
     then Some (render_template values
                  (default "" (EnvVariable.template variable)))
     else EnvVariable.defaultValue variable).

(** Lines 336-351: [value]. *)
Definition determineValue (step : SetupStep.t) (variable : EnvVariable.t)
    (defaultValue : option string) : M string :=
  if is_false (SetupStep.interactive step) then
    ret (Js.or_string defaultValue "")
  else
    let requiredText :=
      if is_false (EnvVariable.required variable) then " (optional)"
      else "" in
    prompt_input
      ("Enter " +:+ chalk H Bold (EnvVariable.name variable)
       +:+ requiredText +:+ ":")
      defaultValue.

(** Lines 355-368: the loop that writes the value to the projects of the
    variable, collecting the files it reports. *)
Fixpoint write_projects (config : SetupConfig.t) (variable : EnvVariable.t)
    (value projectDir : string) (ids : list string)
    (updatedFiles : list string) : M (list string) :=
  match ids with
  | [] => ret updatedFiles
  | projectId :: rest =>
      match find_project (SetupConfig.projects config) projectId with
      | Some project =>
          let* updatedFile :=
            updateProjectValue project (EnvVariable.name variable) value
              projectDir in
          write_projects config variable value projectDir rest
            (if Js.truthy updatedFile
             then updatedFiles ++ [default "" updatedFile]
             else updatedFiles)
      | None =>
          write_projects config variable value projectDir rest updatedFiles
      end
  end.

Definition report_set (config : SetupConfig.t) (variable : EnvVariable.t)
    (updatedFiles : list string) : M unit :=
  if Nat.ltb 0 (length updatedFiles) then
    customConsole_log config
      (chalk H Green ("✅ Set " +:+ EnvVariable.name variable +:+ " in:")) ;;;
    for_each updatedFiles (fun file =>
      customConsole_log config (chalk H Green ("   - " +:+ file)))
  else
    customConsole_log config
      (chalk H Green ("✅ Set " +:+ EnvVariable.name variable)).

Definition report_skipped (config : SetupConfig.t)
    (variable : EnvVariable.t) : M unit :=
  customConsole_log config
    (chalk H Yellow ("⚠️ Skipped " +:+ EnvVariable.name variable)).

(** Line 353: the condition under which the value is written. *)
Definition accepted (variable : EnvVariable.t) (value : string) : bool :=
  Js.truthy_string value || negb (is_false (EnvVariable.required variable)).

(** Lines 353-379. *)
Definition persistValue (config : SetupConfig.t) (variable : EnvVariable.t)
    (value projectDir : string) : M unit :=
  if accepted variable value then
    let* updatedFiles :=
      write_projects config variable value projectDir
        (EnvVariable.projects variable) [] in
    report_set config variable updatedFiles
  else report_skipped config variable.

(** Lines 322-351: the value of one variable. *)
Definition resolveValue (config : SetupConfig.t) (values : Values.t)
    (projectDir : string) (step : SetupStep.t) (variable : EnvVariable.t)
  : M string :=
  let* existingValue :=
    getExistingValue (SetupConfig.projects config) variable projectDir in
  let defaultValue := computeDefault values variable existingValue in
  determineValue step variable defaultValue.

(** Lines 300-380: the body of the loop over [step.variables]. *)
Definition processVariable (config : SetupConfig.t) (values : Values.t)
    (projectDir : string) (step : SetupStep.t) (variable : EnvVariable.t)
  : M unit :=
  customConsole_log config
    (chalk H Cyan (String Js.newline (EnvVariable.details variable)
                   +:+ String Js.newline "")) ;;;
  show_info config values variable ;;;
  let* value := resolveValue config values projectDir step variable in
  persistValue config variable value projectDir.

(** Lines 266-280: what a step prints first. *)
Definition announceStep (config : SetupConfig.t) (index : nat)
    (step : SetupStep.t) : M unit :=
  customConsole_log config
    (chalk H BoldBlue
       (String Js.newline "📍 Step " +:+ pretty (index + 1)
        +:+ ": " +:+ SetupStep.title step)) ;;;
  (if Js.truthy (SetupStep.description step)
   then customConsole_log config
          (chalk H Dim (String Js.newline
                          (default "" (SetupStep.description step))))
   else ret tt) ;;;
  customConsole_log config
    (chalk H White (String Js.newline (SetupStep.instructions step))) ;;;
  match SetupStep.additionalInstructions step with
  | Some additional =>
      customConsole_log config
        (chalk H Yellow
           (String Js.newline "ℹ️  Additional Instructions:")) ;;;
      for_each additional (fun instruction =>
        customConsole_log config
          (chalk H Yellow ("  • " +:+ instruction))) ;;;
      customConsole_log config ""
  | None => ret tt
  end.

Definition optional_question : string :=
  "This step is optional. Would you like to set it up?".

(** Line 284: whether the step asks before it starts. *)
Definition asks_to_skip (step : SetupStep.t) : bool :=
  is_false (SetupStep.required step)
  && negb (is_false (SetupStep.interactive step)).

Definition processVariables (config : SetupConfig.t) (values : Values.t)
    (projectDir : string) (step : SetupStep.t) : M unit :=
  for_each (SetupStep.variables step)
    (processVariable config values projectDir step) ;;;
  customConsole_log config (chalk H Green "✅ Step completed").

(** Lines 265-383: the body of the loop over [config.steps]. *)
Definition processStep (config : SetupConfig.t) (values : Values.t)
    (projectDir : string) (index : nat) (step : SetupStep.t) : M unit :=
  announceStep config index step ;;;
  if asks_to_skip step then
    let* setupStep := prompt_confirm optional_question in
    if negb setupStep then
      customConsole_log config
        (chalk H Yellow ("⏭️  Skipping " +:+ SetupStep.title step))
    else processVariables config values projectDir step
  else processVariables config values projectDir step.

(** [for (const [index, step] of config.steps.entries())] *)
Fixpoint walkSteps (config : SetupConfig.t) (values : Values.t)
    (projectDir : string) (index : nat) (steps : list SetupStep.t)
  : M unit :=
  match steps with
  | [] => ret tt
  | step :: rest =>
      processStep config values projectDir index step ;;;
      walkSteps config values projectDir (S index) rest
  end.

Definition setupEnvironment (config : SetupConfig.t) (projectDir : string)
    (values : Values.t) : M unit :=
  customConsole_log config
    (chalk H BoldCyan
       (String Js.newline "🚀 Welcome to v1 Environment Setup")) ;;;
  customConsole_log config (chalk H Dim (SetupConfig.introMessage config)) ;;;
  customConsole_log config
    (chalk H Dim ("Press Ctrl+C at any time to exit"
                  +:+ String Js.newline "")) ;;;
  walkSteps config values projectDir 0 (SetupConfig.steps config) ;;;
  customConsole_log config
    (chalk H BoldGreen
       (String Js.newline
          "🎉 Setup complete! Environment variables have been updated.")).

End Engine.

(** ** The configuration at its declared type

    [JSON.parse(configContent) as SetupConfig] (line 57) checks nothing: the
    document is used as a [SetupConfig] from there on.  [Decode.config] reads
    a document that has the declared type, field by field; it gives nothing
    for a document that does not have it, and what the code does with such a
    document is not followed. *)

Module Decode.

Definition text (j : json) : option string :=
  match j with
  | JString s => Some s
  | _ => None
  end.

Definition flag (j : json) : option bool :=
  match j with
  | JBool b => Some b
  | _ => None
  end.

Fixpoint all {A} (read : json -> option A) (items : list json)
  : option (list A) :=
  match items with
  | [] => Some []
  | j :: rest =>
      match read j, all read rest with
      | Some a, Some others => Some (a :: others)
      | _, _ => None
      end
  end.

(** [T[]] *)
Definition array {A} (read : json -> option A) (j : json)
  : option (list A) :=
  match j with
  | JArray items => all read items
  | _ => None
  end.

(** A field [f: T]. *)
Definition field {A} (read : json -> option A) (name : string)
    (members : list (string * json)) : option A :=
  match assoc name members with
  | Some j => read j
  | None => None
  end.

(** A field [f?: T]: [Some None] where the member is not there. *)
Definition optional {A} (read : json -> option A) (name : string)
    (members : list (string * json)) : option (option A) :=
  match assoc name members with
  | Some j => option_map Some (read j)
  | None => Some None
  end.

Definition variable (j : json) : option EnvVariable.t :=
  match j with
  | JObject m =>
      name ← field text "name" m;
      projects ← field (array text) "projects" m;
      details ← field text "details" m;
      required ← optional flag "required" m;
      defaultValue ← optional text "defaultValue" m;
      template ← optional text "template" m;
      info ← optional (array text) "info" m;
      Some (EnvVariable.mk name projects details required defaultValue
              template info)
  | _ => None
  end.

Definition step (j : json) : option SetupStep.t :=
  match j with
  | JObject m =>
      title ← field text "title" m;
      instructions ← field text "instructions" m;
      variables ← field (array variable) "variables" m;
      additionalInstructions ←
        optional (array text) "additionalInstructions" m;
      required ← optional flag "required" m;
      description ← optional text "description" m;
      interactive ← optional flag "interactive" m;
      Some (SetupStep.mk title instructions variables additionalInstructions
              required description interactive)
  | _ => None
  end.

Definition project (j : json) : option Project.t :=
  match j with
  | JObject m =>
      id ← field text "id" m;
      envFile ← optional text "envFile" m;
      exportCommand ← optional text "exportCommand" m;
      importCommand ← optional text "importCommand" m;
      ignoreLogs ← optional (array text) "ignoreLogs" m;
      Some (Project.mk id envFile exportCommand importCommand ignoreLogs)
  | _ => None
  end.

Definition config (j : json) : option SetupConfig.t :=
  match j with
  | JObject m =>
      introMessage ← field text "introMessage" m;
      projects ← field (array project) "projects" m;
      steps ← field (array step) "steps" m;
      Some (SetupConfig.mk introMessage projects steps)
  | _ => None
  end.

End Decode.

(** ** [setupEnvironment] as [main] calls it (lines 236-390) *)

(** How a call ends: the walk is over, [loadConfig] left the process, or
    the document is not a [SetupConfig]. *)
Inductive Run :=
| Completed
| Exited (code : nat)
| OutsideType.

Module Entry.

(** [setupEnvironment(projectDir, values, configPath)]: line 241 loads the
    configuration, lines 243-389 walk it. *)
Definition setupEnvironment (H : Host) (projectDir : string)
    (values : Values.t) (configPath : string) : M Run :=
  let* loaded := loadConfig H configPath in
  match loaded with
  | ProcessExit code => ret (Exited code)
  | Config document =>
      match Decode.config document with
      | Some config =>
          setupEnvironment H config projectDir values ;;;
          ret Completed
      | None => ret OutsideType
      end
  end.

End Entry.

(** ** A concrete host and concrete inputs, for the examples *)

Module Sample.

(** The double quote. *)
Definition dq : string := String "034"%char "".

(** [{"introMessage":"","projects":[],"steps":[]}] *)
Definition empty_projects_text : string :=
  "{" +:+ dq +:+ "introMessage" +:+ dq +:+ ":" +:+ dq +:+ dq +:+ ","
  +:+ dq +:+ "projects" +:+ dq +:+ ":[],"
  +:+ dq +:+ "steps" +:+ dq +:+ ":[]}".

Definition empty_projects_doc : json :=
  JObject [("introMessage", JString ""); ("projects", JArray []);
           ("steps", JArray [])].

(** [{"introMessage":"","steps":[]}] *)
Definition no_projects_text : string :=
  "{" +:+ dq +:+ "introMessage" +:+ dq +:+ ":" +:+ dq +:+ dq +:+ ","
  +:+ dq +:+ "steps" +:+ dq +:+ ":[]}".

Definition no_projects_doc : json :=
  JObject [("introMessage", JString ""); ("steps", JArray [])].

(** [JSON.parse] on the two texts above; any other text is taken not to
    parse. *)
Definition parse_json (text : string) : json + string :=
  if String.eqb text empty_projects_text then inl empty_projects_doc
  else if String.eqb text no_projects_text then inl no_projects_doc
  else inr "Unexpected token".

Fixpoint join_path (parts : list string) : string :=
  match parts with
  | [] => "."
  | [p] => p
  | p :: rest => p +:+ "/" +:+ join_path rest
  end.

(** [subject.replace(pattern, replacement)] for a replacement without [$]:
    the first occurrence of [pattern] gives way to [replacement]. *)
Fixpoint replace_first (subject pattern replacement : string) : string :=
  if String.prefix pattern subject then
    replacement
    +:+ String.substring (String.length pattern)
          (String.length subject - String.length pattern) subject
  else
    match subject with
    | EmptyString => EmptyString
    | String c t => String c (replace_first t pattern replacement)
    end.

(** A host whose commands print nothing and whose operator answers
    [confirm] at the confirm prompt and [typed] at the input prompt. *)
Definition host (confirm : bool) (typed : option string -> string) : Host :=
  {| path_join := join_path;
     path_relative := fun _ to => to;
     process_cwd := "/work";
     run_command := fun _ _ fs => (ExecReturned "", fs);
     string_replace := replace_first;
     string_trim := fun s => s;
     JSON_parse := parse_json;
     read_error := fun p => "ENOENT: no such file or directory, open " +:+ p;
     chalk := fun _ s => s;
     boxen := fun s => s;
     answer_confirm := fun _ _ => confirm;
     answer_input := fun _ _ default => typed default |}.

(** The operator accepts what the prompt offers. *)
Definition accept_default (d : option string) : string := default "" d.

Definition quiet : Host := host true accept_default.

Definition values : Values.t :=
  {| Values.convexUrl := "https://calm-owl-1.convex.cloud";
     Values.convexSiteUrl := "https://calm-owl-1.convex.site" |}.

Definition world (fs : gmap string string) : World :=
  {| files := fs; events := [] |}.

Definition web : Project.t :=
  Project.mk "web" (Some "apps/web/.env") None None None.
Definition api : Project.t :=
  Project.mk "api" (Some "apps/api/.env") None None None.
Definition backend : Project.t :=
  Project.mk "backend" None (Some "npx convex env set {{name}} {{value}}")
    (Some "npx convex env get {{name}}") None.
(** A project with an env file and with both command templates. *)
Definition both : Project.t :=
  Project.mk "both" (Some "both.env")
    (Some "npx convex env set {{name}} {{value}}")
    (Some "npx convex env get {{name}}") None.
Definition svc : Project.t :=
  Project.mk "svc" (Some "svc.env") None None None.

Definition variable (name : string) (projects : list string)
    (required : option bool) (defaultValue template : option string)
  : EnvVariable.t :=
  EnvVariable.mk name projects "details" required defaultValue template None.

Definition step (required interactive : option bool)
    (variables : list EnvVariable.t) : SetupStep.t :=
  SetupStep.mk "Title" "Do this" variables None required None interactive.

Definition config (projects : list Project.t) (steps : list SetupStep.t)
  : SetupConfig.t :=
  SetupConfig.mk "intro" projects steps.

End Sample.

(** ** [getConvexUrls] (lines 186-229) *)

Module Url.

Definition byte_is (n : nat) (c : ascii) : bool :=
  Nat.eqb (nat_of_ascii c) n.

(** The characters of [\s] that are one byte of UTF-8: tab, line feed,
    vertical tab, form feed, carriage return and space. *)
Definition space1 (a : ascii) : bool :=
  let n := nat_of_ascii a in
  (Nat.leb 9 n && Nat.leb n 13) || Nat.eqb n 32.

(** U+00A0, the one character of [\s] that is two bytes. *)
Definition space2 (a b : ascii) : bool := byte_is 194 a && byte_is 160 b.

(** The characters of [\s] that are three bytes: U+1680, U+2000 to U+200A,
    U+2028, U+2029, U+202F, U+205F, U+3000 and U+FEFF. *)
Definition space3 (a b c : ascii) : bool :=
  let n := nat_of_ascii c in
  (byte_is 225 a && byte_is 154 b && byte_is 128 c)
  || (byte_is 226 a && byte_is 128 b
      && ((Nat.leb 128 n && Nat.leb n 138) || Nat.eqb n 168 || Nat.eqb n 169
          || Nat.eqb n 175))
  || (byte_is 226 a && byte_is 129 b && byte_is 159 c)
  || (byte_is 227 a && byte_is 128 b && byte_is 128 c)
  || (byte_is 239 a && byte_is 187 b && byte_is 191 c).

(** The greedy [\s*]: the text after the white space at the head. *)
Fixpoint skip_space (s : string) : string :=
  match s with
  | EmptyString => EmptyString
  | String a t =>
      if space1 a then skip_space t
      else
        match t with
        | String b t' =>
            if space2 a b then skip_space t'
            else
              match t' with
              | String c t'' => if space3 a b c then skip_space t'' else s
              | EmptyString => s
              end
        | EmptyString => s
        end
  end.

(** [s] without the prefix [p], when it starts with it. *)
Fixpoint strip_prefix (p s : string) : option string :=
  match p with
  | EmptyString => Some s
  | String a p' =>
      match s with
      | String b s' => if Ascii.eqb a b then strip_prefix p' s' else None
      | EmptyString => None
      end
  end.

Definition quote : ascii := "034"%char.

(** The longest run of characters other than the double quote (the greedy
    character class of the pattern), and what follows it. *)
Fixpoint span_unquoted (s : string) : string * string :=
  match s with
  | EmptyString => (EmptyString, EmptyString)
  | String c t =>
      if Ascii.eqb c quote then (EmptyString, s)
      else let '(run, rest) := span_unquoted t in (String c run, rest)
  end.

(** The text [url] between double quotes. *)
Definition url_key : string :=
  String quote ("url" +:+ String quote EmptyString).

(** One attempt of the pattern of line 211 at the head of [s], giving the
    captured group.  With Q for the double quote, the pattern is
    [/QurlQ\s*:\s*Q(https:\/\/[^Q]+)Q/]. *)
Definition match_url (s : string) : option string :=
  match strip_prefix url_key s with
  | Some s1 =>
      match strip_prefix ":" (skip_space s1) with
      | Some s2 =>
          match strip_prefix (String quote "https://") (skip_space s2) with
          | Some s3 =>
              match span_unquoted s3 with
              | (String c run, String _ _) => Some ("https://" +:+ String c run)
              | _ => None
              end
          | None => None
          end
      | None => None
      end
  | None => None
  end.

(** [stdout.match(...)]: the group of the leftmost match, [None] for
    [null]. *)
Fixpoint find_url (s : string) : option string :=
  match match_url s with
  | Some url => Some url
  | None =>
      match s with
      | EmptyString => None
      | String _ t => find_url t
      end
  end.

End Url.

(** What [getConvexUrls] comes to: the two URLs, or [process.exit]. *)
Inductive Retrieved :=
| Urls (values : Values.t)
| UrlsExit (code : nat).

Section ConvexUrls.

Context (H : Host).

(** [fs.existsSync(path)] *)
Variable existsSync : string -> bool.

Definition function_spec : string := "npx convex function-spec".

Definition url_not_found : string :=
  "Convex URL not found in function-spec output".

(** The [catch] block of [getConvexUrls]. *)
Definition retrieval_failed (message : string) : M Retrieved :=
  console_error
    (chalk H Red ("Failed to retrieve Convex URLs: " +:+ message)) ;;;
  ret (UrlsExit 1).

(** Line 218: the first [convex.cloud] of the URL gives way to
    [convex.site]; the replacement holds no [$], so it is put in as it
    is. *)
Definition site_url (convexUrl : string) : string :=
  Sample.replace_first convexUrl "convex.cloud" "convex.site".

Definition getConvexUrls (projectDir : string) : M Retrieved :=
  let convexDir := path_join H [projectDir; "packages"; "backend"] in
  if negb (existsSync convexDir) then
    console_error
      (chalk H Red ("Error: 'packages/backend' directory not found in "
                    +:+ projectDir)) ;;;
    ret (UrlsExit 1)
  else
    console_log (chalk H Dim "Executing 'npx convex function-spec'...") ;;;
    let* r := execSync H function_spec convexDir in
    match r with
    | ExecThrew message => retrieval_failed message
    | ExecReturned output =>
        let stdout := string_trim H output in
        console_log (chalk H Dim "Raw output from convex function-spec:") ;;;
        console_log (chalk H Dim stdout) ;;;
        match Url.find_url stdout with
        | None => retrieval_failed url_not_found
        | Some convexUrl =>
            let convexSiteUrl := site_url convexUrl in
            console_log
              (chalk H Green "Successfully retrieved Convex URLs:") ;;;
            console_log (chalk H Green ("  convexUrl: " +:+ convexUrl)) ;;;
            console_log
              (chalk H Green ("  convexSiteUrl: " +:+ convexSiteUrl)) ;;;
            ret (Urls {| Values.convexUrl := convexUrl;
                         Values.convexSiteUrl := convexSiteUrl |})
        end
    end.

End ConvexUrls.

(** The output of the command in the examples, with Q for the double
    quote: [{QurlQ: Qhttps://calm-owl-1.convex.cloudQ, QfunctionsQ: []}]. *)
Definition spec_output : string :=
  "{" +:+ Sample.dq +:+ "url" +:+ Sample.dq +:+ ": " +:+ Sample.dq
  +:+ "https://calm-owl-1.convex.cloud" +:+ Sample.dq +:+ ", "
  +:+ Sample.dq +:+ "functions" +:+ Sample.dq +:+ ": []}".

(** A host whose command prints [spec_output]. *)
Definition spec_host : Host :=
  {| path_join := Sample.join_path;
     path_relative := fun _ to => to;
     process_cwd := "/work";
     run_command := fun _ _ fs => (ExecReturned spec_output, fs);
     string_replace := Sample.replace_first;
     string_trim := fun s => s;
     JSON_parse := Sample.parse_json;
     read_error := fun p => p;
     chalk := fun _ s => s;
     boxen := fun s => s;
     answer_confirm := fun _ _ => true;
     answer_input := fun _ _ d => default "" d |}.

(** ** Unfolding and composition of [replace_placeholders] *)

Module JsFacts.

Import Js.

Lemma append_cons c (s t : string) : String c s +:+ t = String c (s +:+ t).
Proof. reflexivity. Qed.

Lemma append_nil_l (t : string) : "" +:+ t = t.
Proof. reflexivity. Qed.

Lemma append_nil_r (t : string) : t +:+ "" = t.
Proof. induction t as [|x t IH]; [reflexivity|]. rewrite append_cons, IH. reflexivity. Qed.

Lemma append_assoc (a b c : string) : (a +:+ b) +:+ c = a +:+ (b +:+ c).
Proof.
  induction a as [|x a IH]; [reflexivity|].
  rewrite !append_cons, IH. reflexivity.
Qed.

Lemma replace_cons f c t :
  replace_placeholders f (String c t) =
  match match_placeholder (String c t) with
  | Some (key, rest) => f key +:+ replace_placeholders f rest
  | None => String c (replace_placeholders f t)
  end.
Proof.
  rewrite replace_placeholders_equation_2.
  change (match_placeholder (String c t)) with
    (proj1_sig (inspect (match_placeholder (String c t)))) at 2.
  destruct (inspect (match_placeholder (String c t))) as [[[k r]|] e];
    reflexivity.
Qed.

(** A word run stops at a character that is not a word character. *)
Lemma span_word_app t c x :
  is_word c = false ->
  span_word (t +:+ String c x) =
  (fst (span_word t), snd (span_word t) +:+ String c x).
Proof.
  intros Hc. induction t as [|a t IH].
  - simpl. rewrite Hc. reflexivity.
  - rewrite append_cons. simpl. destruct (is_word a); [|reflexivity].
    rewrite IH. destruct (span_word t); reflexivity.
Qed.

Lemma span_word_all key :
  all_word key = true -> span_word key = (key, "").
Proof.
  induction key as [|a t IH]; simpl; [reflexivity|].
  intros [Ha Ht]%andb_prop. rewrite Ha, (IH Ht). reflexivity.
Qed.

Lemma match_placeholder_here key post :
  key <> "" -> all_word key = true ->
  match_placeholder (placeholder key +:+ post) = Some (key, post).
Proof.
  intros Hne Hw. unfold placeholder. rewrite !append_cons.
  rewrite append_assoc, !append_cons, append_nil_l.
  unfold match_placeholder.
  rewrite span_word_app by reflexivity.
  rewrite (span_word_all key Hw).
  destruct key; [congruence|reflexivity].
Qed.

(** No match that starts before an opening brace pair reaches into it. *)
Lemma match_placeholder_app pre x :
  pre <> "" ->
  match_placeholder (pre +:+ String lbrace (String lbrace x)) =
  match match_placeholder pre with
  | Some (k, r) => Some (k, r +:+ String lbrace (String lbrace x))
  | None => None
  end.
Proof.
  intros Hne. destruct pre as [|a [|b t]]; [congruence| |].
  - rewrite append_cons, append_nil_l. simpl.
    destruct (Ascii.eqb a lbrace); reflexivity.
  - rewrite !append_cons. unfold match_placeholder.
    destruct (Ascii.eqb a lbrace && Ascii.eqb b lbrace); [|reflexivity].
    rewrite span_word_app by reflexivity.
    destruct (span_word t) as [[|k ks] [|c [|d r]]]; simpl; try reflexivity.
    + rewrite ?append_cons, ?append_nil_l.
      destruct (Ascii.eqb c rbrace); reflexivity.
    + rewrite ?append_cons.
      destruct (Ascii.eqb c rbrace && Ascii.eqb d rbrace); reflexivity.
Qed.

Lemma replace_placeholders_app_brace f pre x :
  replace_placeholders f (pre +:+ String lbrace (String lbrace x)) =
  replace_placeholders f pre
  +:+ replace_placeholders f (String lbrace (String lbrace x)).
Proof.
  remember (String.length pre) as n eqn:Hn.
  revert pre Hn. induction n as [n IH] using lt_wf_ind. intros pre Hn.
  destruct pre as [|c t]; [reflexivity|].
  rewrite append_cons, (replace_cons f c (t +:+ _)), <- append_cons.
  rewrite match_placeholder_app by discriminate.
  rewrite (replace_cons f c t).
  destruct (match_placeholder (String c t)) as [[k r]|] eqn:E.
  - apply match_placeholder_shorter in E.
    rewrite (IH (String.length r)); [|lia|reflexivity].
    rewrite append_assoc. reflexivity.
  - simpl in Hn. rewrite (IH (String.length t)); [|lia|reflexivity].
    reflexivity.
Qed.

(** Every occurrence of [{{key}}] is replaced by [f key], whatever stands
    before and after it. *)
Lemma replace_placeholders_occurrence f pre key post :
  key <> "" -> all_word key = true ->
  replace_placeholders f (pre +:+ placeholder key +:+ post) =
  replace_placeholders f pre +:+ f key +:+ replace_placeholders f post.
Proof.
  intros Hne Hw.
  assert (E : placeholder key +:+ post =
              String lbrace (String lbrace
                ((key +:+ String rbrace (String rbrace "")) +:+ post)))
    by reflexivity.
  rewrite E, replace_placeholders_app_brace, <- E. f_equal.
  destruct (placeholder key +:+ post) as [|c t] eqn:E2; [discriminate|].
  rewrite replace_cons, <- E2.
  rewrite match_placeholder_here by assumption. reflexivity.
Qed.

End JsFacts.

(** Matches are found from the left and do not overlap; braces around
    anything but a run of word characters stay as they are. *)
Example replace_demo :
  Js.replace_placeholders (fun k => "<" +:+ k +:+ ">")
    "a{{x1}}b{{{y}}}{{}}{{z" =
  "a<x1>b{<y>}{{}}{{z".
Proof. vm_compute. reflexivity. Qed.

(** ** Properties of the template resolver *)

Section TemplateResolver.

Variable values : Values.t.

Lemma not_set_not_empty key : not_set key <> "".
Proof. discriminate. Qed.

(** In an info string, an occurrence of a key without a truthy value is
    shown as the marker. *)
Lemma render_info_occurrence pre key post :
  key <> "" -> Js.all_word key = true ->
  Js.truthy (Values.get values key) = false ->
  render_info values (pre +:+ Js.placeholder key +:+ post) =
  render_info values pre +:+ not_set key +:+ render_info values post.
Proof.
  intros Hne Hw Hv. unfold render_info.
  rewrite JsFacts.replace_placeholders_occurrence by assumption.
  do 2 f_equal. unfold Js.or_string, Js.truthy in *.
  destruct (Values.get values key) as [s|]; [|reflexivity].
  rewrite Hv. reflexivity.
Qed.

(** In a template, the same occurrence leaves nothing. *)
Lemma render_template_occurrence pre key post :
  key <> "" -> Js.all_word key = true ->
  Js.truthy (Values.get values key) = false ->
  render_template values (pre +:+ Js.placeholder key +:+ post) =
  render_template values pre +:+ render_template values post.
Proof.
  intros Hne Hw Hv. unfold render_template.
  rewrite JsFacts.replace_placeholders_occurrence by assumption.
  f_equal. unfold Js.or_string, Js.truthy in *.
  destruct (Values.get values key) as [s|]; [|reflexivity].
  rewrite Hv. reflexivity.
Qed.

End TemplateResolver.

(** C1 (as amended).  For every info string and every occurrence [{{key}}]
    in it whose key is absent from the Values context, rendering puts the
    marker [[key not set]] in place of that occurrence; the marker is never
    the empty string, and rendering is a total function, so nothing is
    thrown.  On the other path, a [template] string, the same occurrence is
    replaced by the empty string.  A key is absent when [values[key]] finds
    nothing: the key is neither of the two fields and no member that the
    object inherits from [Object.prototype]. *)
Theorem C1_missing_key_rendering (values : Values.t) (pre key post : string) :
  key <> "" -> Js.all_word key = true -> Values.get values key = None ->
  render_info values (pre +:+ Js.placeholder key +:+ post) =
    render_info values pre +:+ not_set key +:+ render_info values post
  /\ not_set key = "[" +:+ key +:+ " not set]"
  /\ not_set key <> ""
  /\ render_template values (pre +:+ Js.placeholder key +:+ post) =
       render_template values pre +:+ "" +:+ render_template values post
  /\ (key <> "convexUrl" /\ key <> "convexSiteUrl"
      /\ Values.inherited key = None).
Proof.
  intros Hne Hw Hv.
  assert (Ht : Js.truthy (Values.get values key) = false)
    by (rewrite Hv; reflexivity).
  split; [|split; [|split; [|split]]].
  - apply render_info_occurrence; assumption.
  - reflexivity.
  - apply not_set_not_empty.
  - rewrite JsFacts.append_nil_l. apply render_template_occurrence; assumption.
  - unfold Values.get in Hv.
    destruct (String.eqb_spec key "convexUrl"); [discriminate|].
    destruct (String.eqb_spec key "convexSiteUrl"); [discriminate|].
    auto.
Qed.

Lemma C1_missing_key_rendering_witness :
  render_info Sample.values ("Open " +:+ Js.placeholder "dashboard" +:+ " now")
  = "Open [dashboard not set] now"
  /\ render_template Sample.values
       ("Open " +:+ Js.placeholder "dashboard" +:+ " now")
     = "Open  now".
Proof.
  destruct (C1_missing_key_rendering Sample.values "Open " "dashboard" " now")
    as (Hi & _ & _ & Ht & _).
  - discriminate.
  - reflexivity.
  - reflexivity.
  - split.
    + rewrite Hi. vm_compute. reflexivity.
    + rewrite Ht. vm_compute. reflexivity.
Defined.

(** C1 as the specification states it fails on the template path: the
    template [{{dashboard}}], whose key is absent from the Values context,
    renders to the empty string and not to the marker.  And a key that is no
    value of the context may still name a member the object inherits: the
    info string [{{constructor}}] shows the text of the function [Object],
    not the marker. *)
Lemma C1_template_counterexample :
  Values.get Sample.values "dashboard" = None
  /\ render_template Sample.values "{{dashboard}}" = ""
  /\ render_template Sample.values "{{dashboard}}" <> "[dashboard not set]"
  /\ computeDefault Sample.values
       (Sample.variable "URL" ["web"] None None (Some "{{dashboard}}")) None
     = Some ""
  /\ render_info Sample.values "{{constructor}}"
     = "function Object() { [native code] }"
  /\ render_info Sample.values "{{constructor}}" <> "[constructor not set]".
Proof. vm_compute. repeat split; discriminate. Qed.

(** ** What an operation adds to the events *)

Section Traces.

Context (H : Host).

(** Every run of [m] keeps the events it starts from and adds events that
    all satisfy [P]. *)
Definition adds {A} (P : Event -> Prop) (m : M A) : Prop :=
  forall w, exists new,
    events (snd (m w)) = events w ++ new /\ Forall P new.

Lemma adds_ret {A} P (a : A) : adds P (ret a).
Proof. intros w. exists []. rewrite app_nil_r. split; [reflexivity|constructor]. Qed.

Lemma adds_bind {A B} P (m : M A) (k : A -> M B) :
  adds P m -> (forall a, adds P (k a)) -> adds P (bind m k).
Proof.
  intros Hm Hk w. unfold bind.
  destruct (Hm w) as (n1 & E1 & F1).
  destruct (m w) as [a w1]. simpl in E1.
  destruct (Hk a w1) as (n2 & E2 & F2).
  exists (n1 ++ n2). rewrite E2, E1, app_assoc.
  split; [reflexivity|]. apply Forall_app; split; assumption.
Qed.

Lemma adds_emit (P : Event -> Prop) e : P e -> adds P (emit e).
Proof.
  intros He w. exists [e]. split; [reflexivity|]. repeat constructor. exact He.
Qed.

Lemma adds_for_each {A} P (xs : list A) (body : A -> M unit) :
  (forall x, adds P (body x)) -> adds P (for_each xs body).
Proof.
  intros Hb. induction xs as [|x xs IH]; simpl.
  - apply adds_ret.
  - apply adds_bind; [apply Hb|intros _; exact IH].
Qed.

Lemma adds_weaken {A} (P Q : Event -> Prop) (m : M A) :
  (forall e, P e -> Q e) -> adds P m -> adds Q m.
Proof.
  intros HPQ Hm w. destruct (Hm w) as (new & E & F).
  exists new. split; [exact E|]. eapply Forall_impl; eauto.
Qed.

(** The kinds of events. *)
Definition is_console (e : Event) : Prop :=
  match e with ConsoleLog _ | ConsoleError _ => True | _ => False end.
Definition is_read (e : Event) : Prop :=
  match e with ReadFile _ => True | _ => False end.
Definition is_write (e : Event) : Prop :=
  match e with WriteFile _ _ => True | _ => False end.
Definition is_exec (e : Event) : Prop :=
  match e with Exec _ _ => True | _ => False end.
Definition is_confirm (e : Event) : Prop :=
  match e with PromptConfirm _ _ => True | _ => False end.
Definition is_input (e : Event) : Prop :=
  match e with PromptInput _ _ _ => True | _ => False end.
Definition is_prompt (e : Event) : Prop := is_confirm e \/ is_input e.

(** Events of an operation that asks the operator nothing. *)
Definition silent (e : Event) : Prop :=
  is_console e \/ is_read e \/ is_write e \/ is_exec e.

Lemma silent_not_prompt e : silent e -> ~ is_prompt e.
Proof. destruct e; unfold silent, is_prompt; simpl; tauto. Qed.

Lemma adds_console_log P m : P (ConsoleLog m) -> adds P (console_log m).
Proof. apply adds_emit. Qed.

Lemma adds_console_error P m : P (ConsoleError m) -> adds P (console_error m).
Proof. apply adds_emit. Qed.

Lemma adds_readFileSync P path : P (ReadFile path) -> adds P (readFileSync path).
Proof.
  intros HP w. exists [ReadFile path]. split; [reflexivity|]. repeat constructor. exact HP.
Qed.

Lemma adds_writeFileSync P path content :
  P (WriteFile path content) -> adds P (writeFileSync path content).
Proof.
  intros HP w. exists [WriteFile path content].
  split; [reflexivity|]. repeat constructor. exact HP.
Qed.

Lemma adds_execSync P command cwd :
  P (Exec command cwd) -> adds P (execSync H command cwd).
Proof.
  intros HP w. exists [Exec command cwd]. unfold execSync.
  destruct (run_command H command cwd (files w)).
  split; [reflexivity|]. repeat constructor. exact HP.
Qed.

Lemma adds_prompt_input P message default :
  (forall a, P (PromptInput message default a)) ->
  adds P (prompt_input H message default).
Proof.
  intros HP w. eexists [_]. split; [reflexivity|]. repeat constructor. apply HP.
Qed.

Lemma adds_prompt_confirm P message :
  (forall a, P (PromptConfirm message a)) ->
  adds P (prompt_confirm H message).
Proof.
  intros HP w. eexists [_]. split; [reflexivity|]. repeat constructor. apply HP.
Qed.

Lemma adds_customConsole_log P config message :
  P (ConsoleLog message) -> adds P (customConsole_log config message).
Proof.
  intros HP. unfold customConsole_log.
  destruct (ignored _ _); [apply adds_ret|apply adds_console_log, HP].
Qed.

End Traces.

(** Splits a goal [adds P m] along the structure of [m]. *)
Ltac adds_steps :=
  repeat first
    [ apply adds_ret
    | apply adds_bind; [|intros ?]
    | apply adds_for_each; intros ?
    | apply adds_customConsole_log
    | apply adds_console_log
    | apply adds_console_error
    | apply adds_readFileSync
    | apply adds_writeFileSync
    | apply adds_execSync
    | match goal with
      | |- adds _ (if ?b then _ else _) => destruct b
      | |- adds _ (match ?x with _ => _ end) => destruct x
      end ].

Section SilentOperations.

Context (H : Host).

Lemma silent_log m : silent (ConsoleLog m).
Proof. left. exact I. Qed.
Lemma silent_error m : silent (ConsoleError m).
Proof. left. exact I. Qed.
Lemma silent_read p : silent (ReadFile p).
Proof. right. left. exact I. Qed.
Lemma silent_write p c : silent (WriteFile p c).
Proof. right. right. left. exact I. Qed.
Lemma silent_exec c d : silent (Exec c d).
Proof. right. right. right. exact I. Qed.

Hint Resolve silent_log silent_error silent_read silent_write silent_exec
  : core.

Lemma getEnvFileValue_silent envFile key :
  adds silent (getEnvFileValue envFile key).
Proof. unfold getEnvFileValue. adds_steps; auto. Qed.

Lemma read_project_silent project variable projectDir :
  adds silent (read_project H project variable projectDir).
Proof.
  unfold read_project, import_value.
  adds_steps; auto using getEnvFileValue_silent.
Qed.

Lemma getExistingValue_loop_silent projects variable projectDir ids :
  adds silent (getExistingValue_loop H projects variable projectDir ids).
Proof.
  induction ids as [|pid rest IH]; simpl.
  - apply adds_ret.
  - destruct (find_project projects pid); [|exact IH].
    apply adds_bind; [apply read_project_silent|].
    intros [v|]; [apply adds_ret|exact IH].
Qed.

Lemma getExistingValue_silent projects variable projectDir :
  adds silent (getExistingValue H projects variable projectDir).
Proof. apply getExistingValue_loop_silent. Qed.

Lemma updateEnvFile_silent filePath key value :
  adds silent (updateEnvFile filePath key value).
Proof. unfold updateEnvFile. adds_steps; auto. Qed.

Lemma updateProjectValue_silent project key value projectDir :
  adds silent (updateProjectValue H project key value projectDir).
Proof.
  unfold updateProjectValue, export_value.
  adds_steps; auto using updateEnvFile_silent.
Qed.

Lemma write_projects_silent config variable value projectDir ids acc :
  adds silent (write_projects H config variable value projectDir ids acc).
Proof.
  revert acc. induction ids as [|pid rest IH]; intros acc; simpl.
  - apply adds_ret.
  - destruct (find_project _ pid); [|apply IH].
    apply adds_bind; [apply updateProjectValue_silent|].
    intros u. apply IH.
Qed.

Lemma report_set_silent config variable updatedFiles :
  adds silent (report_set H config variable updatedFiles).
Proof. unfold report_set. adds_steps; auto. Qed.

Lemma persistValue_silent config variable value projectDir :
  adds silent (persistValue H config variable value projectDir).
Proof.
  unfold persistValue, report_skipped.
  adds_steps; auto using write_projects_silent, report_set_silent.
Qed.

Lemma show_info_silent config values variable :
  adds silent (show_info H config values variable).
Proof. unfold show_info. adds_steps; auto. Qed.

Lemma announceStep_silent config index step :
  adds silent (announceStep H config index step).
Proof. unfold announceStep. adds_steps; auto. Qed.

End SilentOperations.

(** ** Loading the configuration *)

(** The [projects] member of a document, [None] when there is none. *)
Definition projects_of (config : json) : option json :=
  match get_projects config with
  | inr v => v
  | inl _ => None
  end.

Section LoadConfig.

Context (H : Host).

Lemma load_failed_exit message w :
  fst (load_failed H message w) = ProcessExit 1.
Proof. reflexivity. Qed.

(** What [loadConfig] returns, case by case. *)
Lemma loadConfig_result configPath w :
  fst (loadConfig H configPath w) =
  match files w !! configPath with
  | None => ProcessExit 1
  | Some content =>
      match JSON_parse H content with
      | inr _ => ProcessExit 1
      | inl config =>
          if isArray (projects_of config) then Config config
          else ProcessExit 1
      end
  end.
Proof.
  unfold loadConfig, bind, console_log, emit, readFileSync. simpl.
  destruct (files w !! configPath) as [content|]; [|reflexivity].
  destruct (JSON_parse H content) as [config|message]; [|reflexivity].
  unfold projects_of.
  destruct (get_projects config) as [u|v]; [reflexivity|].
  destruct (isArray v); reflexivity.
Qed.

End LoadConfig.

(** C4 (as amended).  Loading a configuration whose [projects] member is
    absent or is not a sequence is fatal: [loadConfig] ends the process with
    exit code 1.  A configuration that [loadConfig] returns has a [projects]
    member that is a sequence; the sequence may be empty. *)
Theorem C4_projects_is_a_sequence (H : Host) (configPath : string) (w : World)
    (content : string) (config : json) :
  files w !! configPath = Some content ->
  JSON_parse H content = inl config ->
  (isArray (projects_of config) = false ->
   fst (loadConfig H configPath w) = ProcessExit 1)
  /\ (forall loaded, fst (loadConfig H configPath w) = Config loaded ->
      exists items, projects_of loaded = Some (JArray items)).
Proof.
  intros Hf Hp. rewrite loadConfig_result, Hf, Hp. split.
  - intros ->. reflexivity.
  - intros loaded. destruct (isArray (projects_of config)) eqn:E; [|discriminate].
    intros [= <-]. unfold isArray in E.
    destruct (projects_of config) as [[]|]; try discriminate. eauto.
Qed.

Lemma C4_projects_is_a_sequence_witness :
  fst (loadConfig Sample.quiet "setup-config.json"
         (Sample.world {[ "setup-config.json" := Sample.no_projects_text ]}))
  = ProcessExit 1.
Proof.
  apply (C4_projects_is_a_sequence Sample.quiet "setup-config.json"
           (Sample.world {[ "setup-config.json" := Sample.no_projects_text ]})
           Sample.no_projects_text Sample.no_projects_doc).
  - vm_compute. reflexivity.
  - vm_compute. reflexivity.
  - vm_compute. reflexivity.
Defined.

(** C4 as the specification states it fails on its second half: the
    configuration [{"introMessage":"","projects":[],"steps":[]}] is loaded,
    and its project list is the empty sequence. *)
Lemma C4_empty_projects_counterexample :
  JSON_parse Sample.quiet Sample.empty_projects_text
  = inl Sample.empty_projects_doc
  /\ fst (loadConfig Sample.quiet "setup-config.json"
            (Sample.world
               {[ "setup-config.json" := Sample.empty_projects_text ]}))
     = Config Sample.empty_projects_doc
  /\ projects_of Sample.empty_projects_doc = Some (JArray []).
Proof. vm_compute. repeat split. Qed.

(** ** Env files *)

Section EnvFiles.

(** What an env file binds a key to; [None] too when it cannot be read. *)
Definition bound (w : World) (path key : string) : option string :=
  match files w !! path with
  | Some content => Dotenv.get (Dotenv.parse content) key
  | None => None
  end.

Definition after (w : World) (new : list Event) : World :=
  {| files := files w; events := events w ++ new |}.

(** The content [updateEnvFile] writes over the old content [old]. *)
Definition updated (key value : string) (old : option string) : string :=
  Dotenv.serialize (Dotenv.set key value (Dotenv.parse (default "" old))).

Lemma updateEnvFile_run filePath key value w :
  updateEnvFile filePath key value w =
  (tt, {| files := <[filePath := updated key value (files w !! filePath)]>
                     (files w);
          events := events w ++
                    [ReadFile filePath;
                     WriteFile filePath
                       (updated key value (files w !! filePath))] |}).
Proof.
  unfold updateEnvFile, bind, readFileSync, writeFileSync, updated. simpl.
  rewrite <- app_assoc. reflexivity.
Qed.

Lemma getEnvFileValue_run envFile key w :
  getEnvFileValue envFile key w =
  (match files w !! envFile with
   | Some envContent => Dotenv.get (Dotenv.parse envContent) key
   | None => None
   end,
   {| files := files w; events := events w ++ [ReadFile envFile] |}).
Proof.
  unfold getEnvFileValue, bind, readFileSync.
  destruct (files w !! envFile); reflexivity.
Qed.

(** Setting a key leaves the other keys as they are. *)
Lemma get_set_other e key value other :
  other <> key ->
  Dotenv.get (Dotenv.set key value e) other = Dotenv.get e other.
Proof.
  intros Hne. unfold Dotenv.get.
  induction e as [|[k v] e IH]; simpl.
  - destruct (String.eqb_spec key other); [congruence|reflexivity].
  - destruct (String.eqb_spec k key) as [->|Hk]; simpl.
    + destruct (String.eqb_spec key other); [congruence|reflexivity].
    + destruct (String.eqb k other); [reflexivity|exact IH].
Qed.

Lemma get_set_same e key value :
  Dotenv.get (Dotenv.set key value e) key = Some value.
Proof.
  unfold Dotenv.get. induction e as [|[k v] e IH]; simpl.
  - rewrite String.eqb_refl. reflexivity.
  - destruct (String.eqb_spec k key) as [->|Hk]; simpl.
    + rewrite String.eqb_refl. reflexivity.
    + destruct (String.eqb_spec k key); [congruence|exact IH].
Qed.

(** A key that is not bound yet goes after the bindings there are. *)
Lemma set_new_key e key value :
  Dotenv.get e key = None -> Dotenv.set key value e = e ++ [(key, value)].
Proof.
  unfold Dotenv.get. induction e as [|[k v] e IH]; simpl; [reflexivity|].
  destruct (String.eqb k key); [discriminate|].
  intros Hn. rewrite (IH Hn). reflexivity.
Qed.

End EnvFiles.

(** *** The env-file format read back

    These facts belong to the format as it is modelled: lines [KEY=VALUE]
    without quoting. *)

Module DotenvFacts.
Import Dotenv.

(** Whether the character occurs in the text. *)
Fixpoint has (c : ascii) (s : string) : bool :=
  match s with
  | EmptyString => false
  | String a t => Ascii.eqb a c || has c t
  end.

Lemma has_app c a b : has c (a +:+ b) = has c a || has c b.
Proof.
  induction a as [|x a IH]; [reflexivity|].
  rewrite ?JsFacts.append_cons. simpl. rewrite IH, orb_assoc. reflexivity.
Qed.

(** A key that a line can carry, and a value that a line can carry. *)
Definition clean_key (k : string) : Prop :=
  k <> "" /\ has equals k = false /\ has Js.newline k = false.
Definition clean_value (v : string) : Prop := has Js.newline v = false.

Definition clean (kv : string * string) : Prop :=
  clean_key (fst kv) /\ clean_value (snd kv).

(** An object that comes back from its own text. *)
Definition well_formed (e : env) : Prop :=
  NoDup (map fst e) /\ Forall clean e.

Lemma cut_miss sep s : has sep s = false -> cut sep s = (s, None).
Proof.
  induction s as [|c t IH]; simpl; [reflexivity|].
  intros [Hc Ht]%orb_false_elim. rewrite Hc, (IH Ht). reflexivity.
Qed.

Lemma cut_hit sep a b :
  has sep a = false -> cut sep (a +:+ String sep b) = (a, Some b).
Proof.
  induction a as [|c t IH]; simpl.
  - intros _. rewrite ?JsFacts.append_nil_l. simpl.
    rewrite Ascii.eqb_refl. reflexivity.
  - intros [Hc Ht]%orb_false_elim. rewrite ?JsFacts.append_cons. simpl.
    rewrite Hc, (IH Ht). reflexivity.
Qed.

Lemma cut_some sep s a b :
  cut sep s = (a, Some b) -> s = a +:+ String sep b /\ has sep a = false.
Proof.
  revert a. induction s as [|c t IH]; intros a; simpl; [discriminate|].
  destruct (Ascii.eqb_spec c sep) as [->|Hne].
  - intros [= <- <-]. split; reflexivity.
  - destruct (cut sep t) as [a' b'] eqn:E. intros [= <- ->].
    destruct (IH a' eq_refl) as [-> Ha]. split; [reflexivity|].
    simpl. rewrite Ha. destruct (Ascii.eqb_spec c sep); [contradiction|reflexivity].
Qed.

Lemma parse_line_of k v :
  k <> "" -> has equals k = false -> parse_line (line_of (k, v)) = Some (k, v).
Proof.
  intros Hne Hk. unfold parse_line, line_of. simpl fst. simpl snd.
  rewrite cut_hit by exact Hk. destruct k; [congruence|reflexivity].
Qed.

Lemma parse_line_clean l k v :
  has Js.newline l = false -> parse_line l = Some (k, v) -> clean (k, v).
Proof.
  unfold parse_line. intros Hl.
  destruct (cut equals l) as [a [b|]] eqn:E; [|destruct a; discriminate].
  apply cut_some in E as [-> Ha].
  rewrite has_app in Hl. apply orb_false_elim in Hl as [Hka Hvb].
  simpl in Hvb.
  destruct a as [|c a]; [discriminate|]. intros [= <- <-].
  repeat split; [discriminate|exact Ha|exact Hka|exact Hvb].
Qed.

Lemma lines_not_nil s : lines s <> [].
Proof.
  induction s as [|c t IH]; simpl; [discriminate|].
  destruct (Ascii.eqb c Js.newline); [discriminate|].
  destruct (lines t); [congruence|discriminate].
Qed.

Lemma lines_no_newline s : Forall (fun l => has Js.newline l = false) (lines s).
Proof.
  induction s as [|c t IH]; simpl.
  - repeat constructor.
  - destruct (Ascii.eqb c Js.newline) eqn:Ec.
    + constructor; [reflexivity|exact IH].
    + destruct (lines t) as [|l ls]; [repeat constructor; simpl; rewrite Ec; reflexivity|].
      inversion IH as [|? ? Hl Hls]; subst. constructor; [|exact Hls].
      simpl. rewrite Ec, Hl. reflexivity.
Qed.

Lemma join_cons_cons p q rest :
  join (p :: q :: rest) = p +:+ String Js.newline (join (q :: rest)).
Proof. reflexivity. Qed.

Lemma lines_newline t : lines (String Js.newline t) = "" :: lines t.
Proof. reflexivity. Qed.

Lemma lines_other c t :
  Ascii.eqb c Js.newline = false ->
  lines (String c t) =
  match lines t with
  | l :: ls => String c l :: ls
  | [] => [String c ""]
  end.
Proof. intros Hc. simpl. rewrite Hc. reflexivity. Qed.

Lemma lines_join l ls :
  Forall (fun l => has Js.newline l = false) (l :: ls) ->
  lines (join (l :: ls)) = l :: ls.
Proof.
  revert l. induction ls as [|q ls IH]; intros l Hall.
  - inversion Hall as [|? ? Hl _]; subst. clear Hall.
    change (join [l]) with l.
    induction l as [|c l IHl]; [reflexivity|].
    simpl in Hl. apply orb_false_elim in Hl as [Hc Hl].
    rewrite (lines_other c l Hc), (IHl Hl). reflexivity.
  - inversion Hall as [|? ? Hl Hrest]; subst.
    rewrite join_cons_cons. specialize (IH q Hrest). clear Hall.
    induction l as [|c l IHl].
    + rewrite JsFacts.append_nil_l, lines_newline, IH. reflexivity.
    + simpl in Hl. apply orb_false_elim in Hl as [Hc Hl].
      rewrite JsFacts.append_cons, (lines_other _ _ Hc), (IHl Hl).
      reflexivity.
Qed.

Lemma keys_set key value e :
  map fst (set key value e) =
  match get e key with
  | Some _ => map fst e
  | None => map fst e ++ [key]
  end.
Proof.
  unfold get. induction e as [|[k v] e IH]; simpl; [reflexivity|].
  destruct (String.eqb k key); simpl; [reflexivity|].
  rewrite IH. destruct (assoc key e); reflexivity.
Qed.

Lemma get_none_not_in e key : get e key = None <-> ~ In key (map fst e).
Proof.
  unfold get. induction e as [|[k v] e IH]; simpl; [tauto|].
  destruct (String.eqb_spec k key) as [->|Hne].
  - split; [discriminate|]. intros Hn. exfalso. apply Hn. left. reflexivity.
  - rewrite IH. tauto.
Qed.

Lemma set_well_formed key value e :
  well_formed e -> clean (key, value) -> well_formed (set key value e).
Proof.
  intros [Hnd Hcl] Hkv. split.
  - rewrite keys_set. destruct (get e key) eqn:E; [exact Hnd|].
    apply get_none_not_in in E.
    apply NoDup_app. split; [exact Hnd|]. split.
    + intros x Hx [->|[]]%list_elem_of_In. apply E. apply list_elem_of_In. exact Hx.
    + apply NoDup_singleton.
  - clear Hnd. induction e as [|[k v] e IH]; simpl.
    + repeat constructor; apply Hkv.
    + inversion Hcl as [|? ? Hc Hrest]; subst.
      destruct (String.eqb_spec k key) as [->|Hne].
      * constructor; [|exact Hrest]. exact Hkv.
      * constructor; [exact Hc|apply IH, Hrest].
Qed.

Lemma parse_well_formed content : well_formed (parse content).
Proof.
  unfold parse.
  assert (G : forall ls acc, Forall (fun l => has Js.newline l = false) ls ->
            well_formed acc -> well_formed (fold_left assign ls acc)).
  { induction ls as [|l ls IH]; intros acc Hls Hacc; [exact Hacc|].
    inversion Hls as [|? ? Hl Hrest]; subst. simpl. apply IH; [exact Hrest|].
    unfold assign. destruct (parse_line l) as [[k v]|] eqn:E; [|exact Hacc].
    apply set_well_formed; [exact Hacc|]. eapply parse_line_clean; eassumption. }
  apply G; [apply lines_no_newline|]. split; constructor.
Qed.

Lemma line_of_no_newline kv :
  clean kv -> has Js.newline (line_of kv) = false.
Proof.
  intros [(_ & _ & Hk) Hv]. unfold line_of. rewrite has_app. simpl.
  rewrite Hk, Hv. reflexivity.
Qed.

Lemma fold_assign_lines e acc :
  Forall clean e ->
  NoDup (map fst acc ++ map fst e) ->
  fold_left assign (map line_of e) acc = acc ++ e.
Proof.
  revert acc. induction e as [|[k v] e IH]; intros acc Hcl Hnd; simpl.
  - rewrite app_nil_r. reflexivity.
  - inversion Hcl as [|? ? Hc Hrest]; subst.
    unfold assign at 2. destruct Hc as [(Hne & Heq & _) _]. simpl in *.
    rewrite parse_line_of by assumption.
    assert (Hg : get acc k = None).
    { apply get_none_not_in. intros Hin.
      apply NoDup_app in Hnd as (_ & Hdis & _).
      apply (Hdis k); [apply list_elem_of_In; exact Hin|left]. }
    rewrite (set_new_key acc k v Hg).
    rewrite IH; [rewrite <- app_assoc; reflexivity|exact Hrest|].
    rewrite map_app. simpl. rewrite <- app_assoc. exact Hnd.
Qed.

(** *** The order of [Object.entries] *)

Lemma place_perm n kv l : Permutation (place n kv l) ((n, kv) :: l).
Proof.
  induction l as [|[m x] l IH]; simpl; [reflexivity|].
  destruct (n <=? m)%N; [reflexivity|].
  rewrite IH. apply perm_swap.
Qed.

(** [Object.entries] lists every binding once. *)
Lemma entries_perm e : Permutation (entries e) e.
Proof.
  unfold entries. induction e as [|kv e IH]; simpl; [reflexivity|].
  destruct (index_of (fst kv)) as [n|].
  - rewrite (Permutation_map snd (place_perm n kv (index_entries e))).
    simpl. apply perm_skip, IH.
  - rewrite <- Permutation_middle. apply perm_skip, IH.
Qed.

Lemma get_in e k v : NoDup (map fst e) -> get e k = Some v <-> In (k, v) e.
Proof.
  unfold get. induction e as [|[a b] e IH]; simpl; intros Hnd.
  - split; [discriminate|tauto].
  - apply NoDup_cons in Hnd as [Ha Hnd].
    destruct (String.eqb_spec a k) as [->|Hne].
    + split.
      * intros [= ->]. left. reflexivity.
      * intros [[= ->]|Hin]; [reflexivity|].
        exfalso. apply Ha. apply list_elem_of_In.
        apply (in_map fst) in Hin. exact Hin.
    + rewrite (IH Hnd). split; [tauto|].
      intros [[= -> ->]|Hin]; [congruence|exact Hin].
Qed.

(** The order of the bindings does not matter to a lookup. *)
Lemma get_perm e e' k :
  NoDup (map fst e) -> Permutation e e' -> get e' k = get e k.
Proof.
  intros Hnd Hp.
  assert (Hnd' : NoDup (map fst e')).
  { rewrite <- (Permutation_map fst Hp). exact Hnd. }
  destruct (get e k) as [v|] eqn:E.
  - apply get_in; [exact Hnd'|]. apply (Permutation_in _ Hp).
    apply get_in; assumption.
  - destruct (get e' k) as [v'|] eqn:E'; [|reflexivity].
    apply get_in in E'; [|exact Hnd'].
    apply (Permutation_in _ (Permutation_sym Hp)) in E'.
    apply get_in in E'; [congruence|exact Hnd].
Qed.

Lemma get_entries e k : NoDup (map fst e) -> get (entries e) k = get e k.
Proof.
  intros Hnd. apply get_perm; [exact Hnd|].
  apply Permutation_sym, entries_perm.
Qed.

Lemma entries_well_formed e : well_formed e -> well_formed (entries e).
Proof.
  intros [Hnd Hcl]. split.
  - rewrite (Permutation_map fst (entries_perm e)). exact Hnd.
  - rewrite (entries_perm e). exact Hcl.
Qed.

(** Indexed bindings in ascending order. *)
Fixpoint ascending (l : list (N * (string * string))) : Prop :=
  match l with
  | [] => True
  | (n, _) :: rest =>
      match rest with
      | [] => True
      | (m, _) :: _ => (n <= m)%N
      end /\ ascending rest
  end.

Lemma place_ascending n kv l : ascending l -> ascending (place n kv l).
Proof.
  induction l as [|[m x] l IH]; simpl; [tauto|].
  intros [Hm Hl]. destruct (N.leb_spec n m) as [Hle|Hgt].
  - simpl. tauto.
  - specialize (IH Hl). simpl. split; [|exact IH].
    destruct l as [|[m' x'] l]; simpl; [lia|].
    destruct (N.leb_spec n m'); lia.
Qed.

Lemma index_entries_ascending e : ascending (index_entries e).
Proof.
  induction e as [|kv e IH]; simpl; [exact I|].
  destruct (index_of (fst kv)); [apply place_ascending|]; exact IH.
Qed.

Lemma place_first n kv l :
  ascending ((n, kv) :: l) -> place n kv l = (n, kv) :: l.
Proof.
  destruct l as [|[m x] l]; simpl; [reflexivity|].
  intros [Hle _]. destruct (N.leb_spec n m); [reflexivity|lia].
Qed.

Definition indexed (x : N * (string * string)) : Prop :=
  index_of (fst (snd x)) = Some (fst x).

Definition named (kv : string * string) : Prop := index_of (fst kv) = None.

Lemma place_indexed n kv l :
  index_of (fst kv) = Some n -> Forall indexed l ->
  Forall indexed (place n kv l).
Proof.
  intros Hn. induction l as [|[m x] l IH]; simpl; intros Hl.
  - repeat constructor. exact Hn.
  - destruct (n <=? m)%N.
    + constructor; [exact Hn|exact Hl].
    + inversion Hl; subst. constructor; [assumption|apply IH; assumption].
Qed.

Lemma index_entries_indexed e : Forall indexed (index_entries e).
Proof.
  induction e as [|kv e IH]; simpl; [constructor|].
  destruct (index_of (fst kv)) eqn:E; [|exact IH].
  apply place_indexed; assumption.
Qed.

Lemma named_entries_named e : Forall named (named_entries e).
Proof.
  induction e as [|kv e IH]; simpl; [constructor|].
  destruct (index_of (fst kv)) eqn:E; [exact IH|].
  constructor; assumption.
Qed.

Lemma index_entries_named r : Forall named r -> index_entries r = [].
Proof.
  induction 1 as [|kv r Hkv _ IH]; simpl; [reflexivity|].
  unfold named in Hkv. rewrite Hkv. exact IH.
Qed.

Lemma named_entries_id r : Forall named r -> named_entries r = r.
Proof.
  induction 1 as [|kv r Hkv _ IH]; simpl; [reflexivity|].
  unfold named in Hkv. rewrite Hkv, IH. reflexivity.
Qed.

Lemma index_entries_listed l r :
  Forall indexed l -> ascending l -> Forall named r ->
  index_entries (map snd l ++ r) = l.
Proof.
  intros Hl Ha Hr. induction l as [|[n kv] l IH]; simpl.
  - apply index_entries_named, Hr.
  - inversion Hl as [|? ? Hn Hrest]; subst. unfold indexed in Hn. simpl in Hn.
    rewrite Hn. rewrite IH; [|exact Hrest|apply Ha].
    apply place_first, Ha.
Qed.

Lemma named_entries_listed l r :
  Forall indexed l -> Forall named r -> named_entries (map snd l ++ r) = r.
Proof.
  intros Hl Hr. induction l as [|[n kv] l IH]; simpl.
  - apply named_entries_id, Hr.
  - inversion Hl as [|? ? Hn Hrest]; subst. unfold indexed in Hn. simpl in Hn.
    rewrite Hn. apply IH, Hrest.
Qed.

(** Listing what [Object.entries] listed changes nothing. *)
Lemma entries_entries e : entries (entries e) = entries e.
Proof.
  unfold entries at 1 3.
  change (map snd (index_entries e) ++ named_entries e) with (entries e).
  unfold entries at 1 2.
  rewrite index_entries_listed, named_entries_listed;
    auto using index_entries_indexed, index_entries_ascending,
               named_entries_named.
Qed.

Lemma index_entries_app_named e kv :
  named kv -> index_entries (e ++ [kv]) = index_entries e.
Proof.
  intros Hkv. induction e as [|x e IH]; simpl.
  - unfold named in Hkv. rewrite Hkv. reflexivity.
  - rewrite IH. reflexivity.
Qed.

Lemma named_entries_app e kv :
  named kv -> named_entries (e ++ [kv]) = named_entries e ++ [kv].
Proof.
  intros Hkv. induction e as [|x e IH]; simpl.
  - unfold named in Hkv. rewrite Hkv. reflexivity.
  - rewrite IH. destruct (index_of (fst x)); reflexivity.
Qed.

(** *** Array indices: the decimal text of a number *)

Definition digit_of (c : ascii) : N := (N_of_ascii c - 48)%N.

Lemma digit_char c :
  is_digit c = true ->
  (digit_of c < 10)%N /\ pretty_N_char (digit_of c) = c
  /\ (c <> "0"%char -> (0 < digit_of c)%N).
Proof.
  destruct c as [[] [] [] [] [] [] [] []]; try discriminate; intros _;
    (split; [vm_compute; reflexivity|]);
    (split; [reflexivity|]); intros Hne; try (vm_compute; reflexivity);
    congruence.
Qed.

Lemma pretty_N_char_digit d :
  (d < 10)%N ->
  is_digit (pretty_N_char d) = true
  /\ ((0 < d)%N -> pretty_N_char d <> "0"%char).
Proof.
  intros Hd.
  assert (d = 0 \/ d = 1 \/ d = 2 \/ d = 3 \/ d = 4 \/ d = 5 \/ d = 6
          \/ d = 7 \/ d = 8 \/ d = 9)%N as Hc by lia.
  repeat (destruct Hc as [->|Hc]); try subst d;
    (split; [reflexivity|]); intros Hpos; try discriminate; lia.
Qed.

Lemma digits_value_le s acc n :
  digits_value s acc = Some n -> (acc <= n)%N.
Proof.
  revert acc. induction s as [|c s IH]; intros acc; simpl.
  - intros [= ->]. lia.
  - destruct (is_digit c); [|discriminate].
    intros E. apply IH in E. lia.
Qed.

(** The decimal text of the value of a string of digits is the string,
    when it does not start with a zero. *)
Lemma digits_value_pretty s acc n t :
  digits_value s acc = Some n ->
  (0 < acc)%N \/ s = "" \/ (exists c r, s = String c r /\ c <> "0"%char) ->
  pretty_N_go n t = pretty_N_go acc (s +:+ t).
Proof.
  revert acc t. induction s as [|c s IH]; intros acc t; simpl.
  - intros [= ->] _. rewrite JsFacts.append_nil_l. reflexivity.
  - destruct (is_digit c) eqn:Ed; [|discriminate].
    destruct (digit_char c Ed) as (Hlt & Hch & Hpos).
    fold (digit_of c). intros E Hstart.
    assert (Hx : (0 < acc * 10 + digit_of c)%N).
    { destruct Hstart as [Ha|[Hn|(c' & r & [= <- <-] & Hne)]];
        [lia|discriminate|]. specialize (Hpos Hne). lia. }
    rewrite (IH _ t E) by (left; exact Hx).
    rewrite (pretty_N_go_step (acc * 10 + digit_of c)) by exact Hx.
    rewrite JsFacts.append_cons.
    replace ((acc * 10 + digit_of c) `div` 10)%N with acc
      by (apply N.div_unique with (r := digit_of c); lia).
    replace ((acc * 10 + digit_of c) `mod` 10)%N with (digit_of c)
      by (apply N.mod_unique with (q := acc); lia).
    rewrite Hch. reflexivity.
Qed.

Fixpoint all_digits (s : string) : bool :=
  match s with
  | EmptyString => true
  | String c t => is_digit c && all_digits t
  end.

Lemma digits_value_some s acc :
  all_digits s = true -> exists n, digits_value s acc = Some n.
Proof.
  revert acc. induction s as [|c s IH]; intros acc; simpl.
  - intros _. exists acc. reflexivity.
  - intros [Hc Hs]%andb_prop. rewrite Hc. apply IH, Hs.
Qed.

(** The decimal text of a positive number: digits, and no zero first. *)
Lemma pretty_N_go_digits x t :
  (0 < x)%N -> all_digits t = true ->
  all_digits (pretty_N_go x t) = true
  /\ exists c r, pretty_N_go x t = String c r /\ c <> "0"%char.
Proof.
  revert t. induction (N.lt_wf_0 x) as [x _ IH]; intros t Hx Ht.
  rewrite pretty_N_go_step by exact Hx.
  destruct (pretty_N_char_digit (x `mod` 10)) as [Hd Hnz];
    [apply N.mod_lt; lia|].
  destruct (N.eq_0_gt_0_cases (x `div` 10)) as [Hq|Hq].
  - rewrite Hq, pretty_N_go_0. split; [simpl; rewrite Hd, Ht; reflexivity|].
    eexists _, _. split; [reflexivity|]. apply Hnz.
    pose proof (N.div_mod x 10). lia.
  - apply IH; [apply N.div_lt; lia|exact Hq|].
    simpl. rewrite Hd, Ht. reflexivity.
Qed.

(** A key is an array index exactly when it is the decimal text of a
    number below [2^32 - 1]. *)
Lemma index_of_spec key n :
  index_of key = Some n <-> key = pretty n /\ (n < 4294967295)%N.
Proof.
  split.
  - unfold index_of. destruct key as [|c t]; [discriminate|].
    destruct (Ascii.eqb_spec c "0"%char) as [->|Hc];
      destruct (String.eqb_spec t "") as [->|Ht]; cbn [andb negb];
      try discriminate.
    + change (digits_value "0" 0) with (Some 0%N). cbv beta iota.
      change (0 <? 4294967295)%N with true. cbv iota.
      intros [= <-]. split; reflexivity.
    + destruct (digits_value (String c "") 0) as [m|] eqn:E; [|discriminate].
      destruct (N.ltb_spec m 4294967295); [|discriminate].
      intros [= <-]. split; [|assumption].
      pose proof (digits_value_pretty _ _ _ "" E) as Hp.
      rewrite pretty_N_go_0, JsFacts.append_nil_r in Hp.
      unfold pretty, pretty_N. destruct (decide (m = 0%N)) as [->|_].
      * exfalso. simpl in E. destruct (is_digit c) eqn:Ed; [|discriminate].
        destruct (digit_char c Ed) as (_ & _ & Hpos).
        injection E as E. specialize (Hpos Hc). unfold digit_of in Hpos. lia.
      * symmetry. apply Hp. right. right. eauto.
    + destruct (digits_value (String c t) 0) as [m|] eqn:E; [|discriminate].
      destruct (N.ltb_spec m 4294967295); [|discriminate].
      intros [= <-]. split; [|assumption].
      pose proof (digits_value_pretty _ _ _ "" E) as Hp.
      rewrite pretty_N_go_0, JsFacts.append_nil_r in Hp.
      unfold pretty, pretty_N. destruct (decide (m = 0%N)) as [->|_].
      * exfalso. simpl in E. destruct (is_digit c) eqn:Ed; [|discriminate].
        destruct (digit_char c Ed) as (_ & _ & Hpos).
        apply digits_value_le in E. specialize (Hpos Hc).
        unfold digit_of in Hpos. lia.
      * symmetry. apply Hp. right. right. eauto.
  - intros [-> Hn]. unfold pretty, pretty_N.
    destruct (decide (n = 0%N)) as [->|Hne]; [reflexivity|].
    destruct (pretty_N_go_digits n "") as (Hall & c & r & Hs & Hc);
      [lia|reflexivity|].
    destruct (digits_value_some _ 0%N Hall) as [m Hm].
    assert (Hmn : m = n).
    { pose proof (digits_value_pretty _ _ _ "" Hm) as Hp.
      rewrite pretty_N_go_0, JsFacts.append_nil_r in Hp.
      assert (Hm0 : m <> 0%N).
      { intros ->. rewrite Hs in Hm. simpl in Hm.
        destruct (is_digit c) eqn:Ed; [|discriminate].
        destruct (digit_char c Ed) as (_ & _ & Hpos).
        apply digits_value_le in Hm. specialize (Hpos Hc).
        unfold digit_of in Hpos. lia. }
      apply (inj pretty). unfold pretty, pretty_N.
      destruct (decide (m = 0%N)); [contradiction|].
      destruct (decide (n = 0%N)); [contradiction|].
      apply Hp. right. right. eauto. }
    subst m. unfold index_of. rewrite Hs. rewrite <- Hs.
    destruct (Ascii.eqb_spec c "0"%char) as [->|_]; [contradiction|].
    cbn [andb]. rewrite Hm.
    destruct (N.ltb_spec n 4294967295); [reflexivity|lia].
Qed.

(** A new key that is no array index is listed last. *)
Lemma entries_set_new e key value :
  get e key = None -> index_of key = None ->
  entries (set key value e) = entries e ++ [(key, value)].
Proof.
  intros Hg Hi. rewrite (set_new_key e key value Hg). unfold entries.
  rewrite index_entries_app_named, named_entries_app by exact Hi.
  rewrite app_assoc. reflexivity.
Qed.

Lemma set_same e key value : get e key = Some value -> set key value e = e.
Proof.
  unfold get. induction e as [|[k v] e IH]; simpl; [discriminate|].
  destruct (String.eqb_spec k key) as [->|Hne].
  - intros [= ->]. reflexivity.
  - intros Hg. rewrite (IH Hg). reflexivity.
Qed.

(** The text of a well-formed object parses back to its bindings, in the
    order [Object.entries] wrote them. *)
Lemma parse_serialize e : well_formed e -> parse (serialize e) = entries e.
Proof.
  intros Hwf. destruct (entries_well_formed e Hwf) as [Hnd Hcl].
  unfold parse, serialize.
  destruct (entries e) as [|kv l]; [reflexivity|].
  cbn [map]. rewrite lines_join.
  - apply (fold_assign_lines (kv :: l) []); assumption.
  - change (line_of kv :: map line_of l) with (map line_of (kv :: l)).
    apply Forall_map. eapply Forall_impl; [exact Hcl|].
    intros x Hx. apply line_of_no_newline, Hx.
Qed.

(** It binds every key as the object does. *)
Lemma get_parse_serialize e key :
  well_formed e -> get (parse (serialize e)) key = get e key.
Proof.
  intros Hwf. rewrite parse_serialize by exact Hwf.
  apply get_entries, Hwf.
Qed.

End DotenvFacts.

Import DotenvFacts.

(** After [updateEnvFile], the file binds the key to the value, and binds
    every other key as before. *)
Lemma updateEnvFile_read_back filePath key value w :
  clean_key key -> clean_value value ->
  let w' := snd (updateEnvFile filePath key value w) in
  bound w' filePath key = Some value
  /\ forall other, other <> key ->
       bound w' filePath other = bound w filePath other.
Proof.
  intros Hk Hv. cbv zeta. rewrite updateEnvFile_run. unfold bound.
  cbn [snd files]. rewrite lookup_insert_eq. unfold updated.
  assert (Hwf : well_formed
                  (Dotenv.set key value
                     (Dotenv.parse (default "" (files w !! filePath)))))
    by (apply set_well_formed; [apply parse_well_formed|split; assumption]).
  rewrite !get_parse_serialize by exact Hwf.
  split; [apply get_set_same|].
  intros other Hne. rewrite get_parse_serialize by exact Hwf.
  rewrite get_set_other by exact Hne.
  destruct (files w !! filePath); reflexivity.
Qed.

(** The text [updateEnvFile] writes for a key that the file does not bind
    and that is no array index (not the decimal text of a number below
    [2^32 - 1]): the lines of the bindings there were, then the line of the
    new key. *)
Lemma updateEnvFile_appends filePath key value w :
  let old := Dotenv.parse (default "" (files w !! filePath)) in
  Dotenv.get old key = None ->
  (forall n : N, (n < 4294967295)%N -> key <> pretty n) ->
  files (snd (updateEnvFile filePath key value w)) !! filePath =
  Some (Dotenv.join
          (map Dotenv.line_of (Dotenv.entries old ++ [(key, value)]))).
Proof.
  cbv zeta. intros Hg Hi. rewrite updateEnvFile_run. cbn [snd files].
  rewrite lookup_insert_eq. unfold updated, Dotenv.serialize.
  rewrite entries_set_new; [reflexivity|exact Hg|].
  destruct (Dotenv.index_of key) as [n|] eqn:E; [|reflexivity].
  apply index_of_spec in E as [-> Hn]. destruct (Hi n Hn eq_refl).
Qed.

(** C5 (as amended).  Writing [FOO=bar] through [updateEnvFile] into an env
    file that is absent or empty, whatever the other files are, and reading
    [FOO] back
    through [getEnvFileValue] yields ["bar"].  Writing [BAZ=qux] next keeps
    [FOO=bar]: the file then holds the two lines [FOO=bar] and [BAZ=qux],
    in this order, both keys read back, and no other file has changed.  In
    general, on any file: when the key written is not empty and has no [=]
    and no line feed, and the value written has no line feed, the file then
    binds the key to the value and every other key as before; and a key
    that the file did not bind and that is no array index (not the decimal
    text of a number below [2^32 - 1]) gets the last line of the file,
    after the lines of the bindings there were. *)
Theorem C5_env_file_round_trip (filePath : string) (w : World) :
  files w !! filePath = None \/ files w !! filePath = Some "" ->
  let w1 := snd (updateEnvFile filePath "FOO" "bar" w) in
  let w2 := snd (getEnvFileValue filePath "FOO" w1) in
  let w3 := snd (updateEnvFile filePath "BAZ" "qux" w2) in
  fst (getEnvFileValue filePath "FOO" w1) = Some "bar"
  /\ files w1 !! filePath = Some "FOO=bar"
  /\ files w3 !! filePath = Some ("FOO=bar" +:+ String Js.newline "BAZ=qux")
  /\ fst (getEnvFileValue filePath "FOO" w3) = Some "bar"
  /\ fst (getEnvFileValue filePath "BAZ" w3) = Some "qux"
  /\ (forall other, other <> filePath -> files w3 !! other = files w !! other)
  /\ (forall key value (w0 : World),
        clean_key key -> clean_value value ->
        let w' := snd (updateEnvFile filePath key value w0) in
        fst (getEnvFileValue filePath key w') = Some value
        /\ forall other, other <> key ->
             fst (getEnvFileValue filePath other w')
             = fst (getEnvFileValue filePath other w0))
  /\ (forall key value (w0 : World),
        let old := Dotenv.parse (default "" (files w0 !! filePath)) in
        Dotenv.get old key = None ->
        (forall n : N, (n < 4294967295)%N -> key <> pretty n) ->
        files (snd (updateEnvFile filePath key value w0)) !! filePath =
        Some (Dotenv.join
                (map Dotenv.line_of (Dotenv.entries old ++ [(key, value)])))).
Proof.
  intros Hold. cbv zeta.
  split; [|split; [|split; [|split; [|split; [|split; [|split]]]]]].
  7: { intros key value w0 Hk Hv.
       destruct (updateEnvFile_read_back filePath key value w0 Hk Hv)
         as [Hsame Hothers].
       split.
       - rewrite getEnvFileValue_run. exact Hsame.
       - intros other Hne.
         rewrite (getEnvFileValue_run filePath other w0),
                 (getEnvFileValue_run filePath other).
         exact (Hothers other Hne). }
  7: { intros key value w0. apply updateEnvFile_appends. }
  all: rewrite !updateEnvFile_run, ?getEnvFileValue_run; cbn [fst snd files];
       rewrite ?updateEnvFile_run; cbn [fst snd files];
       rewrite ?lookup_insert_eq.
  all: assert (E1 : updated "FOO" "bar" (files w !! filePath) = "FOO=bar")
         by (destruct Hold as [-> | ->]; reflexivity).
  all: assert (E2 : updated "BAZ" "qux" (Some "FOO=bar")
                    = "FOO=bar" +:+ String Js.newline "BAZ=qux")
         by (vm_compute; reflexivity).
  all: rewrite ?E1, ?E2; try reflexivity.
  intros other Hne. rewrite !lookup_insert_ne by congruence. reflexivity.
Qed.

Lemma C5_env_file_round_trip_witness :
  let w := Sample.world {[ "apps/api/.env" := "KEY=2" ]} in
  let w1 := snd (updateEnvFile "svc.env" "FOO" "bar" w) in
  let w3 := snd (updateEnvFile "svc.env" "BAZ" "qux"
                   (snd (getEnvFileValue "svc.env" "FOO" w1))) in
  fst (getEnvFileValue "svc.env" "FOO" w1) = Some "bar"
  /\ files w3 !! "svc.env" = Some ("FOO=bar" +:+ String Js.newline "BAZ=qux")
  /\ files w3 !! "apps/api/.env" = Some "KEY=2".
Proof.
  cbv zeta.
  assert (Hold : files (Sample.world {[ "apps/api/.env" := "KEY=2" ]})
                   !! "svc.env" = None
                 \/ files (Sample.world {[ "apps/api/.env" := "KEY=2" ]})
                      !! "svc.env" = Some "")
    by (left; vm_compute; reflexivity).
  destruct (C5_env_file_round_trip "svc.env"
              (Sample.world {[ "apps/api/.env" := "KEY=2" ]}) Hold)
    as (H1 & _ & H3 & _ & _ & H6 & _).
  split; [exact H1|]. split; [exact H3|].
  rewrite (H6 "apps/api/.env") by discriminate.
  vm_compute. reflexivity.
Defined.

(** C5, where its general sentence fails.  The file holds [B=1].  Writing
    the new key [1] puts its line first, not last: [Object.entries] lists an
    array index before the other keys.  And writing the key [A] with a
    value of two lines, the second being [B=evil], changes what the file
    binds [B] to: the value is written as it is. *)
Lemma C5_general_law_counterexample :
  let w := Sample.world {[ "svc.env" := "B=1" ]} in
  let two_lines := "x" +:+ String Js.newline "B=evil" in
  Dotenv.get (Dotenv.parse "B=1") "1" = None
  /\ Dotenv.index_of "1" = Some 1%N
  /\ files (snd (updateEnvFile "svc.env" "1" "v" w)) !! "svc.env"
     = Some ("1=v" +:+ String Js.newline "B=1")
  /\ fst (getEnvFileValue "svc.env" "B" w) = Some "1"
  /\ fst (getEnvFileValue "svc.env" "B"
            (snd (updateEnvFile "svc.env" "A" two_lines w)))
     = Some "evil".
Proof. vm_compute. repeat split. Qed.

(** ** Reading and writing one project *)

Section OneProject.

Context (H : Host).

(** [path.join(projectDir, project.envFile)] *)
Definition env_path (projectDir : string) (project : Project.t) : string :=
  path_join H [projectDir; default "" (Project.envFile project)].

Lemma read_project_file_backed project variable projectDir w :
  Js.truthy (Project.envFile project) = true ->
  read_project H project variable projectDir w =
  (let value := bound w (env_path projectDir project)
                  (EnvVariable.name variable) in
   if Js.truthy value then value else None,
   after w [ReadFile (env_path projectDir project)]).
Proof.
  intros Ht. unfold read_project. rewrite Ht. unfold bind.
  rewrite getEnvFileValue_run. fold (env_path projectDir project).
  fold (bound w (env_path projectDir project) (EnvVariable.name variable)).
  cbv zeta.
  destruct (Js.truthy (bound w _ _)); reflexivity.
Qed.

Lemma updateProjectValue_file_backed project key value projectDir w :
  Js.truthy (Project.envFile project) = true ->
  updateProjectValue H project key value projectDir w =
  let path := env_path projectDir project in
  let content := updated key value (files w !! path) in
  (Some (path_relative H (process_cwd H) path),
   {| files := <[path := content]> (files w);
      events := events w ++ [ReadFile path; WriteFile path content] |}).
Proof.
  intros Ht. unfold updateProjectValue. rewrite Ht. unfold bind.
  rewrite updateEnvFile_run. reflexivity.
Qed.

(** A value that the lookup returns is never the empty string. *)
Lemma read_project_truthy project variable projectDir w value :
  fst (read_project H project variable projectDir w) = Some value ->
  Js.truthy_string value = true.
Proof.
  unfold read_project, import_value, bind.
  destruct (Js.truthy (Project.envFile project)).
  - destruct (getEnvFileValue _ _ w) as [v w1].
    destruct (Js.truthy v) eqn:E; simpl; [|discriminate].
    intros ->. exact E.
  - destruct (Js.truthy (Project.importCommand project)); [|discriminate].
    destruct (execSync H _ _ w) as [[out|msg] w1]; simpl; [|discriminate].
    destruct (Js.truthy_string (string_trim H out)) eqn:E; simpl;
      [|discriminate].
    intros [= <-]. exact E.
Qed.

End OneProject.

(** C8.  For a project with an env-file path, whatever command templates it
    has besides, reading goes to the env file alone and writing goes to the
    env file alone: the lookup adds one read of that file to the events, the
    write adds one read and one write of it, and neither runs a command. *)
Theorem C8_file_strategy_exclusive (H : Host) (project : Project.t)
    (variable : EnvVariable.t) (key value projectDir envFile : string)
    (w : World) :
  Project.envFile project = Some envFile -> envFile <> "" ->
  let path := path_join H [projectDir; envFile] in
  let content := updated key value (files w !! path) in
  read_project H project variable projectDir w =
    (let found := bound w path (EnvVariable.name variable) in
     if Js.truthy found then found else None,
     after w [ReadFile path])
  /\ updateProjectValue H project key value projectDir w =
       (Some (path_relative H (process_cwd H) path),
        {| files := <[path := content]> (files w);
           events := events w ++ [ReadFile path; WriteFile path content] |})
  /\ Forall (fun e => ~ is_exec e)
       [ReadFile path; ReadFile path; WriteFile path content].
Proof.
  intros He Hne.
  assert (Ht : Js.truthy (Project.envFile project) = true).
  { rewrite He. destruct envFile; [congruence|reflexivity]. }
  cbv zeta. split; [|split].
  - rewrite read_project_file_backed by exact Ht.
    unfold env_path. rewrite He. reflexivity.
  - rewrite updateProjectValue_file_backed by exact Ht.
    unfold env_path. rewrite He. reflexivity.
  - repeat constructor; simpl; tauto.
Qed.

Lemma C8_file_strategy_exclusive_witness :
  let w := Sample.world {[ "/p/both.env" := "KEY=1" ]} in
  read_project Sample.quiet Sample.both
    (Sample.variable "KEY" ["both"] None None None) "/p" w
  = (Some "1", after w [ReadFile "/p/both.env"])
  /\ events (snd (updateProjectValue Sample.quiet Sample.both "KEY" "2" "/p" w))
     = [ReadFile "/p/both.env"; WriteFile "/p/both.env" "KEY=2"].
Proof.
  destruct (C8_file_strategy_exclusive Sample.quiet Sample.both
              (Sample.variable "KEY" ["both"] None None None)
              "KEY" "2" "/p" "both.env"
              (Sample.world {[ "/p/both.env" := "KEY=1" ]}))
    as (Hr & Hu & _).
  - reflexivity.
  - discriminate.
  - split.
    + rewrite Hr. vm_compute. reflexivity.
    + rewrite Hu. vm_compute. reflexivity.
Defined.

(** ** The lookup of an existing value *)

Section Lookup.

Context (H : Host).
Variable projects : list Project.t.
Variable variable : EnvVariable.t.
Variable projectDir : string.

#[local] Abbreviation loop :=
  (getExistingValue_loop H projects variable projectDir).

(** The loop over [before ++ rest], when nothing is found in [before]. *)
Lemma loop_app_none before rest w w1 :
  loop before w = (None, w1) ->
  loop (before ++ rest) w = loop rest w1.
Proof.
  revert w. induction before as [|pid before IH]; intros w; simpl.
  - intros [= <-]. reflexivity.
  - destruct (find_project projects pid) as [p|]; [|apply IH].
    unfold bind. destruct (read_project H p variable projectDir w) as [[v|] w'].
    + discriminate.
    + apply IH.
Qed.

(** The loop over [before ++ rest], when something is found in [before]. *)
Lemma loop_app_some before rest w w1 value :
  loop before w = (Some value, w1) ->
  loop (before ++ rest) w = (Some value, w1).
Proof.
  revert w. induction before as [|pid before IH]; intros w; simpl.
  - discriminate.
  - destruct (find_project projects pid) as [p|]; [|apply IH].
    unfold bind. destruct (read_project H p variable projectDir w) as [[v|] w'].
    + intros E. exact E.
    + apply IH.
Qed.

Lemma loop_hit pid rest p w value w1 :
  find_project projects pid = Some p ->
  read_project H p variable projectDir w = (Some value, w1) ->
  loop (pid :: rest) w = (Some value, w1).
Proof. intros Hf Hr. simpl. rewrite Hf. unfold bind. rewrite Hr. reflexivity. Qed.

Lemma loop_miss pid rest p w w1 :
  find_project projects pid = Some p ->
  read_project H p variable projectDir w = (None, w1) ->
  loop (pid :: rest) w = loop rest w1.
Proof. intros Hf Hr. simpl. rewrite Hf. unfold bind. rewrite Hr. reflexivity. Qed.

Lemma loop_unknown pid rest w :
  find_project projects pid = None ->
  loop (pid :: rest) w = loop rest w.
Proof. intros Hf. simpl. rewrite Hf. reflexivity. Qed.

(** A value the loop returns comes from the first listed project that has
    one. *)
Lemma loop_some_inv ids w value w2 :
  loop ids w = (Some value, w2) ->
  exists before pid rest p w1,
    ids = before ++ pid :: rest
    /\ loop before w = (None, w1)
    /\ find_project projects pid = Some p
    /\ read_project H p variable projectDir w1 = (Some value, w2).
Proof.
  revert w. induction ids as [|pid ids IH]; intros w; simpl; [discriminate|].
  destruct (find_project projects pid) as [p|] eqn:Hf.
  - unfold bind.
    destruct (read_project H p variable projectDir w) as [[v|] w'] eqn:Hr.
    + intros [= -> ->]. exists [], pid, ids, p, w. auto.
    + intros E. destruct (IH _ E) as (b & q & r & p' & w1 & -> & Hb & Hq & Hp).
      exists (pid :: b), q, r, p', w1. repeat split; try assumption.
      simpl. rewrite Hf. unfold bind. rewrite Hr. exact Hb.
  - intros E. destruct (IH _ E) as (b & q & r & p' & w1 & -> & Hb & Hq & Hp).
    exists (pid :: b), q, r, p', w1. repeat split; try assumption.
    simpl. rewrite Hf. exact Hb.
Qed.

End Lookup.

(** ** The lookup as the specification words it

    Section 4.3 of the specification: iterate the project identifiers of the
    variable in their declared order; for each, resolve the project record
    of that identifier, read through its adapter, and return the first
    present value.  Section 4.1: the read of a file-backed project parses
    its env file and looks the name up; the read of a command-backed project
    runs the import template with the name filled in, under the backend
    directory, and takes the trimmed standard output; an empty value is no
    value.  The definitions of this module follow these words, not the
    source; the source is compared with them below. *)

Module AsSpecified.

(** The project an identifier names: the first project of the
    configuration that has the identifier. *)
Fixpoint resolve (projects : list Project.t) (projectId : string)
  : option Project.t :=
  match projects with
  | [] => None
  | p :: rest =>
      if decide (Project.id p = projectId) then Some p
      else resolve rest projectId
  end.

(** A value that is there: defined and not empty. *)
Definition present (v : option string) : option string :=
  match v with
  | Some (String c s) => Some (String c s)
  | _ => None
  end.

(** How the value of a project is read. *)
Inductive Strategy :=
| FileBacked (envFile : string)
| CommandBacked (importCommand : string)
| NoRead.

(** The env file decides when there is one; the import command is the
    other way. *)
Definition strategy (p : Project.t) : Strategy :=
  match Project.envFile p with
  | Some (String c s) => FileBacked (String c s)
  | _ =>
      match Project.importCommand p with
      | Some (String c s) => CommandBacked (String c s)
      | _ => NoRead
      end
  end.

Section Read.

Context (H : Host).

(** The read of the adapter of one project. *)
Definition adapter_read (p : Project.t) (name projectDir : string)
  : M (option string) :=
  fun w =>
    match strategy p with
    | FileBacked envFile =>
        let path := path_join H [projectDir; envFile] in
        (present (bound w path name),
         {| files := files w; events := events w ++ [ReadFile path] |})
    | CommandBacked template =>
        let command := string_replace H template "{{name}}" name in
        let cwd := path_join H [projectDir; "packages"; "backend"] in
        match run_command H command cwd (files w) with
        | (ExecReturned stdout, fs) =>
            (present (Some (string_trim H stdout)),
             {| files := fs; events := events w ++ [Exec command cwd] |})
        | (ExecThrew message, fs) =>
            (None,
             {| files := fs;
                events := events w ++
                          [Exec command cwd;
                           ConsoleError (chalk H Red ("Error: " +:+ message))]
             |})
        end
    | NoRead => (None, w)
    end.

(** The first present value among the projects the identifiers name. *)
Fixpoint first_present (projects : list Project.t)
    (name projectDir : string) (ids : list string) : M (option string) :=
  fun w =>
    match ids with
    | [] => (None, w)
    | projectId :: rest =>
        match resolve projects projectId with
        | None => first_present projects name projectDir rest w
        | Some p =>
            match adapter_read p name projectDir w with
            | (Some value, w') => (Some value, w')
            | (None, w') => first_present projects name projectDir rest w'
            end
        end
    end.

End Read.

End AsSpecified.

Section LookupAsSpecified.

Context (H : Host).

Lemma find_project_resolve projects projectId :
  find_project projects projectId = AsSpecified.resolve projects projectId.
Proof.
  unfold find_project. induction projects as [|p rest IH]; simpl;
    [reflexivity|].
  destruct (String.eqb_spec (Project.id p) projectId) as [E|E];
    destruct (decide (Project.id p = projectId)); congruence.
Qed.

Lemma resolve_some projects projectId p :
  AsSpecified.resolve projects projectId = Some p ->
  Project.id p = projectId /\ In p projects.
Proof.
  induction projects as [|q rest IH]; simpl; [discriminate|].
  destruct (decide (Project.id q = projectId)) as [E|E].
  - intros [= <-]. split; [exact E|left; reflexivity].
  - intros Hr. destruct (IH Hr). split; [assumption|right; assumption].
Qed.

Lemma resolve_none projects projectId :
  (forall p, In p projects -> Project.id p <> projectId) ->
  AsSpecified.resolve projects projectId = None.
Proof.
  induction projects as [|q rest IH]; simpl; intros Hall; [reflexivity|].
  destruct (decide (Project.id q = projectId)) as [E|E].
  - exfalso. apply (Hall q); [left; reflexivity|exact E].
  - apply IH. intros p Hp. apply Hall. right. exact Hp.
Qed.

Lemma present_truthy v :
  AsSpecified.present v = if Js.truthy v then v else None.
Proof. destruct v as [[|c s]|]; reflexivity. Qed.

Lemma present_some v value :
  AsSpecified.present v = Some value -> v = Some value /\ value <> "".
Proof.
  destruct v as [[|c s]|]; simpl; try discriminate.
  intros [= <-]. split; [reflexivity|discriminate].
Qed.

Lemma read_project_adapter_read p variable projectDir w :
  read_project H p variable projectDir w =
  AsSpecified.adapter_read H p (EnvVariable.name variable) projectDir w.
Proof.
  unfold read_project, AsSpecified.adapter_read, AsSpecified.strategy.
  destruct (Project.envFile p) as [[|c s]|]; simpl.
  2: { unfold bind. rewrite getEnvFileValue_run. rewrite present_truthy.
       unfold bound. destruct (Js.truthy _); reflexivity. }
  all: destruct (Project.importCommand p) as [[|c s]|]; simpl;
       try reflexivity.
  all: unfold import_value, bind, execSync, backend_dir;
       destruct (run_command H _ _ (files w)) as [[out|message] fs];
       [unfold AsSpecified.present, ret; simpl;
        destruct (string_trim H out); reflexivity
       |unfold console_error, emit, ret; simpl;
        rewrite <- app_assoc; reflexivity].
Qed.

Lemma loop_first_present projects variable projectDir ids w :
  getExistingValue_loop H projects variable projectDir ids w =
  AsSpecified.first_present H projects (EnvVariable.name variable)
    projectDir ids w.
Proof.
  revert w. induction ids as [|pid ids IH]; intros w; simpl; [reflexivity|].
  rewrite find_project_resolve.
  destruct (AsSpecified.resolve projects pid) as [p|]; [|apply IH].
  unfold bind. rewrite read_project_adapter_read.
  destruct (AsSpecified.adapter_read H p _ projectDir w) as [[v|] w'];
    [reflexivity|apply IH].
Qed.

Lemma adapter_read_value p name projectDir w value w' :
  AsSpecified.adapter_read H p name projectDir w = (Some value, w') ->
  value <> "".
Proof.
  unfold AsSpecified.adapter_read.
  destruct (AsSpecified.strategy p) as [envFile|template|].
  - intros [= Hv _]. apply present_some in Hv. apply Hv.
  - destruct (run_command H _ _ (files w)) as [[out|message] fs];
      [|discriminate].
    intros E.
    assert (Hv : AsSpecified.present (Some (string_trim H out)) = Some value)
      by (injection E as E _; exact E).
    apply present_some in Hv. apply Hv.
  - discriminate.
Qed.

(** Identifiers that name no project, or a file-backed project whose env
    file holds no value for the name: nothing is found, and the lookup only
    read those files. *)
Lemma loop_files_without_value projects variable projectDir ids w :
  (forall pid p, In pid ids -> AsSpecified.resolve projects pid = Some p ->
     exists envFile,
       Project.envFile p = Some envFile /\ envFile <> ""
       /\ AsSpecified.present
            (bound w (path_join H [projectDir; envFile])
               (EnvVariable.name variable)) = None) ->
  exists new,
    getExistingValue_loop H projects variable projectDir ids w
    = (None, after w new)
    /\ Forall (fun e => exists path, e = ReadFile path) new.
Proof.
  intros Hall.
  assert (G : forall done,
            Forall (fun e => exists path, e = ReadFile path) done ->
            exists new,
              getExistingValue_loop H projects variable projectDir ids
                (after w done) = (None, after w new)
              /\ Forall (fun e => exists path, e = ReadFile path) new).
  { induction ids as [|pid ids IH]; intros done Hdone; simpl.
    - exists done. split; [reflexivity|exact Hdone].
    - rewrite find_project_resolve.
      destruct (AsSpecified.resolve projects pid) as [p|] eqn:Hr.
      + destruct (Hall pid p (or_introl eq_refl) Hr)
          as (envFile & He & Hne & Hp).
        unfold bind. rewrite read_project_adapter_read.
        unfold AsSpecified.adapter_read, AsSpecified.strategy.
        rewrite He. destruct envFile as [|c s]; [congruence|].
        change (bound (after w done) ?a ?b) with (bound w a b).
        rewrite Hp.
        destruct (IH (fun q p' Hq => Hall q p' (or_intror Hq))
                    (done ++ [ReadFile (path_join H [projectDir; String c s])]))
          as (new & Hnew & Hreads).
        { apply Forall_app. split; [exact Hdone|].
          repeat constructor. eexists. reflexivity. }
        exists new. split; [|exact Hreads].
        rewrite <- Hnew. unfold after. simpl. rewrite <- app_assoc.
        reflexivity.
      + apply (IH (fun q p' Hq => Hall q p' (or_intror Hq)) done Hdone). }
  destruct (G [] (Forall_nil_2 _)) as (new & Hnew & Hreads).
  exists new. split; [|exact Hreads].
  rewrite <- Hnew. unfold after. rewrite app_nil_r. destruct w; reflexivity.
Qed.

End LookupAsSpecified.

(** A host whose commands print [out], and whose [trim] takes the spaces
    off both ends. *)
Fixpoint drop_spaces (s : string) : string :=
  match s with
  | String c t => if Ascii.eqb c " "%char then drop_spaces t else s
  | EmptyString => EmptyString
  end.

Definition trim_spaces (s : string) : string :=
  String.rev (drop_spaces (String.rev (drop_spaces s))).

Definition printing (out : string) : Host :=
  {| path_join := Sample.join_path;
     path_relative := fun _ to => to;
     process_cwd := "/work";
     run_command := fun _ _ fs => (ExecReturned out, fs);
     string_replace := Sample.replace_first;
     string_trim := trim_spaces;
     JSON_parse := Sample.parse_json;
     read_error := fun p => "ENOENT: no such file or directory, open " +:+ p;
     chalk := fun _ s => s;
     boxen := fun s => s;
     answer_confirm := fun _ _ => true;
     answer_input := fun _ _ default => Sample.accept_default default |}.

(** C3.  The lookup visits the project identifiers of the variable in the
    order they are listed and returns the first present value.  If the
    identifiers [before] give nothing, the identifier [pid] names the
    project [p] and the read of [p] gives [value], then the lookup over
    [before ++ pid :: later] returns [value], which is not empty, in the
    world as the read of [p] left it, whatever identifiers come later: the
    projects listed later are not read and cannot change the result.  Here
    an identifier names the first project of the configuration that has it,
    and a read is the read of the env file, or of the import command where
    there is no env file, as the specification words them; the lookup of
    the source is, on every list and in every world, the lookup so worded.
    Absence yields [undefined] and no error: identifiers that name no
    project leave the world untouched, and listed projects whose env files
    hold no value for the name are read, each file once, and nothing
    else happens. *)
Theorem C3_first_present_value (H : Host) (projects : list Project.t)
    (variable : EnvVariable.t) (projectDir : string)
    (before later : list string) (pid : string) (p : Project.t)
    (value : string) (w w1 w2 : World) :
  EnvVariable.projects variable = before ++ pid :: later ->
  AsSpecified.first_present H projects (EnvVariable.name variable)
    projectDir before w = (None, w1) ->
  AsSpecified.resolve projects pid = Some p ->
  AsSpecified.adapter_read H p (EnvVariable.name variable) projectDir w1
    = (Some value, w2) ->
  getExistingValue H projects variable projectDir w = (Some value, w2)
  /\ value <> ""
  /\ (Project.id p = pid /\ In p projects)
  /\ (forall later',
        getExistingValue_loop H projects variable projectDir
          (before ++ pid :: later') w = (Some value, w2))
  /\ (forall ids w0,
        getExistingValue_loop H projects variable projectDir ids w0
        = AsSpecified.first_present H projects (EnvVariable.name variable)
            projectDir ids w0)
  /\ (forall ids w0,
        (forall q p', In q ids -> In p' projects -> Project.id p' <> q) ->
        getExistingValue_loop H projects variable projectDir ids w0
        = (None, w0))
  /\ (forall ids w0,
        (forall q p', In q ids ->
           AsSpecified.resolve projects q = Some p' ->
           exists envFile,
             Project.envFile p' = Some envFile /\ envFile <> ""
             /\ AsSpecified.present
                  (bound w0 (path_join H [projectDir; envFile])
                     (EnvVariable.name variable)) = None) ->
        exists new,
          getExistingValue_loop H projects variable projectDir ids w0
          = (None, after w0 new)
          /\ Forall (fun e => exists path, e = ReadFile path) new).
Proof.
  intros Hids Hb Hf Hr.
  assert (Hhit : forall later',
            getExistingValue_loop H projects variable projectDir
              (before ++ pid :: later') w = (Some value, w2)).
  { intros later'.
    rewrite (loop_app_none H projects variable projectDir before _ w w1)
      by (rewrite loop_first_present; exact Hb).
    apply (loop_hit H projects variable projectDir pid later' p).
    - rewrite find_project_resolve. exact Hf.
    - rewrite read_project_adapter_read. exact Hr. }
  split; [|split; [|split; [|split; [|split; [|split]]]]].
  - unfold getExistingValue. rewrite Hids. apply Hhit.
  - eapply adapter_read_value. exact Hr.
  - eapply resolve_some. exact Hf.
  - exact Hhit.
  - intros ids w0. apply loop_first_present.
  - intros ids w0 Hall. revert w0.
    induction ids as [|q ids IH]; intros w0; simpl; [reflexivity|].
    rewrite find_project_resolve, resolve_none.
    + apply IH. intros q' p' Hq. apply Hall. right. exact Hq.
    + intros p' Hp. apply (Hall q p'); [left; reflexivity|exact Hp].
  - intros ids w0. apply loop_files_without_value.
Qed.

(** The variable lists [ghost], [backend], [api] and [web], in this order;
    the configuration declares [web], [api] and [backend].  No project is
    called [ghost]; the import command of [backend] prints spaces only;
    the env file of [api] holds [KEY=2] and that of [web] holds [KEY=1].
    The lookup runs the command, reads the file of [api], yields ["2"] and
    never reads the file of [web].  Where the command prints a value
    between spaces, the lookup yields the value without them and reads no
    file.  Identifiers that name no project give [undefined] and leave the
    world as it is; and where the env files of [api] and [web] hold no value
    for the key, the lookup over these two gives [undefined] after reading
    files and nothing else. *)
Lemma C3_first_present_value_witness :
  let w := Sample.world {[ "/p/apps/web/.env" := "KEY=1";
                           "/p/apps/api/.env" := "KEY=2" ]} in
  let others := Sample.world {[ "/p/apps/web/.env" := "A=1";
                                "/p/apps/api/.env" := "KEY=" ]} in
  let projects := [Sample.web; Sample.api; Sample.backend] in
  let variable :=
    Sample.variable "KEY" ["ghost"; "backend"; "api"; "web"] None None None in
  (getExistingValue (printing "  ") projects variable "/p" w
   = (Some "2",
      after w [Exec "npx convex env get KEY" "/p/packages/backend";
               ReadFile "/p/apps/api/.env"])
   /\ getExistingValue_loop (printing "  ") projects variable "/p"
        ["ghost"; "nobody"] w = (None, w)
   /\ exists new,
        getExistingValue_loop (printing "  ") projects variable "/p"
          ["api"; "web"] others = (None, after others new)
        /\ Forall (fun e => exists path, e = ReadFile path) new)
  /\ getExistingValue (printing "  from the backend ") projects
       (Sample.variable "KEY" ["backend"; "web"] None None None) "/p" w
     = (Some "from the backend",
        after w [Exec "npx convex env get KEY" "/p/packages/backend"]).
Proof.
  cbv zeta. split.
  - destruct (C3_first_present_value (printing "  ")
                [Sample.web; Sample.api; Sample.backend]
                (Sample.variable "KEY" ["ghost"; "backend"; "api"; "web"]
                   None None None)
                "/p" ["ghost"; "backend"] ["web"] "api" Sample.api "2"
                (Sample.world {[ "/p/apps/web/.env" := "KEY=1";
                                 "/p/apps/api/.env" := "KEY=2" ]})
                (after (Sample.world {[ "/p/apps/web/.env" := "KEY=1";
                                        "/p/apps/api/.env" := "KEY=2" ]})
                   [Exec "npx convex env get KEY" "/p/packages/backend"])
                (after (Sample.world {[ "/p/apps/web/.env" := "KEY=1";
                                        "/p/apps/api/.env" := "KEY=2" ]})
                   [Exec "npx convex env get KEY" "/p/packages/backend";
                    ReadFile "/p/apps/api/.env"]))
      as (Hfound & _ & _ & _ & _ & Hnone & Hfiles).
    + reflexivity.
    + vm_compute. reflexivity.
    + reflexivity.
    + vm_compute. reflexivity.
    + split; [exact Hfound|]. split.
      * apply Hnone.
        intros q p' [<-|[<-|[]]] [<-|[<-|[<-|[]]]]; discriminate.
      * apply Hfiles.
        intros q p' [<-|[<-|[]]]; intros [= <-];
          [exists "apps/api/.env"|exists "apps/web/.env"];
          (split; [reflexivity|]); (split; [discriminate|]);
          vm_compute; reflexivity.
  - destruct (C3_first_present_value (printing "  from the backend ")
                [Sample.web; Sample.api; Sample.backend]
                (Sample.variable "KEY" ["backend"; "web"] None None None)
                "/p" [] ["web"] "backend" Sample.backend "from the backend"
                (Sample.world {[ "/p/apps/web/.env" := "KEY=1";
                                 "/p/apps/api/.env" := "KEY=2" ]})
                (Sample.world {[ "/p/apps/web/.env" := "KEY=1";
                                 "/p/apps/api/.env" := "KEY=2" ]})
                (after (Sample.world {[ "/p/apps/web/.env" := "KEY=1";
                                        "/p/apps/api/.env" := "KEY=2" ]})
                   [Exec "npx convex env get KEY" "/p/packages/backend"]))
      as (Hfound & _).
    + reflexivity.
    + reflexivity.
    + reflexivity.
    + vm_compute. reflexivity.
    + exact Hfound.
Defined.

(** ** Writing to the projects of a variable *)

Section FanOut.

Context (H : Host).
Variable config : SetupConfig.t.
Variable variable : EnvVariable.t.
Variable value projectDir : string.

#[local] Abbreviation write :=
  (write_projects H config variable value projectDir).

Lemma write_unknown pid rest acc w :
  find_project (SetupConfig.projects config) pid = None ->
  write (pid :: rest) acc w = write rest acc w.
Proof. intros Hf. simpl. rewrite Hf. reflexivity. Qed.

(** An identifier without a project drops out of the loop, wherever it
    stands in the list. *)
Lemma write_skips_unknown before pid rest acc w :
  find_project (SetupConfig.projects config) pid = None ->
  write (before ++ pid :: rest) acc w = write (before ++ rest) acc w.
Proof.
  intros Hf. revert acc w.
  induction before as [|q before IH]; intros acc w.
  - apply write_unknown, Hf.
  - simpl. destruct (find_project _ q) as [p|]; [|apply IH].
    unfold bind. destruct (updateProjectValue H p _ value projectDir w).
    apply IH.
Qed.

End FanOut.

Section LookupSkips.

Context (H : Host).
Variable projects : list Project.t.
Variable variable : EnvVariable.t.
Variable projectDir : string.

Lemma loop_skips_unknown before pid rest w :
  find_project projects pid = None ->
  getExistingValue_loop H projects variable projectDir
    (before ++ pid :: rest) w =
  getExistingValue_loop H projects variable projectDir (before ++ rest) w.
Proof.
  intros Hf. revert w. induction before as [|q before IH]; intros w.
  - apply loop_unknown, Hf.
  - simpl. destruct (find_project projects q) as [p|]; [|apply IH].
    unfold bind. destruct (read_project H p variable projectDir w) as [[v|] w'].
    + reflexivity.
    + apply IH.
Qed.

End LookupSkips.

(** C9.  A project identifier listed by a variable that matches no project
    of the configuration is passed over by the lookup and by the writing
    loop alike: each behaves, in result, files and events, as if the
    identifier were not listed.  Nothing is raised, nothing is read or
    written for it, and the other identifiers are processed as usual. *)
Theorem C9_unknown_project_skipped (H : Host) (config : SetupConfig.t)
    (variable : EnvVariable.t) (value projectDir : string)
    (before later : list string) (pid : string) (updatedFiles : list string)
    (w : World) :
  find_project (SetupConfig.projects config) pid = None ->
  getExistingValue_loop H (SetupConfig.projects config) variable projectDir
    (before ++ pid :: later) w
  = getExistingValue_loop H (SetupConfig.projects config) variable projectDir
      (before ++ later) w
  /\ write_projects H config variable value projectDir
       (before ++ pid :: later) updatedFiles w
     = write_projects H config variable value projectDir
         (before ++ later) updatedFiles w.
Proof.
  intros Hf. split.
  - apply loop_skips_unknown, Hf.
  - apply write_skips_unknown, Hf.
Qed.

Lemma C9_unknown_project_skipped_witness :
  let w := Sample.world {[ "/p/apps/api/.env" := "KEY=2" ]} in
  let config := Sample.config [Sample.web; Sample.api] [] in
  let variable := Sample.variable "KEY" ["web"; "ghost"; "api"] None None None in
  getExistingValue Sample.quiet (SetupConfig.projects config) variable "/p" w
  = (Some "2",
     after w [ReadFile "/p/apps/web/.env"; ReadFile "/p/apps/api/.env"])
  /\ events (snd (write_projects Sample.quiet config variable "v" "/p"
                    ["web"; "ghost"; "api"] [] w))
     = [ReadFile "/p/apps/web/.env"; WriteFile "/p/apps/web/.env" "KEY=v";
        ReadFile "/p/apps/api/.env"; WriteFile "/p/apps/api/.env" "KEY=v"].
Proof.
  destruct (C9_unknown_project_skipped Sample.quiet
              (Sample.config [Sample.web; Sample.api] [])
              (Sample.variable "KEY" ["web"; "ghost"; "api"] None None None)
              "v" "/p" ["web"] ["api"] "ghost" []
              (Sample.world {[ "/p/apps/api/.env" := "KEY=2" ]}))
    as [Hl Hw].
  - reflexivity.
  - cbn [app] in Hl, Hw. cbv zeta. split.
    + unfold getExistingValue. cbn [EnvVariable.projects Sample.variable].
      rewrite Hl. vm_compute. reflexivity.
    + rewrite Hw. vm_compute. reflexivity.
Defined.

(** C10.  When the env file of a file-backed project binds the key that is
    looked up to the empty string, the lookup does not return the empty
    string: the project counts as having no value, and the lookup goes on
    with the identifiers listed after it.  When these have no value either,
    the lookup yields [undefined] and the default is computed from the
    template or the static default. *)
Theorem C10_empty_binding_is_absent (H : Host) (projects : list Project.t)
    (variable : EnvVariable.t) (values : Values.t)
    (projectDir envFile : string) (pid : string) (p : Project.t)
    (later : list string) (w : World) :
  find_project projects pid = Some p ->
  Project.envFile p = Some envFile -> envFile <> "" ->
  bound w (path_join H [projectDir; envFile]) (EnvVariable.name variable)
    = Some "" ->
  let w1 := after w [ReadFile (path_join H [projectDir; envFile])] in
  read_project H p variable projectDir w = (None, w1)
  /\ getExistingValue_loop H projects variable projectDir (pid :: later) w
     = getExistingValue_loop H projects variable projectDir later w1
  /\ (fst (getExistingValue_loop H projects variable projectDir later w1)
        = None ->
      fst (getExistingValue_loop H projects variable projectDir
             (pid :: later) w) = None
      /\ computeDefault values variable None =
           if Js.truthy (EnvVariable.template variable)
           then Some (render_template values
                        (default "" (EnvVariable.template variable)))
           else EnvVariable.defaultValue variable).
Proof.
  intros Hf He Hne Hb.
  assert (Ht : Js.truthy (Project.envFile p) = true).
  { rewrite He. destruct envFile; [congruence|reflexivity]. }
  assert (Hr : read_project H p variable projectDir w =
               (None, after w [ReadFile (path_join H [projectDir; envFile])])).
  { rewrite read_project_file_backed by exact Ht.
    unfold env_path. rewrite He.
    change (default "" (Some envFile)) with envFile.
    cbv zeta. rewrite Hb. reflexivity. }
  cbv zeta. split; [exact Hr|]. split.
  - apply (loop_miss H projects variable projectDir pid later p); assumption.
  - intros Hn.
    rewrite (loop_miss H projects variable projectDir pid later p w _ Hf Hr).
    split; [exact Hn|reflexivity].
Qed.

Lemma C10_empty_binding_is_absent_witness :
  let w := Sample.world {[ "/p/apps/web/.env" := "KEY=";
                           "/p/apps/api/.env" := "KEY=2" ]} in
  Dotenv.get (Dotenv.parse "KEY=") "KEY" = Some ""
  /\ getExistingValue Sample.quiet [Sample.web; Sample.api]
       (Sample.variable "KEY" ["web"; "api"] None None None) "/p" w
     = (Some "2",
        after w [ReadFile "/p/apps/web/.env"; ReadFile "/p/apps/api/.env"]).
Proof.
  destruct (C10_empty_binding_is_absent Sample.quiet [Sample.web; Sample.api]
              (Sample.variable "KEY" ["web"; "api"] None None None)
              Sample.values "/p" "apps/web/.env" "web" Sample.web ["api"]
              (Sample.world {[ "/p/apps/web/.env" := "KEY=";
                               "/p/apps/api/.env" := "KEY=2" ]}))
    as (_ & Hl & _).
  - reflexivity.
  - reflexivity.
  - discriminate.
  - vm_compute. reflexivity.
  - cbv zeta. split; [vm_compute; reflexivity|].
    unfold getExistingValue. cbn [EnvVariable.projects Sample.variable].
    rewrite Hl. vm_compute. reflexivity.
Defined.

(** ** Accepting and writing a value *)

Section Acceptance.

Context (H : Host).
Variable config : SetupConfig.t.
Variable variable : EnvVariable.t.
Variable value projectDir : string.

(** The command [updateProjectValue] runs for a command-backed project. *)
Definition export_command (project : Project.t) : string :=
  string_replace H
    (string_replace H (default "" (Project.exportCommand project))
       "{{name}}" (EnvVariable.name variable))
    "{{value}}" value.

(** What writing to one project shows in the events: a write of its env
    file when it has one, else a run of its export command when it has
    one. *)
Definition attempted (project : Project.t) (new : list Event) : Prop :=
  (Js.truthy (Project.envFile project) = true ->
   exists content,
     In (WriteFile (env_path H projectDir project) content) new)
  /\ (Js.truthy (Project.envFile project) = false ->
      Js.truthy (Project.exportCommand project) = true ->
      In (Exec (export_command project) (backend_dir H projectDir)) new).

Lemma attempted_app_l project n1 n2 :
  attempted project n1 -> attempted project (n1 ++ n2).
Proof.
  intros [Hf Hc]. split.
  - intros Ht. destruct (Hf Ht) as [c Hin]. exists c.
    apply in_or_app. left. exact Hin.
  - intros Ht He. apply in_or_app. left. auto.
Qed.

Lemma attempted_app_r project n1 n2 :
  attempted project n2 -> attempted project (n1 ++ n2).
Proof.
  intros [Hf Hc]. split.
  - intros Ht. destruct (Hf Ht) as [c Hin]. exists c.
    apply in_or_app. right. exact Hin.
  - intros Ht He. apply in_or_app. right. auto.
Qed.

Lemma updateProjectValue_attempted project w :
  exists new,
    events (snd (updateProjectValue H project (EnvVariable.name variable)
                   value projectDir w)) = events w ++ new
    /\ attempted project new.
Proof.
  destruct (Js.truthy (Project.envFile project)) eqn:Ef.
  - rewrite updateProjectValue_file_backed by exact Ef. cbv zeta.
    eexists. split; [reflexivity|]. split; [|congruence].
    intros _. eexists. right. left. reflexivity.
  - unfold updateProjectValue. rewrite Ef.
    destruct (Js.truthy (Project.exportCommand project)) eqn:Ec.
    + unfold export_value, execSync, console_error, emit, ret, bind.
      fold (export_command project).
      destruct (run_command H (export_command project)
                  (backend_dir H projectDir) (files w)) as [[out|msg] fs];
        cbn [snd events].
      * eexists. split; [reflexivity|]. split; [congruence|].
        intros _ _. left. reflexivity.
      * eexists. split; [rewrite <- !app_assoc; reflexivity|].
        split; [congruence|]. intros _ _. left. reflexivity.
    + exists []. split; [simpl; rewrite app_nil_r; reflexivity|].
      split; congruence.
Qed.

Lemma write_projects_attempted ids acc w :
  exists new,
    events (snd (write_projects H config variable value projectDir ids
                   acc w)) = events w ++ new
    /\ forall pid p, In pid ids ->
         find_project (SetupConfig.projects config) pid = Some p ->
         attempted p new.
Proof.
  revert acc w. induction ids as [|pid ids IH]; intros acc w.
  - exists []. split; [simpl; rewrite app_nil_r; reflexivity|].
    intros ? ? [].
  - simpl. destruct (find_project _ pid) as [p|] eqn:Hf.
    + unfold bind.
      destruct (updateProjectValue_attempted p w) as (n1 & E1 & A1).
      destruct (updateProjectValue H p _ value projectDir w) as [u w1].
      simpl in E1.
      destruct (IH (if Js.truthy u then acc ++ [default "" u] else acc) w1)
        as (n2 & E2 & A2).
      exists (n1 ++ n2). split.
      * rewrite E2, E1, app_assoc. reflexivity.
      * intros q p' [<-|Hin] Hq.
        -- rewrite Hf in Hq. injection Hq as <-.
           apply attempted_app_l, A1.
        -- apply attempted_app_r. eapply A2; eassumption.
    + destruct (IH acc w) as (n & E & A).
      exists n. split; [exact E|].
      intros q p' [<-|Hin] Hq; [congruence|]. eapply A; eassumption.
Qed.

Lemma accepted_iff :
  accepted variable value = true <->
  value <> "" \/ EnvVariable.required variable <> Some false.
Proof.
  unfold accepted, is_false.
  destruct value as [|c s]; destruct (EnvVariable.required variable) as [[]|];
    simpl; split; try reflexivity; try discriminate;
    try (intros _; left; discriminate); try (intros _; right; discriminate).
  intros [Hv|Hr]; congruence.
Qed.

Lemma customConsole_log_run message w :
  customConsole_log config message w =
  (tt, after w (if ignored config message then [] else [ConsoleLog message])).
Proof.
  unfold customConsole_log, after.
  destruct (ignored config message); simpl.
  - rewrite app_nil_r. destruct w; reflexivity.
  - reflexivity.
Qed.

End Acceptance.

(** *** Writes that throw

    No [try] of the source encloses [fs.writeFileSync] (line 87): a write
    that throws ends the call.  What is seen of a run is then its events up
    to and including the first write that throws. *)

(** The events that are seen of [new], coming after [before], when
    [throws] tells of each write, from what happened before it, whether it
    throws. *)
Fixpoint seen_until (throws : list Event -> string -> string -> bool)
    (before new : list Event) : list Event :=
  match new with
  | [] => []
  | e :: rest =>
      e :: match e with
           | WriteFile path content =>
               if throws before path content then []
               else seen_until throws (before ++ [e]) rest
           | _ => seen_until throws (before ++ [e]) rest
           end
  end.

Lemma seen_until_app throws before n1 n2 :
  Forall (fun e => ~ is_write e) n1 ->
  seen_until throws before (n1 ++ n2)
  = n1 ++ seen_until throws (before ++ n1) n2.
Proof.
  revert before. induction n1 as [|e n1 IH]; intros before Hn.
  - simpl. rewrite app_nil_r. reflexivity.
  - inversion Hn as [|? ? He Hrest]; subst. simpl.
    rewrite (IH (before ++ [e]) Hrest), <- app_assoc. simpl.
    destruct e; try reflexivity. destruct (He I).
Qed.

(** When no write throws, everything is seen. *)
Lemma seen_until_all before new :
  seen_until (fun _ _ _ => false) before new = new.
Proof.
  revert before. induction new as [|e new IH]; intros before; simpl;
    [reflexivity|].
  rewrite IH. destruct e; reflexivity.
Qed.

Section AcceptanceUnderFailure.

Context (H : Host).
Variable config : SetupConfig.t.
Variable variable : EnvVariable.t.
Variable value projectDir : string.

#[local] Abbreviation attempt := (attempted H variable value projectDir).

(** What one write to a project adds: for a project with an env file, the
    read and the write of that file; for another project, no write of a
    file, and first of all the export command when there is one. *)
Lemma updateProjectValue_adds project w :
  exists new,
    events (snd (updateProjectValue H project (EnvVariable.name variable)
                   value projectDir w)) = events w ++ new
    /\ ((Js.truthy (Project.envFile project) = true
         /\ exists content,
              new = [ReadFile (env_path H projectDir project);
                     WriteFile (env_path H projectDir project) content])
        \/ (Js.truthy (Project.envFile project) = false
            /\ Forall (fun e => ~ is_write e) new
            /\ (Js.truthy (Project.exportCommand project) = true ->
                exists rest,
                  new = Exec (export_command H variable value project)
                          (backend_dir H projectDir) :: rest))).
Proof.
  destruct (Js.truthy (Project.envFile project)) eqn:Ef.
  - rewrite updateProjectValue_file_backed by exact Ef. cbv zeta.
    eexists. split; [reflexivity|]. left. split; [reflexivity|].
    eexists. reflexivity.
  - unfold updateProjectValue. rewrite Ef.
    destruct (Js.truthy (Project.exportCommand project)) eqn:Ec.
    + unfold export_value, execSync, console_error, emit, ret, bind.
      fold (export_command H variable value project).
      destruct (run_command H (export_command H variable value project)
                  (backend_dir H projectDir) (files w)) as [[out|msg] fs];
        cbn [snd events].
      * eexists. split; [reflexivity|]. right. split; [reflexivity|].
        split; [repeat constructor; simpl; tauto|].
        intros _. eexists. reflexivity.
      * eexists. split; [rewrite <- !app_assoc; reflexivity|].
        right. split; [reflexivity|].
        split; [repeat constructor; simpl; tauto|].
        intros _. eexists. reflexivity.
    + exists []. split; [simpl; rewrite app_nil_r; reflexivity|].
      right. split; [reflexivity|]. split; [constructor|discriminate].
Qed.

(** The write loop up to a listed project [pid], when no project listed
    before it has an env file: whichever write throws, the project is seen
    to be attempted. *)
Lemma write_projects_reaches throws before pid later p acc w after_loop :
  (forall q p', In q before ->
     find_project (SetupConfig.projects config) q = Some p' ->
     Js.truthy (Project.envFile p') = false) ->
  find_project (SetupConfig.projects config) pid = Some p ->
  exists new,
    events (snd (write_projects H config variable value projectDir
                   (before ++ pid :: later) acc w)) = events w ++ new
    /\ attempt p (seen_until throws (events w) (new ++ after_loop)).
Proof.
  revert acc w. induction before as [|q before IH]; intros acc w Hb Hf.
  - simpl. rewrite Hf. unfold bind.
    destruct (updateProjectValue_adds p w) as (np & Ep & Hp).
    destruct (updateProjectValue H p _ value projectDir w) as [u w1].
    cbn [snd] in Ep.
    destruct (write_projects_silent H config variable value projectDir later
                (if Js.truthy u then acc ++ [default "" u] else acc) w1)
      as (nl & El & _).
    exists (np ++ nl). split; [rewrite El, Ep, app_assoc; reflexivity|].
    destruct Hp as [[Ht [content ->]]|(Ht & Hnw & Hx)].
    + split; [|congruence]. intros _. exists content. simpl.
      right. left. reflexivity.
    + split; [congruence|]. intros _ Hc. destruct (Hx Hc) as [rest ->].
      left. reflexivity.
  - simpl.
    assert (Hb' : forall q' p', In q' before ->
              find_project (SetupConfig.projects config) q' = Some p' ->
              Js.truthy (Project.envFile p') = false)
      by (intros q' p' Hq; apply Hb; right; exact Hq).
    destruct (find_project (SetupConfig.projects config) q) as [pq|] eqn:Hq;
      [|apply IH; assumption].
    unfold bind.
    destruct (updateProjectValue_adds pq w) as (nq & Eq & Hnq).
    destruct (updateProjectValue H pq _ value projectDir w) as [u w1].
    cbn [snd] in Eq.
    destruct (IH (if Js.truthy u then acc ++ [default "" u] else acc) w1
                Hb' Hf) as (new & E & A).
    exists (nq ++ new). split; [rewrite E, Eq, app_assoc; reflexivity|].
    destruct Hnq as [[Ht _]|(_ & Hnw & _)].
    { rewrite (Hb q pq (or_introl eq_refl) Hq) in Ht. discriminate. }
    rewrite <- app_assoc, seen_until_app by exact Hnw.
    rewrite Eq in A. destruct A as [Af Ac]. split.
    + intros Ht. destruct (Af Ht) as [content Hin]. exists content.
      apply in_or_app. right. exact Hin.
    + intros Ht Hc. apply in_or_app. right. auto.
Qed.

End AcceptanceUnderFailure.

(** C2 (as amended).  Once the value of a variable is determined, it is
    written to the projects of the variable exactly when the value is not
    empty or the variable is not explicitly optional
    ([required !== false]).  Otherwise
    (an optional variable with an empty value) no project is written: the
    files stay as they are, and the one thing that happens is that the
    report [Skipped NAME] is handed to the custom console, which prints it
    unless an [ignoreLogs] prefix of a project starts the line.  When the
    value is written, also when it is the empty string of a required
    variable, the write loop starts.  Whichever writes of files throw, a
    listed project of the configuration is seen to be attempted (its env
    file is written, or else its export command is run) when no project
    listed before it has an env file; and when no write throws, every
    listed project of the configuration is attempted. *)
Theorem C2_acceptance_policy (H : Host) (config : SetupConfig.t)
    (variable : EnvVariable.t) (value projectDir : string) (w : World) :
  let skipped :=
    chalk H Yellow ("⚠️ Skipped " +:+ EnvVariable.name variable) in
  let run := persistValue H config variable value projectDir w in
  (accepted variable value = true <->
   value <> "" \/ EnvVariable.required variable <> Some false)
  /\ (accepted variable value = false ->
      value = "" /\ EnvVariable.required variable = Some false
      /\ run = customConsole_log config skipped w
      /\ files (snd run) = files w
      /\ events (snd run) =
           events w ++ (if ignored config skipped then []
                        else [ConsoleLog skipped]))
  /\ (accepted variable value = true ->
      exists new,
        events (snd run) = events w ++ new
        /\ (forall throws before pid later p,
              EnvVariable.projects variable = before ++ pid :: later ->
              (forall q p', In q before ->
                 find_project (SetupConfig.projects config) q = Some p' ->
                 Js.truthy (Project.envFile p') = false) ->
              find_project (SetupConfig.projects config) pid = Some p ->
              attempted H variable value projectDir p
                (seen_until throws (events w) new))
        /\ (forall pid p, In pid (EnvVariable.projects variable) ->
              find_project (SetupConfig.projects config) pid = Some p ->
              attempted H variable value projectDir p
                (seen_until (fun _ _ _ => false) (events w) new))).
Proof.
  cbv zeta. split; [apply accepted_iff|]. split.
  - intros Ha. unfold persistValue. rewrite Ha. unfold report_skipped.
    rewrite customConsole_log_run. cbn [fst snd files events after].
    repeat split; try reflexivity.
    + destruct value; [reflexivity|discriminate].
    + unfold accepted in Ha. apply orb_false_elim in Ha as [_ Hr].
      unfold is_false in Hr.
      destruct (EnvVariable.required variable) as [[]|];
        try discriminate; reflexivity.
  - intros Ha. unfold persistValue. rewrite Ha. unfold bind.
    destruct (write_projects_attempted H config variable value projectDir
                (EnvVariable.projects variable) [] w) as (n1 & E1 & A1).
    destruct (write_projects H config variable value projectDir
                (EnvVariable.projects variable) [] w)
      as [updatedFiles w1] eqn:Ew.
    cbn [snd] in E1.
    destruct (report_set_silent H config variable updatedFiles w1)
      as (n2 & E2 & _).
    exists (n1 ++ n2). split; [rewrite E2, E1, app_assoc; reflexivity|].
    split.
    + intros throws before pid later p Hids Hb Hf.
      destruct (write_projects_reaches H config variable value projectDir
                  throws before pid later p [] w n2 Hb Hf) as (new & E & A).
      rewrite <- Hids, Ew in E. cbn [snd] in E. rewrite E1 in E.
      apply app_inv_head in E. rewrite E. exact A.
    + intros pid p Hin Hf. rewrite seen_until_all.
      apply attempted_app_l. apply (A1 pid p Hin Hf).
Qed.

(** The scenarios of the specification: an optional [TOKEN] for the
    file-backed project [svc] with an empty answer leaves [svc.env] absent
    and reports the skip; a required [TOKEN] with the same empty answer
    writes the line [TOKEN=] to [svc.env], and the write is seen to be
    attempted even where it throws. *)
Lemma C2_acceptance_policy_witness :
  let config := Sample.config [Sample.svc] [] in
  let optional := Sample.variable "TOKEN" ["svc"] (Some false) None None in
  let needed := Sample.variable "TOKEN" ["svc"] None None None in
  persistValue Sample.quiet config optional "" "/p" (Sample.world ∅)
  = (tt, after (Sample.world ∅) [ConsoleLog "⚠️ Skipped TOKEN"])
  /\ (exists new,
        events (snd (persistValue Sample.quiet config needed "" "/p"
                       (Sample.world ∅))) = [] ++ new
        /\ exists content,
             In (WriteFile "/p/svc.env" content)
                (seen_until (fun _ _ _ => true) [] new))
  /\ files (snd (persistValue Sample.quiet config needed "" "/p"
                   (Sample.world ∅))) !! "/p/svc.env" = Some "TOKEN=".
Proof.
  cbv zeta. split; [|split].
  - destruct (C2_acceptance_policy Sample.quiet (Sample.config [Sample.svc] [])
                (Sample.variable "TOKEN" ["svc"] (Some false) None None)
                "" "/p" (Sample.world ∅)) as (_ & Hskip & _).
    destruct Hskip as (_ & _ & Hrun & _); [reflexivity|].
    rewrite Hrun. vm_compute. reflexivity.
  - destruct (C2_acceptance_policy Sample.quiet (Sample.config [Sample.svc] [])
                (Sample.variable "TOKEN" ["svc"] None None None)
                "" "/p" (Sample.world ∅)) as (_ & _ & Hset).
    destruct Hset as (new & Hev & Hreach & _); [reflexivity|].
    exists new. split; [exact Hev|].
    destruct (Hreach (fun _ _ _ => true) [] "svc" [] Sample.svc)
      as [Hfile _].
    + reflexivity.
    + intros q p' [].
    + reflexivity.
    + exact (Hfile eq_refl).
  - vm_compute. reflexivity.
Defined.

(** C2, where the report fails.  The project lists the empty prefix among
    its [ignoreLogs], so the custom console drops every line.  The optional
    [TOKEN] gets an empty value: it is not accepted, nothing is written, and
    no [Skipped] report is produced either: the world is as it was. *)
Lemma C2_skipped_report_counterexample :
  let hushed := Project.mk "svc" (Some "svc.env") None None (Some [""]) in
  let config := Sample.config [hushed] [] in
  let optional := Sample.variable "TOKEN" ["svc"] (Some false) None None in
  accepted optional "" = false
  /\ persistValue Sample.quiet config optional "" "/p" (Sample.world ∅)
     = (tt, Sample.world ∅).
Proof. vm_compute. split; reflexivity. Qed.

(** ** The value of a variable and the walk over the steps *)

Section Walk.

Context (H : Host).
Variable config : SetupConfig.t.
Variable values : Values.t.
Variable projectDir : string.

Lemma getExistingValue_truthy variable w found :
  fst (getExistingValue H (SetupConfig.projects config) variable
         projectDir w) = Some found ->
  Js.truthy_string found = true.
Proof.
  unfold getExistingValue.
  destruct (getExistingValue_loop _ _ _ _ _ w) as [r w2] eqn:E.
  simpl. intros ->.
  apply loop_some_inv in E as (b & q & l & p & w1 & _ & _ & _ & Hr).
  apply (read_project_truthy H p variable projectDir w1).
  rewrite Hr. reflexivity.
Qed.

(** The default of a variable, written out: the existing value, else the
    rendered template of a variable that has a template (a string that is
    not empty), else the static default, else the empty string. *)
Definition default_text (variable : EnvVariable.t)
    (existing : option string) : string :=
  match existing with
  | Some found => found
  | None =>
      if Js.truthy (EnvVariable.template variable)
      then render_template values
             (default "" (EnvVariable.template variable))
      else match EnvVariable.defaultValue variable with
           | Some static => static
           | None => ""
           end
  end.

Lemma or_string_default variable existing :
  (forall found, existing = Some found -> Js.truthy_string found = true) ->
  Js.or_string (computeDefault values variable existing) ""
  = default_text variable existing.
Proof.
  intros Hex. unfold computeDefault, Js.or_else, default_text.
  destruct existing as [found|].
  - simpl. rewrite (Hex found eq_refl). simpl.
    rewrite (Hex found eq_refl). reflexivity.
  - simpl. destruct (Js.truthy (EnvVariable.template variable)).
    + simpl. destruct (render_template values _); reflexivity.
    + destruct (EnvVariable.defaultValue variable) as [[|c s]|]; reflexivity.
Qed.

Definition no_prompt (e : Event) : Prop := ~ is_prompt e.
Definition no_confirm (e : Event) : Prop := ~ is_confirm e.

Lemma silent_no_prompt {A} (m : M A) : adds silent m -> adds no_prompt m.
Proof. apply adds_weaken. exact silent_not_prompt. Qed.

Lemma silent_no_confirm {A} (m : M A) : adds silent m -> adds no_confirm m.
Proof.
  apply adds_weaken. intros e He Hc.
  apply (silent_not_prompt e He). left. exact Hc.
Qed.

Lemma determineValue_no_confirm step variable defaultValue :
  adds no_confirm (determineValue H step variable defaultValue).
Proof.
  unfold determineValue.
  destruct (is_false (SetupStep.interactive step)); [apply adds_ret|].
  apply adds_prompt_input. intros a Hc. exact Hc.
Qed.

Lemma determineValue_no_prompt step variable defaultValue :
  SetupStep.interactive step = Some false ->
  adds no_prompt (determineValue H step variable defaultValue).
Proof. intros Hi. unfold determineValue. rewrite Hi. apply adds_ret. Qed.

Lemma processVariable_no_confirm step variable :
  adds no_confirm (processVariable H config values projectDir step variable).
Proof.
  unfold processVariable, resolveValue.
  apply adds_bind; [apply silent_no_confirm; adds_steps; left; exact I|].
  intros _. apply adds_bind; [apply silent_no_confirm, show_info_silent|].
  intros _. apply adds_bind.
  - apply adds_bind; [apply silent_no_confirm, getExistingValue_silent|].
    intros existing. apply determineValue_no_confirm.
  - intros value. apply silent_no_confirm, persistValue_silent.
Qed.

Lemma processVariable_no_prompt step variable :
  SetupStep.interactive step = Some false ->
  adds no_prompt (processVariable H config values projectDir step variable).
Proof.
  intros Hi. unfold processVariable, resolveValue.
  apply adds_bind; [apply silent_no_prompt; adds_steps; left; exact I|].
  intros _. apply adds_bind; [apply silent_no_prompt, show_info_silent|].
  intros _. apply adds_bind.
  - apply adds_bind; [apply silent_no_prompt, getExistingValue_silent|].
    intros existing. apply determineValue_no_prompt, Hi.
  - intros value. apply silent_no_prompt, persistValue_silent.
Qed.

Lemma processVariables_no_confirm step :
  adds no_confirm (processVariables H config values projectDir step).
Proof.
  unfold processVariables. apply adds_bind.
  - apply adds_for_each. intros variable. apply processVariable_no_confirm.
  - intros _. apply adds_customConsole_log. intros Hc. exact Hc.
Qed.

Lemma asks_to_skip_iff step :
  asks_to_skip step = true <->
  SetupStep.required step = Some false
  /\ SetupStep.interactive step <> Some false.
Proof.
  unfold asks_to_skip, is_false.
  destruct (SetupStep.required step) as [[]|];
    destruct (SetupStep.interactive step) as [[]|]; simpl;
    split; try discriminate; try (intros [? ?]; congruence);
    try (intros _; split; congruence).
Qed.

Lemma no_confirm_not_exists new :
  Forall no_confirm new -> ~ Exists is_confirm new.
Proof.
  intros Hf Hex. apply Exists_exists in Hex as (e & Hin & Hc).
  rewrite Forall_forall in Hf. exact (Hf e Hin Hc).
Qed.

End Walk.

(** C6.  In a step with [interactive === false], the value of a variable is
    its computed default as it stands: the existing value that the lookup
    found, else the rendered template when the variable has a template (a
    string that is not empty), else the static [defaultValue] when there is
    one, else the empty string.  The world is the one the lookup left, so no
    prompt is issued, and processing the whole variable adds no prompt to
    the events either. *)
Theorem C6_non_interactive_default (H : Host) (config : SetupConfig.t)
    (values : Values.t) (projectDir : string) (step : SetupStep.t)
    (variable : EnvVariable.t) (w : World) :
  SetupStep.interactive step = Some false ->
  let lookup :=
    getExistingValue H (SetupConfig.projects config) variable projectDir w in
  resolveValue H config values projectDir step variable w =
    (default_text values variable (fst lookup), snd lookup)
  /\ (exists new, events (snd lookup) = events w ++ new
                  /\ Forall (fun e => ~ is_prompt e) new)
  /\ (exists new,
        events (snd (processVariable H config values projectDir step
                       variable w)) = events w ++ new
        /\ Forall (fun e => ~ is_prompt e) new).
Proof.
  intros Hi. cbv zeta. split; [|split].
  - unfold resolveValue, bind.
    pose proof (getExistingValue_truthy H config projectDir variable w) as Ht.
    destruct (getExistingValue H (SetupConfig.projects config) variable
                projectDir w) as [existing w1].
    cbn [fst snd] in *. unfold determineValue. rewrite Hi. cbn [is_false].
    unfold ret. f_equal. apply or_string_default.
    intros found ->. apply Ht. reflexivity.
  - apply (silent_no_prompt _ (getExistingValue_silent H _ variable projectDir)).
  - apply (processVariable_no_prompt H config values projectDir step variable Hi).
Qed.

Lemma C6_non_interactive_default_witness :
  let config := Sample.config [Sample.web] [] in
  let step := Sample.step None (Some false) [] in
  let w := Sample.world {[ "/p/apps/web/.env" := "OTHER=1" ]} in
  resolveValue Sample.quiet config Sample.values "/p" step
    (Sample.variable "SITE" ["web"] None (Some "static")
       (Some "{{convexSiteUrl}}/callback")) w
  = ("https://calm-owl-1.convex.site/callback",
     after w [ReadFile "/p/apps/web/.env"])
  /\ resolveValue Sample.quiet config Sample.values "/p" step
       (Sample.variable "OTHER" ["web"] None (Some "static")
          (Some "{{convexSiteUrl}}/callback")) w
     = ("1", after w [ReadFile "/p/apps/web/.env"])
  /\ resolveValue Sample.quiet config Sample.values "/p" step
       (Sample.variable "SITE" ["web"] None (Some "static") None) w
     = ("static", after w [ReadFile "/p/apps/web/.env"])
  /\ resolveValue Sample.quiet config Sample.values "/p" step
       (Sample.variable "SITE" ["web"] None None None) w
     = ("", after w [ReadFile "/p/apps/web/.env"]).
Proof.
  cbv zeta. split; [|split; [|split]].
  - destruct (C6_non_interactive_default Sample.quiet
                (Sample.config [Sample.web] []) Sample.values "/p"
                (Sample.step None (Some false) [])
                (Sample.variable "SITE" ["web"] None (Some "static")
                   (Some "{{convexSiteUrl}}/callback"))
                (Sample.world {[ "/p/apps/web/.env" := "OTHER=1" ]}))
      as (Hv & _); [reflexivity|].
    rewrite Hv. vm_compute. reflexivity.
  - vm_compute. reflexivity.
  - vm_compute. reflexivity.
  - vm_compute. reflexivity.
Defined.

(** C7.  A step asks whether it should be set up exactly when it has
    [required === false] and is interactive ([interactive !== false]).  A
    step that does not ask goes from its announcement straight to its
    variables; so does, in particular, a step with [required: false] and
    [interactive: false].  When the step asks and the answer is no, the step
    ends after the line that says it is skipped: no variable is processed.
    When the answer is yes its variables are processed.  A confirm prompt
    appears among the events of the step exactly when the step asks. *)
Theorem C7_skip_confirmation (H : Host) (config : SetupConfig.t)
    (values : Values.t) (projectDir : string) (index : nat)
    (step : SetupStep.t) (w : World) :
  let w0 := snd (announceStep H config index step w) in
  let answer := answer_confirm H (events w0) optional_question in
  let asked := after w0 [PromptConfirm optional_question answer] in
  let run := processStep H config values projectDir index step w in
  (asks_to_skip step = true <->
   SetupStep.required step = Some false
   /\ SetupStep.interactive step <> Some false)
  /\ (asks_to_skip step = false ->
      run = processVariables H config values projectDir step w0)
  /\ (SetupStep.required step = Some false ->
      SetupStep.interactive step = Some false ->
      run = processVariables H config values projectDir step w0)
  /\ (asks_to_skip step = true -> answer = false ->
      run = customConsole_log config
              (chalk H Yellow ("⏭️  Skipping " +:+ SetupStep.title step))
              asked)
  /\ (asks_to_skip step = true -> answer = true ->
      run = processVariables H config values projectDir step asked)
  /\ (exists new, events (snd run) = events w ++ new
                  /\ (Exists is_confirm new <-> asks_to_skip step = true)).
Proof.
  cbv zeta.
  assert (Hrun : processStep H config values projectDir index step w =
    let w0 := snd (announceStep H config index step w) in
    if asks_to_skip step then
      let answer := answer_confirm H (events w0) optional_question in
      let asked := after w0 [PromptConfirm optional_question answer] in
      if negb answer then
        customConsole_log config
          (chalk H Yellow ("⏭️  Skipping " +:+ SetupStep.title step)) asked
      else processVariables H config values projectDir step asked
    else processVariables H config values projectDir step w0).
  { unfold processStep, bind.
    destruct (announceStep H config index step w) as [[] w0]. cbn [snd].
    destruct (asks_to_skip step); [|reflexivity].
    unfold prompt_confirm, after.
    destruct (answer_confirm H (events w0) optional_question); reflexivity. }
  cbv zeta in Hrun.
  split; [apply asks_to_skip_iff|].
  split; [intros Ha; rewrite Hrun, Ha; reflexivity|].
  split.
  { intros Hr Hi. rewrite Hrun. unfold asks_to_skip.
    rewrite Hr, Hi. reflexivity. }
  split; [intros Ha Hn; rewrite Hrun, Ha, Hn; reflexivity|].
  split; [intros Ha Hy; rewrite Hrun, Ha, Hy; reflexivity|].
  rewrite Hrun.
  destruct (silent_no_confirm _ (announceStep_silent H config index step) w)
    as (n0 & E0 & F0).
  set (w0 := snd (announceStep H config index step w)) in *.
  destruct (asks_to_skip step).
  - set (answer := answer_confirm H (events w0) optional_question).
    set (asked := after w0 [PromptConfirm optional_question answer]).
    assert (Ex : forall n2, Exists is_confirm
                   (n0 ++ [PromptConfirm optional_question answer] ++ n2)).
    { intros n2. apply Exists_app. right. left. exact I. }
    destruct answer; cbn [negb].
    + destruct (processVariables_no_confirm H config values projectDir step
                  asked) as (n2 & E2 & _).
      eexists. split.
      * rewrite E2. unfold asked, after. cbn [events]. rewrite E0.
        rewrite <- !app_assoc. reflexivity.
      * split; [reflexivity|]. intros _. apply Ex.
    + rewrite customConsole_log_run. cbn [snd after events].
      eexists. split.
      * unfold asked, after. cbn [events]. rewrite E0.
        rewrite <- !app_assoc. reflexivity.
      * split; [reflexivity|]. intros _. apply Ex.
  - destruct (processVariables_no_confirm H config values projectDir step w0)
      as (n2 & E2 & F2).
    exists (n0 ++ n2). split.
    + rewrite E2, E0, app_assoc. reflexivity.
    + split; [|discriminate]. intros Hex. exfalso.
      apply (no_confirm_not_exists (n0 ++ n2)); [|exact Hex].
      apply Forall_app. split; assumption.
Qed.

Lemma C7_skip_confirmation_witness :
  let config := Sample.config [Sample.svc] [] in
  let token := Sample.variable "TOKEN" ["svc"] None (Some "abc123") None in
  events (snd (processStep (Sample.host false Sample.accept_default) config
                 Sample.values "/p" 0
                 (Sample.step (Some false) None [token]) (Sample.world ∅)))
  = [ConsoleLog (String Js.newline "📍 Step 1: Title");
     ConsoleLog (String Js.newline "Do this");
     PromptConfirm optional_question false;
     ConsoleLog "⏭️  Skipping Title"]
  /\ files (snd (processStep (Sample.host false Sample.accept_default) config
                   Sample.values "/p" 0
                   (Sample.step (Some false) (Some false) [token])
                   (Sample.world ∅))) !! "/p/svc.env"
     = Some "TOKEN=abc123".
Proof.
  cbv zeta. split.
  - destruct (C7_skip_confirmation (Sample.host false Sample.accept_default)
                (Sample.config [Sample.svc] []) Sample.values "/p" 0
                (Sample.step (Some false) None
                   [Sample.variable "TOKEN" ["svc"] None (Some "abc123") None])
                (Sample.world ∅)) as (_ & _ & _ & Hno & _).
    rewrite Hno; [|reflexivity|reflexivity]. vm_compute. reflexivity.
  - destruct (C7_skip_confirmation (Sample.host false Sample.accept_default)
                (Sample.config [Sample.svc] []) Sample.values "/p" 0
                (Sample.step (Some false) (Some false)
                   [Sample.variable "TOKEN" ["svc"] None (Some "abc123") None])
                (Sample.world ∅)) as (_ & _ & Hni & _).
    rewrite Hni; [|reflexivity|reflexivity]. vm_compute. reflexivity.
Defined.

(** ** The scenarios of the specification, run from end to end *)

(** What was printed with [console.log], oldest first. *)
Definition printed (w : World) : list string :=
  flat_map (fun e => match e with ConsoleLog m => [m] | _ => [] end)
    (events w).

Definition token_config : SetupConfig.t :=
  Sample.config [Sample.svc]
    [Sample.step None None
       [Sample.variable "TOKEN" ["svc"] (Some false) None None]].

(** The operator leaves the optional [TOKEN] empty: [svc.env] is not
    created and the report says [Skipped TOKEN]. *)
Example scenario_empty_answer :
  let w := snd (setupEnvironment (Sample.host true (fun _ => "")) token_config
                  "/p" Sample.values (Sample.world ∅)) in
  files w !! "/p/svc.env" = None
  /\ drop 6 (printed w) =
     ["⚠️ Skipped TOKEN"; "✅ Step completed";
      String Js.newline
        "🎉 Setup complete! Environment variables have been updated."].
Proof. vm_compute. split; reflexivity. Qed.

(** The operator types [abc123]: [svc.env] is created with the line
    [TOKEN=abc123] and the report lists the file. *)
Example scenario_typed_answer :
  let w := snd (setupEnvironment (Sample.host true (fun _ => "abc123"))
                  token_config "/p" Sample.values (Sample.world ∅)) in
  files w !! "/p/svc.env" = Some "TOKEN=abc123"
  /\ drop 6 (printed w) =
     ["✅ Set TOKEN in:"; "   - /p/svc.env"; "✅ Step completed";
      String Js.newline
        "🎉 Setup complete! Environment variables have been updated."].
Proof. vm_compute. split; reflexivity. Qed.

(** A command-backed project is written through its export command, run in
    the backend directory; nothing is reported as a file. *)
Example scenario_command_backed :
  let config := Sample.config [Sample.backend] [] in
  let variable := Sample.variable "SITE_URL" ["backend"] None None None in
  let w := snd (persistValue Sample.quiet config variable
                  "http://localhost:3001" "/p" (Sample.world ∅)) in
  events w =
  [Exec "npx convex env set SITE_URL http://localhost:3001"
     "/p/packages/backend";
   ConsoleLog "✅ Set SITE_URL"].
Proof. vm_compute. reflexivity. Qed.

(** * Further properties of the engine *)

(** ** Rendering: text without placeholders, and keys that have a value *)

(** No position of [s] starts a match of the placeholder pattern. *)
Fixpoint no_placeholder (s : string) : bool :=
  match s with
  | EmptyString => true
  | String c t =>
      match Js.match_placeholder (String c t) with
      | Some _ => false
      | None => no_placeholder t
      end
  end.

Lemma replace_no_placeholder f s :
  no_placeholder s = true -> Js.replace_placeholders f s = s.
Proof.
  induction s as [|c t IH]; [reflexivity|].
  rewrite JsFacts.replace_cons. cbn [no_placeholder].
  destruct (Js.match_placeholder (String c t)); [discriminate|].
  intros Hn. rewrite (IH Hn). reflexivity.
Qed.

(** Every key the Values object answers for, a field or an inherited
    member, is a run of word characters. *)
Lemma Values_get_word values key v :
  Values.get values key = Some v -> key <> "" /\ Js.all_word key = true.
Proof.
  unfold Values.get, Values.inherited.
  destruct (String.eqb_spec key "convexUrl") as [->|_];
    [split; [discriminate|reflexivity]|].
  destruct (String.eqb_spec key "convexSiteUrl") as [->|_];
    [split; [discriminate|reflexivity]|].
  destruct (String.eqb_spec key "constructor") as [->|_];
    [split; [discriminate|reflexivity]|].
  destruct (String.eqb_spec key "__proto__") as [->|_];
    [split; [discriminate|reflexivity]|].
  destruct (existsb (String.eqb key) Values.inherited_methods) eqn:E;
    [|discriminate].
  intros _. apply existsb_exists in E as (name & Hin & Heq).
  apply String.eqb_eq in Heq as ->. simpl in Hin.
  repeat (destruct Hin as [<-|Hin]; [split; [discriminate|reflexivity]|]).
  destruct Hin.
Qed.

(** X1.  A string in which the placeholder pattern matches nowhere (single
    braces, empty braces [{{}}] and unclosed braces included) is rendered
    as it is, as an info string and as a template. *)
Theorem X1_render_without_placeholder (values : Values.t) (s : string) :
  no_placeholder s = true ->
  render_info values s = s /\ render_template values s = s.
Proof.
  intros Hn. split; apply replace_no_placeholder, Hn.
Qed.

Lemma X1_render_without_placeholder_witness :
  render_info Sample.values "run {cmd} with {{}} or {{a b}} and {{x"
  = "run {cmd} with {{}} or {{a b}} and {{x"
  /\ render_template Sample.values "run {cmd} with {{}} or {{a b}} and {{x"
     = "run {cmd} with {{}} or {{a b}} and {{x".
Proof.
  apply (X1_render_without_placeholder Sample.values
           "run {cmd} with {{}} or {{a b}} and {{x").
  vm_compute. reflexivity.
Defined.

Lemma render_key_with_value values pre key post v :
  Values.get values key = Some v ->
  render_info values (pre +:+ Js.placeholder key +:+ post) =
    render_info values pre
    +:+ (if Js.truthy_string v then v else not_set key)
    +:+ render_info values post
  /\ render_template values (pre +:+ Js.placeholder key +:+ post) =
       render_template values pre +:+ v +:+ render_template values post.
Proof.
  intros Hv.
  destruct (Values_get_word values key v Hv) as [Hne Hw]. unfold render_info, render_template.
  rewrite !JsFacts.replace_placeholders_occurrence by assumption.
  rewrite Hv. unfold Js.or_string. split; [reflexivity|].
  destruct v; reflexivity.
Qed.

(** X2.  An occurrence of a key of the Values context is replaced by the
    value of the key, in an info string and in a template alike, whatever
    stands around it; the value is put in as it is and is not scanned for
    placeholders again.  A key whose value is the empty string is treated as
    a key without a value: the info string shows the marker and the template
    gets nothing. *)
Theorem X2_render_known_key (values : Values.t) (pre key post v : string) :
  Values.get values key = Some v ->
  render_info values (pre +:+ Js.placeholder key +:+ post) =
    render_info values pre
    +:+ (if Js.truthy_string v then v else not_set key)
    +:+ render_info values post
  /\ render_template values (pre +:+ Js.placeholder key +:+ post) =
       render_template values pre +:+ v +:+ render_template values post.
Proof. apply render_key_with_value. Qed.

Lemma X2_render_known_key_witness :
  render_info Sample.values
    ("Set the callback to " +:+ Js.placeholder "convexSiteUrl"
     +:+ "/api/auth ({{convexSiteUrl}})")
  = "Set the callback to https://calm-owl-1.convex.site/api/auth (https://calm-owl-1.convex.site)".
Proof.
  destruct (X2_render_known_key Sample.values "Set the callback to "
              "convexSiteUrl" "/api/auth ({{convexSiteUrl}})"
              "https://calm-owl-1.convex.site") as [Hi _].
  - reflexivity.
  - rewrite Hi. vm_compute. reflexivity.
Defined.

(** ** The console of [setupEnvironment] *)

Lemma prefix_iff p m :
  String.prefix p m = true <-> exists rest, m = p +:+ rest.
Proof.
  revert m. induction p as [|a p IH]; intros m.
  - split; [intros _; exists m; reflexivity|].
    intros _. destruct m; reflexivity.
  - destruct m as [|b m]; simpl.
    + split; [discriminate|]. intros [rest Hr]. discriminate.
    + destruct (Ascii.ascii_dec a b) as [->|Hne].
      * rewrite IH. split; intros [rest Hr]; exists rest.
        -- rewrite Hr. reflexivity.
        -- rewrite JsFacts.append_cons in Hr. congruence.
      * split; [discriminate|]. intros [rest Hr].
        rewrite JsFacts.append_cons in Hr. congruence.
Qed.

Lemma shouldIgnoreLog_iff message prefixes :
  shouldIgnoreLog message (Some prefixes) = true <->
  exists prefix rest, In prefix prefixes /\ message = prefix +:+ rest.
Proof.
  unfold shouldIgnoreLog. simpl. rewrite existsb_exists. split.
  - intros (p & Hin & Hp). apply prefix_iff in Hp as [rest Hr]. eauto.
  - intros (p & rest & Hin & Hr). exists p. split; [exact Hin|].
    apply prefix_iff. eauto.
Qed.

Lemma shouldIgnoreLog_empty_prefix message prefixes :
  In "" prefixes -> shouldIgnoreLog message (Some prefixes) = true.
Proof.
  intros Hin. apply shouldIgnoreLog_iff. exists "", message.
  split; [exact Hin|reflexivity].
Qed.

(** X3.  [shouldIgnoreLog] holds exactly when one of the listed prefixes
    starts the message.  Without a list ([ignoreLogs] undefined) and with
    the empty list it never holds; with the empty string among the prefixes
    it holds for every message. *)
Theorem X3_shouldIgnoreLog_prefix (message : string)
    (ignoreLogs : option (list string)) :
  (shouldIgnoreLog message ignoreLogs = true <->
   exists prefixes prefix rest,
     ignoreLogs = Some prefixes /\ In prefix prefixes
     /\ message = prefix +:+ rest)
  /\ shouldIgnoreLog message None = false
  /\ shouldIgnoreLog message (Some []) = false
  /\ (forall prefixes, In "" prefixes ->
        shouldIgnoreLog message (Some prefixes) = true).
Proof.
  split; [|split; [reflexivity|split; [reflexivity|]]].
  - destruct ignoreLogs as [l|].
    + rewrite shouldIgnoreLog_iff. split.
      * intros (p & rest & Hin & Hr). exists l, p, rest. auto.
      * intros (l' & p & rest & [= <-] & Hin & Hr). eauto.
    + split; [discriminate|]. intros (l' & p & rest & Hl & _). discriminate.
  - intros prefixes. apply shouldIgnoreLog_empty_prefix.
Qed.

(** ** What a whole run can do *)

Section RunEvents.

Context (H : Host).
Variable config : SetupConfig.t.
Variable values : Values.t.
Variable projectDir : string.

(** The events a run of [setupEnvironment] can add: lines that the custom
    console lets through, error lines, reads and writes of env files of
    projects of the configuration, commands of projects without an env
    file, run in the backend directory, the question of an optional
    interactive step, and the input prompt of an interactive step. *)
Definition allowed (e : Event) : Prop :=
  match e with
  | ConsoleLog message => ignored config message = false
  | ConsoleError _ => True
  | ReadFile path | WriteFile path _ =>
      exists p, In p (SetupConfig.projects config)
                /\ Js.truthy (Project.envFile p) = true
                /\ path = env_path H projectDir p
  | Exec _ cwd =>
      cwd = backend_dir H projectDir
      /\ exists p, In p (SetupConfig.projects config)
                   /\ Js.truthy (Project.envFile p) = false
                   /\ (Js.truthy (Project.importCommand p) = true
                       \/ Js.truthy (Project.exportCommand p) = true)
  | PromptConfirm message _ =>
      message = optional_question
      /\ exists step, In step (SetupConfig.steps config)
                      /\ asks_to_skip step = true
  | PromptInput _ _ _ =>
      exists step, In step (SetupConfig.steps config)
                   /\ is_false (SetupStep.interactive step) = false
  end.

Lemma find_project_in projects pid p :
  find_project projects pid = Some p -> In p projects.
Proof. unfold find_project. intros Hf. apply find_some in Hf. tauto. Qed.

Lemma custom_log_allowed message :
  adds allowed (customConsole_log config message).
Proof.
  unfold customConsole_log. destruct (ignored config message) eqn:E.
  - apply adds_ret.
  - apply adds_console_log. exact E.
Qed.

Lemma read_project_allowed p variable :
  In p (SetupConfig.projects config) ->
  adds allowed (read_project H p variable projectDir).
Proof.
  intros Hin. unfold read_project.
  destruct (Js.truthy (Project.envFile p)) eqn:Ef.
  - apply adds_bind.
    + unfold getEnvFileValue. apply adds_bind.
      * apply adds_readFileSync. exists p. auto.
      * intros [c|]; apply adds_ret.
    + intros v. destruct (Js.truthy v); apply adds_ret.
  - destruct (Js.truthy (Project.importCommand p)) eqn:Ei; [|apply adds_ret].
    unfold import_value. apply adds_bind.
    + apply adds_execSync. split; [reflexivity|]. exists p. auto.
    + intros [out|msg].
      * destruct (Js.truthy_string _); apply adds_ret.
      * apply adds_bind; [apply adds_console_error; exact I|].
        intros _. apply adds_ret.
Qed.

Lemma lookup_allowed variable ids :
  adds allowed
    (getExistingValue_loop H (SetupConfig.projects config) variable
       projectDir ids).
Proof.
  induction ids as [|pid ids IH]; simpl; [apply adds_ret|].
  destruct (find_project _ pid) as [p|] eqn:Hf; [|exact IH].
  apply adds_bind.
  - apply read_project_allowed. eapply find_project_in, Hf.
  - intros [v|]; [apply adds_ret|exact IH].
Qed.

Lemma updateProjectValue_allowed p key value :
  In p (SetupConfig.projects config) ->
  adds allowed (updateProjectValue H p key value projectDir).
Proof.
  intros Hin. unfold updateProjectValue.
  destruct (Js.truthy (Project.envFile p)) eqn:Ef.
  - apply adds_bind; [|intros _; apply adds_ret].
    unfold updateEnvFile. apply adds_bind.
    + apply adds_readFileSync. exists p. auto.
    + intros r. apply adds_writeFileSync. exists p. auto.
  - destruct (Js.truthy (Project.exportCommand p)) eqn:Ex; [|apply adds_ret].
    apply adds_bind; [|intros _; apply adds_ret].
    unfold export_value. apply adds_bind.
    + apply adds_execSync. split; [reflexivity|]. exists p. auto.
    + intros [out|msg]; [apply adds_ret|].
      apply adds_bind; [apply adds_console_error; exact I|].
      intros _. apply adds_console_error. exact I.
Qed.

Lemma write_projects_allowed variable value ids acc :
  adds allowed (write_projects H config variable value projectDir ids acc).
Proof.
  revert acc. induction ids as [|pid ids IH]; intros acc; simpl;
    [apply adds_ret|].
  destruct (find_project _ pid) as [p|] eqn:Hf; [|apply IH].
  apply adds_bind.
  - apply updateProjectValue_allowed. eapply find_project_in, Hf.
  - intros u. apply IH.
Qed.

Lemma persistValue_allowed variable value :
  adds allowed (persistValue H config variable value projectDir).
Proof.
  unfold persistValue. destruct (accepted variable value).
  - apply adds_bind; [apply write_projects_allowed|].
    intros files. unfold report_set.
    destruct (Nat.ltb 0 (length files)); [|apply custom_log_allowed].
    apply adds_bind; [apply custom_log_allowed|]. intros _.
    apply adds_for_each. intros f. apply custom_log_allowed.
  - apply custom_log_allowed.
Qed.

Lemma processVariable_allowed step variable :
  In step (SetupConfig.steps config) ->
  adds allowed (processVariable H config values projectDir step variable).
Proof.
  intros Hin. unfold processVariable.
  apply adds_bind; [apply custom_log_allowed|]. intros _.
  apply adds_bind.
  { unfold show_info. destruct (EnvVariable.info variable); [|apply adds_ret].
    apply adds_for_each. intros i. apply custom_log_allowed. }
  intros _. apply adds_bind; [|intros v; apply persistValue_allowed].
  unfold resolveValue. apply adds_bind; [apply lookup_allowed|].
  intros existing. unfold determineValue.
  destruct (is_false (SetupStep.interactive step)) eqn:Ei; [apply adds_ret|].
  apply adds_prompt_input. intros a. exists step. auto.
Qed.

Lemma announceStep_allowed index step :
  adds allowed (announceStep H config index step).
Proof.
  unfold announceStep.
  apply adds_bind; [apply custom_log_allowed|]. intros _.
  apply adds_bind.
  { destruct (Js.truthy _); [apply custom_log_allowed|apply adds_ret]. }
  intros _. apply adds_bind; [apply custom_log_allowed|]. intros _.
  destruct (SetupStep.additionalInstructions step); [|apply adds_ret].
  apply adds_bind; [apply custom_log_allowed|]. intros _.
  apply adds_bind; [|intros _; apply custom_log_allowed].
  apply adds_for_each. intros i. apply custom_log_allowed.
Qed.

Lemma processStep_allowed index step :
  In step (SetupConfig.steps config) ->
  adds allowed (processStep H config values projectDir index step).
Proof.
  intros Hin.
  assert (Hvars : adds allowed
                    (processVariables H config values projectDir step)).
  { unfold processVariables.
    apply adds_bind; [|intros _; apply custom_log_allowed].
    apply adds_for_each. intros v. apply processVariable_allowed, Hin. }
  unfold processStep.
  apply adds_bind; [apply announceStep_allowed|]. intros _.
  destruct (asks_to_skip step) eqn:Ea; [|exact Hvars].
  apply adds_bind.
  - apply adds_prompt_confirm. intros a. split; [reflexivity|].
    exists step. auto.
  - intros a. destruct (negb a); [apply custom_log_allowed|exact Hvars].
Qed.

Lemma walkSteps_allowed index steps :
  incl steps (SetupConfig.steps config) ->
  adds allowed (walkSteps H config values projectDir index steps).
Proof.
  revert index. induction steps as [|step steps IH]; intros index Hincl;
    simpl; [apply adds_ret|].
  apply adds_bind.
  - apply processStep_allowed, Hincl. left. reflexivity.
  - intros _. apply IH. intros s Hs. apply Hincl. right. exact Hs.
Qed.

(** Every event of a run is an allowed one. *)
Lemma setupEnvironment_allowed :
  adds allowed (setupEnvironment H config projectDir values).
Proof.
  unfold setupEnvironment.
  apply adds_bind; [apply custom_log_allowed|]. intros _.
  apply adds_bind; [apply custom_log_allowed|]. intros _.
  apply adds_bind; [apply custom_log_allowed|]. intros _.
  apply adds_bind; [|intros _; apply custom_log_allowed].
  apply walkSteps_allowed. intros s Hs. exact Hs.
Qed.

End RunEvents.

(** X5.  When every project of the configuration has an env file, a run of
    [setupEnvironment] executes no command at all: neither an import
    command nor an export command, whatever templates the projects carry. *)
Theorem X5_file_backed_runs_no_command (H : Host) (config : SetupConfig.t)
    (values : Values.t) (projectDir : string) (w : World) :
  (forall p, In p (SetupConfig.projects config) ->
     Js.truthy (Project.envFile p) = true) ->
  exists new,
    events (snd (setupEnvironment H config projectDir values w))
      = events w ++ new
    /\ forall command cwd, ~ In (Exec command cwd) new.
Proof.
  intros Hall.
  destruct (setupEnvironment_allowed H config values projectDir w)
    as (new & E & F).
  exists new. split; [exact E|]. rewrite Forall_forall in F.
  intros command cwd Hin.
  destruct (F (Exec command cwd)) as (_ & p & Hp & Hf & _).
  - apply list_elem_of_In. exact Hin.
  - rewrite (Hall p Hp) in Hf. discriminate.
Qed.

(** X6.  When every step of the configuration has [interactive: false], a
    run of [setupEnvironment] asks the operator nothing: it issues neither a
    confirm prompt nor an input prompt. *)
Theorem X6_non_interactive_run_is_unattended (H : Host)
    (config : SetupConfig.t) (values : Values.t) (projectDir : string)
    (w : World) :
  (forall step, In step (SetupConfig.steps config) ->
     SetupStep.interactive step = Some false) ->
  exists new,
    events (snd (setupEnvironment H config projectDir values w))
      = events w ++ new
    /\ Forall (fun e => ~ is_prompt e) new.
Proof.
  intros Hall.
  destruct (setupEnvironment_allowed H config values projectDir w)
    as (new & E & F).
  exists new. split; [exact E|].
  eapply Forall_impl; [exact F|].
  intros e He [Hc|Hi].
  - destruct e; try contradiction. destruct He as (_ & step & Hs & Ha).
    unfold asks_to_skip in Ha. rewrite (Hall step Hs) in Ha.
    rewrite andb_false_r in Ha. discriminate.
  - destruct e; try contradiction. destruct He as (step & Hs & Hf).
    rewrite (Hall step Hs) in Hf. discriminate.
Qed.

(** ** Loading: what is fatal and what is returned *)

Section LoadMore.

Context (H : Host).

Definition load_started (configPath : string) : list Event :=
  [ConsoleLog ("Loading config from: " +:+ configPath); ReadFile configPath].

Definition load_error (message : string) : Event :=
  ConsoleError (chalk H Red ("Error loading config file: " +:+ message)).

(** The message of the error that [loadConfig] catches, if any. *)
Definition load_problem (configPath : string) (w : World) : option string :=
  match files w !! configPath with
  | None => Some (read_error H configPath)
  | Some content =>
      match JSON_parse H content with
      | inr message => Some message
      | inl config =>
          match get_projects config with
          | inl _ => Some null_projects
          | inr projects =>
              if isArray projects then None else Some missing_projects
          end
      end
  end.

Lemma loadConfig_run configPath w :
  loadConfig H configPath w =
  match load_problem configPath w with
  | Some message =>
      (ProcessExit 1,
       after w (load_started configPath ++ [load_error message]))
  | None =>
      (match files w !! configPath with
       | Some content =>
           match JSON_parse H content with
           | inl config => Config config
           | inr _ => ProcessExit 1
           end
       | None => ProcessExit 1
       end,
       after w (load_started configPath))
  end.
Proof.
  unfold loadConfig, load_problem, load_failed, load_started, load_error,
    after.
  unfold bind at 1 2. unfold console_log, emit, readFileSync.
  cbn [fst snd files events].
  destruct (files w !! configPath) as [content|].
  - destruct (JSON_parse H content) as [config|message].
    + destruct (get_projects config) as [u|projects].
      * unfold bind, console_error, emit, ret. cbn [files events].
        rewrite <- !app_assoc. reflexivity.
      * destruct (isArray projects).
        -- unfold ret. rewrite <- !app_assoc. reflexivity.
        -- unfold bind, console_error, emit, ret. cbn [files events].
           rewrite <- !app_assoc. reflexivity.
    + unfold bind, console_error, emit, ret. cbn [files events].
      rewrite <- !app_assoc. reflexivity.
  - unfold bind, console_error, emit, ret. cbn [files events].
    rewrite <- !app_assoc. reflexivity.
Qed.

End LoadMore.

(** X8.  [loadConfig] never changes a file.  Whatever goes wrong while
    loading is fatal: a file that cannot be read, a text that [JSON.parse]
    rejects and a document that is not an object ([null], a number, a
    string, a boolean, an array) each end the process with exit code 1,
    after one error line on [console.error].  A document that is returned
    is the parsed file as it is: nothing but the [projects] member has been
    looked at. *)
Theorem X8_load_errors_are_fatal (H : Host) (configPath : string)
    (w : World) :
  let run := loadConfig H configPath w in
  let started :=
    [ConsoleLog ("Loading config from: " +:+ configPath);
     ReadFile configPath] in
  let failed message :=
    ConsoleError (chalk H Red ("Error loading config file: " +:+ message)) in
  files (snd run) = files w
  /\ (files w !! configPath = None ->
      run = (ProcessExit 1,
             after w (started ++ [failed (read_error H configPath)])))
  /\ (forall content message,
        files w !! configPath = Some content ->
        JSON_parse H content = inr message ->
        run = (ProcessExit 1, after w (started ++ [failed message])))
  /\ (forall content config,
        files w !! configPath = Some content ->
        JSON_parse H content = inl config ->
        (forall members, config <> JObject members) ->
        fst run = ProcessExit 1
        /\ exists message, snd run = after w (started ++ [failed message]))
  /\ (forall loaded, fst run = Config loaded ->
        exists content,
          files w !! configPath = Some content
          /\ JSON_parse H content = inl loaded
          /\ snd run = after w started).
Proof.
  cbv zeta. rewrite loadConfig_run.
  split; [destruct (load_problem H configPath w); reflexivity|].
  unfold load_problem, load_started, load_error.
  split; [intros ->; reflexivity|].
  split; [intros content message -> ->; reflexivity|].
  split.
  - intros content config -> -> Hobj.
    destruct config as [| | | | |members];
      try (split; [reflexivity|eexists; reflexivity]).
    destruct (Hobj members eq_refl).
  - intros loaded.
    destruct (files w !! configPath) as [content|]; [|discriminate].
    destruct (JSON_parse H content) as [config|message] eqn:Ep;
      [|discriminate].
    destruct (get_projects config) as [u|projects]; [discriminate|].
    destruct (isArray projects); [|discriminate].
    intros [= <-]. exists content. auto.
Qed.

(** ** The whole call: loading, then the walk *)

Section WholeRun.

Context (H : Host).
Variable projectDir : string.
Variable values : Values.t.
Variable configPath : string.

(** A document that has the declared type passes the test of
    [loadConfig]. *)
Lemma decoded_has_projects document config :
  Decode.config document = Some config ->
  exists items, get_projects document = inr (Some (JArray items)).
Proof.
  destruct document as [| | | | |members]; try discriminate.
  unfold Decode.config, Decode.field. simpl.
  destruct (assoc "introMessage" members) as [j|]; [|discriminate].
  destruct (Decode.text j); [|discriminate]. simpl.
  destruct (assoc "projects" members) as [[| | | |items|]|];
    try discriminate.
  intros _. exists items. reflexivity.
Qed.

(** The call, step by step: a problem while loading ends it with exit
    code 1; else the document is walked, when it has the declared type. *)
Lemma setupEnvironment_run w :
  Entry.setupEnvironment H projectDir values configPath w =
  match load_problem H configPath w with
  | Some message =>
      (Exited 1,
       after w (load_started configPath ++ [load_error H message]))
  | None =>
      match files w !! configPath with
      | Some content =>
          match JSON_parse H content with
          | inl document =>
              match Decode.config document with
              | Some config =>
                  (Completed,
                   snd (setupEnvironment H config projectDir values
                          (after w (load_started configPath))))
              | None => (OutsideType, after w (load_started configPath))
              end
          | inr _ => (Exited 1, after w (load_started configPath))
          end
      | None => (Exited 1, after w (load_started configPath))
      end
  end.
Proof.
  unfold Entry.setupEnvironment. unfold bind at 1. rewrite loadConfig_run.
  destruct (load_problem H configPath w) as [message|]; [reflexivity|].
  destruct (files w !! configPath) as [content|]; [|reflexivity].
  destruct (JSON_parse H content) as [document|message]; [|reflexivity].
  destruct (Decode.config document) as [config|]; [|reflexivity].
  unfold bind, ret.
  destruct (setupEnvironment H config projectDir values
              (after w (load_started configPath))) as [u w'].
  reflexivity.
Qed.

(** The configuration a call walks: the file at [configPath] parsed and
    read at the declared type. *)
Definition walks (w : World) (config : SetupConfig.t) : Prop :=
  exists content document,
    files w !! configPath = Some content
    /\ JSON_parse H content = inl document
    /\ Decode.config document = Some config.

Lemma walks_loads w config :
  walks w config -> load_problem H configPath w = None.
Proof.
  intros (content & document & Hc & Hp & Hd). unfold load_problem.
  rewrite Hc, Hp. destruct (decoded_has_projects document config Hd)
    as [items ->]. reflexivity.
Qed.

(** The events of a call: those of the loading, then those of the walk,
    which are allowed events of the configuration walked. *)
Lemma setupEnvironment_events w :
  fst (Entry.setupEnvironment H projectDir values configPath w)
    <> OutsideType ->
  exists new,
    events (snd (Entry.setupEnvironment H projectDir values configPath w))
    = events w ++ ConsoleLog ("Loading config from: " +:+ configPath)
                  :: ReadFile configPath :: new
    /\ ((exists message, new = [load_error H message])
        \/ new = []
        \/ exists config,
             walks w config /\ Forall (allowed H config projectDir) new).
Proof.
  rewrite setupEnvironment_run.
  destruct (load_problem H configPath w) as [message|] eqn:Hl.
  { intros _. exists [load_error H message]. split; [reflexivity|].
    left. exists message. reflexivity. }
  destruct (files w !! configPath) as [content|] eqn:Hc;
    [|intros _; exists []; split; [reflexivity|right; left; reflexivity]].
  destruct (JSON_parse H content) as [document|message] eqn:Hp;
    [|intros _; exists []; split; [reflexivity|right; left; reflexivity]].
  destruct (Decode.config document) as [config|] eqn:Hd;
    [|intros Hn; exfalso; apply Hn; reflexivity].
  intros _.
  destruct (setupEnvironment_allowed H config values projectDir
              (after w (load_started configPath))) as (new & E & F).
  exists new. cbn [snd]. split.
  - rewrite E. unfold after, load_started. cbn [events].
    rewrite <- app_assoc. reflexivity.
  - right. right. exists config. split; [|exact F].
    exists content, document. auto.
Qed.

End WholeRun.

(** X4.  The files of a call of [setupEnvironment].  When the call does
    not leave the declared type, every file it reads or writes is the
    configuration file, which [loadConfig] reads, or the env file of a
    project of the configuration, at
    [path.join(projectDir, project.envFile)]. *)
Theorem X4_file_access_confined (H : Host) (projectDir : string)
    (values : Values.t) (configPath : string) (w : World) :
  let run := Entry.setupEnvironment H projectDir values configPath w in
  fst run <> OutsideType ->
  exists new,
    events (snd run) = events w ++ new
    /\ In (ReadFile configPath) new
    /\ forall path,
         (In (ReadFile path) new \/ exists content,
            In (WriteFile path content) new) ->
         path = configPath
         \/ exists config p,
              walks H configPath w config
              /\ In p (SetupConfig.projects config)
              /\ Js.truthy (Project.envFile p) = true
              /\ path = path_join H
                          [projectDir; default "" (Project.envFile p)].
Proof.
  cbv zeta. intros Htyped.
  destruct (setupEnvironment_events H projectDir values configPath w Htyped)
    as (new & E & Hnew).
  exists (ConsoleLog ("Loading config from: " +:+ configPath)
          :: ReadFile configPath :: new).
  split; [exact E|]. split; [right; left; reflexivity|].
  assert (Hin : forall e, In e new ->
            (forall path, e <> ReadFile path)
            /\ (forall path content, e <> WriteFile path content)
            \/ exists config, walks H configPath w config
                              /\ allowed H config projectDir e).
  { intros e He. destruct Hnew as [[message ->]|[->|(config & Hw & F)]].
    - destruct He as [<-|[]]. left. split; discriminate.
    - destruct He.
    - right. exists config. split; [exact Hw|].
      rewrite Forall_forall in F. apply F, list_elem_of_In, He. }
  intros path [Hr|[content Hw]].
  - destruct Hr as [Hr|[Hr|Hr]]; [discriminate|left; congruence|].
    destruct (Hin _ Hr) as [[Hno _]|(config & Hwalk & p & Hp & Ht & Hpath)].
    + destruct (Hno path eq_refl).
    + right. exists config, p. auto.
  - destruct Hw as [Hw|[Hw|Hw]]; [discriminate|discriminate|].
    destruct (Hin _ Hw) as [[_ Hno]|(config & Hwalk & p & Hp & Ht & Hpath)].
    + destruct (Hno path content eq_refl).
    + right. exists config, p. auto.
Qed.

(** X7.  When a project of the configuration lists the empty string among
    its [ignoreLogs] prefixes, the custom console lets nothing through: the
    one line a call of [setupEnvironment] prints with [console.log] is the
    line of [loadConfig], which does not go through the custom console. *)
Theorem X7_empty_prefix_silences_run (H : Host) (projectDir : string)
    (values : Values.t) (configPath : string) (w : World)
    (config : SetupConfig.t) (p : Project.t) (prefixes : list string) :
  walks H configPath w config ->
  In p (SetupConfig.projects config) ->
  Project.ignoreLogs p = Some prefixes -> In "" prefixes ->
  let run := Entry.setupEnvironment H projectDir values configPath w in
  fst run = Completed
  /\ exists new,
       events (snd run)
       = events w ++ ConsoleLog ("Loading config from: " +:+ configPath)
                     :: new
       /\ forall message, ~ In (ConsoleLog message) new.
Proof.
  intros Hwalk Hp Hl Hin. cbv zeta. rewrite setupEnvironment_run.
  rewrite (walks_loads H configPath w config Hwalk).
  destruct Hwalk as (content & document & -> & -> & ->). cbn [fst snd].
  split; [reflexivity|].
  destruct (setupEnvironment_allowed H config values projectDir
              (after w (load_started configPath))) as (new & E & F).
  exists (ReadFile configPath :: new). split.
  - rewrite E. unfold after, load_started. cbn [events].
    rewrite <- app_assoc. reflexivity.
  - rewrite Forall_forall in F. intros message [Hm|Hm]; [discriminate|].
    assert (Hi : ignored config message = true).
    { unfold ignored. apply existsb_exists. exists p. split; [exact Hp|].
      rewrite Hl. apply shouldIgnoreLog_empty_prefix. exact Hin. }
    pose proof (F (ConsoleLog message)) as Hf. simpl in Hf.
    rewrite Hf in Hi; [discriminate|]. apply list_elem_of_In. exact Hm.
Qed.

(** ** The lookup: what it returns and what it leaves alone *)

Section LookupMore.

Context (H : Host).
Variable projects : list Project.t.
Variable variable : EnvVariable.t.
Variable projectDir : string.

(** The events of a lookup: reads of files, runs of commands and error
    lines. *)
Definition lookup_event (e : Event) : Prop :=
  match e with
  | ReadFile _ | Exec _ _ | ConsoleError _ => True
  | _ => False
  end.

Definition no_exec (new : list Event) : Prop :=
  forall command cwd, ~ In (Exec command cwd) new.

Lemma no_exec_app n1 n2 : no_exec (n1 ++ n2) -> no_exec n1 /\ no_exec n2.
Proof.
  intros Hn. split; intros c d Hin; apply (Hn c d), in_or_app; auto.
Qed.

(** A lookup in one project adds lookup events only, and changes no file
    unless it runs a command. *)
Lemma read_project_reads project w :
  exists new,
    events (snd (read_project H project variable projectDir w))
      = events w ++ new
    /\ Forall lookup_event new
    /\ (no_exec new ->
        files (snd (read_project H project variable projectDir w))
          = files w).
Proof.
  unfold read_project.
  destruct (Js.truthy (Project.envFile project)).
  - unfold bind. rewrite getEnvFileValue_run.
    destruct (Js.truthy _); (eexists; split; [reflexivity|]; split;
      [repeat constructor|reflexivity]).
  - destruct (Js.truthy (Project.importCommand project)).
    + unfold import_value, bind, execSync.
      destruct (run_command H _ _ (files w)) as [[out|msg] fs].
      * destruct (Js.truthy_string _); (eexists; split; [reflexivity|]; split;
          [repeat constructor|]); intros Hn; exfalso;
          eapply Hn; left; reflexivity.
      * eexists. split; [simpl; rewrite <- app_assoc; reflexivity|].
        split; [repeat constructor|].
        intros Hn. exfalso. eapply Hn. left. reflexivity.
    + exists []. split; [simpl; rewrite app_nil_r; reflexivity|].
      split; [constructor|reflexivity].
Qed.

Lemma lookup_reads ids w :
  exists new,
    events (snd (getExistingValue_loop H projects variable projectDir ids w))
      = events w ++ new
    /\ Forall lookup_event new
    /\ (no_exec new ->
        files (snd (getExistingValue_loop H projects variable projectDir
                      ids w)) = files w).
Proof.
  revert w. induction ids as [|pid ids IH]; intros w; simpl.
  - exists []. rewrite app_nil_r. split; [reflexivity|].
    split; [constructor|reflexivity].
  - destruct (find_project projects pid) as [p|]; [|apply IH].
    unfold bind. destruct (read_project_reads p w) as (n1 & E1 & F1 & K1).
    destruct (read_project H p variable projectDir w) as [[v|] w1];
      cbn [snd] in *.
    + exists n1. auto.
    + destruct (IH w1) as (n2 & E2 & F2 & K2).
      exists (n1 ++ n2). split; [rewrite E2, E1, app_assoc; reflexivity|].
      split; [apply Forall_app; auto|].
      intros [Hn1 Hn2]%no_exec_app. rewrite (K2 Hn2). apply K1, Hn1.
Qed.

End LookupMore.

(** X9.  The lookup of an existing value is read-only.  The events it adds
    are reads of env files, runs of import commands and error lines: it
    writes no file, prints nothing with [console.log] and asks the operator
    nothing.  When it runs no command, the files are afterwards as they were
    before. *)
Theorem X9_lookup_is_read_only (H : Host) (projects : list Project.t)
    (variable : EnvVariable.t) (projectDir : string) (w : World) :
  let run := getExistingValue H projects variable projectDir w in
  exists new,
    events (snd run) = events w ++ new
    /\ Forall (fun e => match e with
                        | ReadFile _ | Exec _ _ | ConsoleError _ => True
                        | _ => False
                        end) new
    /\ ((forall command cwd, ~ In (Exec command cwd) new) ->
        files (snd run) = files w).
Proof.
  cbv zeta. unfold getExistingValue.
  destruct (lookup_reads H projects variable projectDir
              (EnvVariable.projects variable) w) as (new & E & F & K).
  exists new. auto.
Qed.

(** X10.  A value that the lookup returns is never the empty string, be it
    read from an env file or printed by an import command. *)
Theorem X10_found_value_not_empty (H : Host) (config : SetupConfig.t)
    (variable : EnvVariable.t) (projectDir : string) (w : World)
    (found : string) :
  fst (getExistingValue H (SetupConfig.projects config) variable projectDir w)
    = Some found ->
  found <> ""
  /\ forall values,
       computeDefault values variable (Some found) = Some found.
Proof.
  intros Hf. apply getExistingValue_truthy in Hf.
  split; [destruct found; [discriminate|discriminate]|].
  intros values. unfold computeDefault, Js.or_else. simpl. rewrite Hf.
  reflexivity.
Qed.

(** X11.  A project without an env file is read through its import command,
    run in [packages/backend] of the project directory.  The value is the
    trimmed output when that is not empty.  When the command throws, the
    error goes to [console.error] and the project counts as having no value;
    when the trimmed output is empty it counts as having none either.  In
    both cases the lookup goes on with the identifiers listed after it. *)
Theorem X11_import_command_read (H : Host) (projects : list Project.t)
    (variable : EnvVariable.t) (projectDir importCommand pid : string)
    (p : Project.t) (later : list string) (w : World)
    (result : ExecResult) (fs : gmap string string) :
  find_project projects pid = Some p ->
  Js.truthy (Project.envFile p) = false ->
  Project.importCommand p = Some importCommand -> importCommand <> "" ->
  let command :=
    string_replace H importCommand "{{name}}" (EnvVariable.name variable) in
  let cwd := path_join H [projectDir; "packages"; "backend"] in
  run_command H command cwd (files w) = (result, fs) ->
  let ran := {| files := fs; events := events w ++ [Exec command cwd] |} in
  let loop := getExistingValue_loop H projects variable projectDir in
  match result with
  | ExecReturned stdout =>
      if Js.truthy_string (string_trim H stdout)
      then loop (pid :: later) w = (Some (string_trim H stdout), ran)
      else loop (pid :: later) w = loop later ran
  | ExecThrew message =>
      loop (pid :: later) w =
      loop later (after ran [ConsoleError (chalk H Red ("Error: " +:+ message))])
  end.
Proof.
  intros Hf He Hi Hne. cbv zeta. intros Hrun.
  assert (Ht : Js.truthy (Project.importCommand p) = true).
  { rewrite Hi. destruct importCommand; [congruence|reflexivity]. }
  simpl. rewrite Hf. unfold bind at 1. unfold read_project.
  rewrite He, Ht, Hi. change (default "" (Some importCommand)) with importCommand.
  unfold import_value, bind, execSync, backend_dir. rewrite Hrun.
  destruct result as [stdout|message].
  - destruct (Js.truthy_string (string_trim H stdout)); reflexivity.
  - reflexivity.
Qed.

(** ** Writing: failures, the report and the file that is written *)

(** X12.  A project without an env file never yields a file to report:
    [updateProjectValue] returns [undefined].  With an export command, the
    command is run in [packages/backend] with the name and the value put
    in; when it throws, two error lines go to [console.error] and nothing
    else happens, so the projects listed after it are still written.
    Without an export command nothing happens at all. *)
Theorem X12_export_failure_is_contained (H : Host) (p : Project.t)
    (key value projectDir : string) (w : World) :
  Js.truthy (Project.envFile p) = false ->
  let command :=
    string_replace H
      (string_replace H (default "" (Project.exportCommand p))
         "{{name}}" key)
      "{{value}}" value in
  let cwd := path_join H [projectDir; "packages"; "backend"] in
  let out := run_command H command cwd (files w) in
  let ran := {| files := snd out; events := events w ++ [Exec command cwd] |} in
  updateProjectValue H p key value projectDir w =
  (None,
   if Js.truthy (Project.exportCommand p) then
     match fst out with
     | ExecReturned _ => ran
     | ExecThrew message =>
         after ran
           [ConsoleError ("Failed to export value for " +:+ key +:+ " to "
                          +:+ Project.id p);
            ConsoleError ("Error: " +:+ message)]
     end
   else w).
Proof.
  intros He. cbv zeta. unfold updateProjectValue. rewrite He.
  destruct (Js.truthy (Project.exportCommand p)); [|reflexivity].
  unfold export_value, execSync, backend_dir.
  unfold bind at 1 2.
  destruct (run_command H _ _ (files w)) as [[stdout|message] fs];
    cbn [fst snd].
  - reflexivity.
  - unfold bind, console_error, emit, ret, after. cbn [files events].
    rewrite <- app_assoc. reflexivity.
Qed.

(** ** The report after writing *)

Lemma seen_until_cons throws before e rest :
  (forall path content,
     e = WriteFile path content -> throws before path content = false) ->
  seen_until throws before (e :: rest)
  = e :: seen_until throws (before ++ [e]) rest.
Proof.
  intros Hn. destruct e; simpl; try reflexivity.
  rewrite (Hn _ _ eq_refl). reflexivity.
Qed.

(** Whichever writes throw, what is seen of [n1 ++ n2], where [n2] holds no
    write, is all of it, or ends inside [n1] at the first write that
    throws. *)
Lemma seen_until_cut throws before n1 n2 :
  Forall (fun e => ~ is_write e) n2 ->
  seen_until throws before (n1 ++ n2) = n1 ++ n2
  \/ exists pre path content post,
       n1 = pre ++ WriteFile path content :: post
       /\ throws (before ++ pre) path content = true
       /\ seen_until throws before (n1 ++ n2)
          = pre ++ [WriteFile path content].
Proof.
  intros Hn2. revert before. induction n1 as [|e n1 IH]; intros before.
  - left. pose proof (seen_until_app throws before n2 [] Hn2) as G.
    rewrite app_nil_r in G. cbn [seen_until] in G. rewrite app_nil_r in G.
    exact G.
  - assert (Hcase : (exists path content,
                       e = WriteFile path content
                       /\ throws before path content = true)
                    \/ forall path content,
                         e = WriteFile path content ->
                         throws before path content = false).
    { destruct e as [m|m|p|p c|cmd cwd|m a|m d a];
        try (right; intros; discriminate).
      destruct (throws before p c) eqn:Et.
      - left. exists p, c. split; [reflexivity|exact Et].
      - right. intros path content [= <- <-]. exact Et. }
    destruct Hcase as [(p & c & -> & Et)|Hn].
    + right. exists [], p, c, n1. rewrite app_nil_r.
      split; [reflexivity|]. split; [exact Et|].
      simpl. rewrite Et. reflexivity.
    + rewrite <- app_comm_cons, (seen_until_cons _ _ _ _ Hn).
      destruct (IH (before ++ [e]))
        as [Hall|(pre & p & c & post & -> & Ht & Hs)].
      * left. rewrite Hall. reflexivity.
      * right. exists (e :: pre), p, c, post. rewrite <- app_assoc in Ht.
        split; [reflexivity|]. split; [exact Ht|].
        rewrite Hs. reflexivity.
Qed.

Section Report.

Context (H : Host).
Variable config : SetupConfig.t.
Variable projectDir : string.

(** The path [updateProjectValue] reports for a project with an env file:
    [path.relative(process.cwd(), path.join(projectDir, project.envFile))]. *)
Definition relative_env_path (p : Project.t) : string :=
  path_relative H (process_cwd H) (env_path H projectDir p).

(** The files a variable is reported in: one for each listed identifier
    that names a project with an env file, in the order of the list. *)
Fixpoint reported_files (ids : list string) : list string :=
  match ids with
  | [] => []
  | pid :: rest =>
      match find_project (SetupConfig.projects config) pid with
      | Some p =>
          if Js.truthy (Project.envFile p)
             && Js.truthy_string (relative_env_path p)
          then relative_env_path p :: reported_files rest
          else reported_files rest
      | None => reported_files rest
      end
  end.

(** The lines of the report, before the custom console filters them. *)
Definition report_lines (variable : EnvVariable.t) (listed : list string)
  : list string :=
  match listed with
  | [] => [chalk H Green ("✅ Set " +:+ EnvVariable.name variable)]
  | _ :: _ =>
      chalk H Green ("✅ Set " +:+ EnvVariable.name variable +:+ " in:")
      :: map (fun file => chalk H Green ("   - " +:+ file)) listed
  end.

(** What the custom console prints of some lines. *)
Definition printed_of (lines : list string) : list Event :=
  map ConsoleLog
    (List.filter (fun message => negb (ignored config message)) lines).

Lemma updateProjectValue_result p key value w :
  fst (updateProjectValue H p key value projectDir w) =
  if Js.truthy (Project.envFile p) then Some (relative_env_path p) else None.
Proof.
  unfold updateProjectValue, relative_env_path, env_path.
  destruct (Js.truthy (Project.envFile p)).
  - unfold bind. destruct (updateEnvFile _ _ _ w). reflexivity.
  - destruct (Js.truthy (Project.exportCommand p)); [|reflexivity].
    unfold bind. destruct (export_value H p _ key value projectDir w).
    reflexivity.
Qed.

Lemma write_projects_result variable value ids acc w :
  fst (write_projects H config variable value projectDir ids acc w)
  = acc ++ reported_files ids.
Proof.
  revert acc w. induction ids as [|pid ids IH]; intros acc w; simpl.
  - rewrite app_nil_r. reflexivity.
  - destruct (find_project _ pid) as [p|]; [|apply IH].
    unfold bind.
    pose proof (updateProjectValue_result p (EnvVariable.name variable)
                  value w) as Hr.
    destruct (updateProjectValue H p _ value projectDir w) as [u w1].
    cbn [fst] in Hr. subst u. rewrite IH.
    destruct (Js.truthy (Project.envFile p)); simpl; [|reflexivity].
    destruct (Js.truthy_string (relative_env_path p)); simpl;
      [|reflexivity].
    rewrite <- app_assoc. reflexivity.
Qed.

Lemma for_each_log_run (line : string -> string) fs w :
  for_each fs (fun file => customConsole_log config (line file)) w
  = (tt, after w (printed_of (map line fs))).
Proof.
  revert w. induction fs as [|f fs IH]; intros w.
  - simpl. unfold ret, after, printed_of. simpl. rewrite app_nil_r.
    destruct w; reflexivity.
  - simpl. unfold bind. rewrite customConsole_log_run, IH.
    unfold after, printed_of. simpl.
    destruct (ignored config (line f)); simpl.
    + rewrite app_nil_r. reflexivity.
    + rewrite <- app_assoc. reflexivity.
Qed.

Lemma report_set_run variable listed w :
  report_set H config variable listed w
  = (tt, after w (printed_of (report_lines variable listed))).
Proof.
  unfold report_set, report_lines. destruct listed as [|f fs].
  - simpl. rewrite customConsole_log_run. unfold printed_of. simpl.
    destruct (ignored config _); reflexivity.
  - cbn [length Nat.ltb Nat.leb]. unfold bind.
    rewrite customConsole_log_run.
    rewrite (for_each_log_run (fun file => chalk H Green ("   - " +:+ file))).
    unfold after, printed_of. cbn [files events map List.filter].
    destruct (ignored config (chalk H Green _)); cbn [negb app map];
      rewrite ?app_nil_r, <- ?app_assoc; reflexivity.
Qed.

Lemma printed_of_no_write lines :
  Forall (fun e => ~ is_write e) (printed_of lines).
Proof.
  unfold printed_of. apply Forall_map. apply Forall_forall.
  intros m _. simpl. tauto.
Qed.

End Report.

(** X13.  The report of a variable that is written.  The write loop, when
    it completes, returns the relative paths of the env files of the listed
    projects that have one, in the order of the list.  The report is made
    from this list: the line [Set NAME in:] and one line for each file, or
    the plain line [Set NAME] when there is no file; each line goes through
    the custom console, which prints it unless an [ignoreLogs] prefix
    starts it.  Whichever writes throw, either all of this is seen, or
    what is seen ends at the first write that throws, before any report. *)
Theorem X13_reported_files (H : Host) (config : SetupConfig.t)
    (variable : EnvVariable.t) (value projectDir : string) (w : World) :
  accepted variable value = true ->
  let written :=
    write_projects H config variable value projectDir
      (EnvVariable.projects variable) [] w in
  let listed :=
    reported_files H config projectDir (EnvVariable.projects variable) in
  let report := printed_of config (report_lines H variable listed) in
  exists writes,
    events (snd written) = events w ++ writes
    /\ fst written = listed
    /\ events (snd (persistValue H config variable value projectDir w))
       = events w ++ writes ++ report
    /\ forall throws,
         seen_until throws (events w) (writes ++ report) = writes ++ report
         \/ exists pre path content post,
              writes = pre ++ WriteFile path content :: post
              /\ throws (events w ++ pre) path content = true
              /\ seen_until throws (events w) (writes ++ report)
                 = pre ++ [WriteFile path content].
Proof.
  intros Ha. cbv zeta.
  pose proof (write_projects_result H config projectDir variable value
                (EnvVariable.projects variable) [] w) as Hr.
  cbn [app] in Hr.
  destruct (write_projects_silent H config variable value projectDir
              (EnvVariable.projects variable) [] w) as (writes & E & _).
  exists writes. split; [exact E|]. split; [exact Hr|]. split.
  - unfold persistValue. rewrite Ha. unfold bind.
    destruct (write_projects H config variable value projectDir
                (EnvVariable.projects variable) [] w) as [fs w1].
    cbn [fst snd] in *. subst fs. rewrite report_set_run.
    unfold after. cbn [snd events]. rewrite E, app_assoc. reflexivity.
  - intros throws. apply seen_until_cut. apply printed_of_no_write.
Qed.

(** ** The env file that [updateEnvFile] leaves *)

Lemma set_keys_nodup key value e :
  NoDup (map fst e) -> NoDup (map fst (Dotenv.set key value e)).
Proof.
  intros Hnd. rewrite keys_set. destruct (Dotenv.get e key) eqn:E;
    [exact Hnd|].
  apply get_none_not_in in E. apply NoDup_app. split; [exact Hnd|]. split.
  - intros x Hx [->|[]]%list_elem_of_In. apply E, list_elem_of_In, Hx.
  - apply NoDup_singleton.
Qed.

(** X14.  [updateEnvFile] reads the file once and writes it once, and
    changes no other file.  What it writes is one line [KEY=VALUE] for each
    binding of the object, joined by line feeds, in the order in which
    [Object.entries] lists the bindings: first the keys that are array
    indices, in ascending order, then the other keys in the order of their
    creation.  The bindings are those of the parsed old content with the
    key set to the value: no key twice, every other key with its old
    value.  A key that was not bound and is no array index gets the last
    line, after the lines of the old bindings.  A key is an array index
    exactly when it is the decimal text of a number below [2^32 - 1]. *)
Theorem X14_updateEnvFile_text (filePath key value : string) (w : World) :
  let old := Dotenv.parse (default "" (files w !! filePath)) in
  let new := Dotenv.set key value old in
  let listed := Dotenv.entries new in
  let w' := snd (updateEnvFile filePath key value w) in
  files w' !! filePath = Some (Dotenv.join (map Dotenv.line_of listed))
  /\ (listed = map snd (Dotenv.index_entries new) ++ Dotenv.named_entries new
      /\ Forall indexed (Dotenv.index_entries new)
      /\ ascending (Dotenv.index_entries new)
      /\ Forall named (Dotenv.named_entries new))
  /\ Permutation listed new
  /\ NoDup (map fst listed)
  /\ Dotenv.get listed key = Some value
  /\ (forall other, other <> key ->
        Dotenv.get listed other = Dotenv.get old other)
  /\ (Dotenv.get old key = None -> Dotenv.index_of key = None ->
      listed = Dotenv.entries old ++ [(key, value)])
  /\ (forall k n,
        Dotenv.index_of k = Some n <-> k = pretty n /\ (n < 4294967295)%N)
  /\ (forall path, path <> filePath -> files w' !! path = files w !! path)
  /\ events w' =
       events w ++ [ReadFile filePath;
                    WriteFile filePath
                      (Dotenv.join (map Dotenv.line_of listed))].
Proof.
  cbv zeta. rewrite updateEnvFile_run. cbn [snd files events].
  rewrite lookup_insert_eq. unfold updated, Dotenv.serialize.
  assert (Hnd : NoDup (map fst
                         (Dotenv.set key value
                            (Dotenv.parse
                               (default "" (files w !! filePath))))))
    by (apply set_keys_nodup, parse_well_formed).
  split; [reflexivity|].
  split.
  { split; [reflexivity|].
    auto using index_entries_indexed, index_entries_ascending,
               named_entries_named. }
  split; [apply entries_perm|].
  split.
  { rewrite (Permutation_map fst (entries_perm _)). exact Hnd. }
  split.
  { rewrite get_entries by exact Hnd. apply get_set_same. }
  split.
  { intros other Hne. rewrite get_entries by exact Hnd.
    apply get_set_other, Hne. }
  split; [apply entries_set_new|].
  split; [apply index_of_spec|].
  split; [|reflexivity].
  intros path Hne. rewrite lookup_insert_ne by congruence. reflexivity.
Qed.

(** X15.  With env files in the format of plain [KEY=VALUE] lines: after
    [updateEnvFile] has set a key (not empty, without [=] and line feed) to
    a value (without line feed), [getEnvFileValue] reads that value for the
    key, and reads for every other key what it read before. *)
Theorem X15_updateEnvFile_read_back (filePath key value : string)
    (w : World) :
  clean_key key -> clean_value value ->
  let w' := snd (updateEnvFile filePath key value w) in
  fst (getEnvFileValue filePath key w') = Some value
  /\ forall other, other <> key ->
       fst (getEnvFileValue filePath other w')
       = fst (getEnvFileValue filePath other w).
Proof.
  intros Hk Hv. cbv zeta.
  destruct (updateEnvFile_read_back filePath key value w Hk Hv) as [Hs Ho].
  rewrite !getEnvFileValue_run. cbn [fst]. split; [exact Hs|].
  intros other Hne. rewrite !getEnvFileValue_run. cbn [fst].
  apply (Ho other Hne).
Qed.

Lemma X15_updateEnvFile_read_back_witness :
  let w := Sample.world {[ "svc.env" := "A=1" +:+ String Js.newline "B=2" ]} in
  let w' := snd (updateEnvFile "svc.env" "B" "two words" w) in
  fst (getEnvFileValue "svc.env" "B" w') = Some "two words"
  /\ fst (getEnvFileValue "svc.env" "A" w') = Some "1".
Proof.
  cbv zeta.
  destruct (X15_updateEnvFile_read_back "svc.env" "B" "two words"
              (Sample.world
                 {[ "svc.env" := "A=1" +:+ String Js.newline "B=2" ]}))
    as [Hb Ha].
  - repeat split; discriminate || reflexivity.
  - reflexivity.
  - split; [exact Hb|]. rewrite (Ha "A"); [|discriminate].
    vm_compute. reflexivity.
Defined.

Lemma updated_twice key value old :
  clean_key key -> clean_value value ->
  updated key value (Some (updated key value old)) = updated key value old.
Proof.
  intros Hk Hv. unfold updated at 1.
  change (default "" (Some (updated key value old)))
    with (updated key value old).
  unfold updated at 1.
  assert (Hwf : well_formed
                  (Dotenv.set key value (Dotenv.parse (default "" old))))
    by (apply set_well_formed; [apply parse_well_formed|split; assumption]).
  rewrite parse_serialize by exact Hwf.
  rewrite set_same
    by (rewrite get_entries by apply Hwf; apply get_set_same).
  unfold Dotenv.serialize. rewrite entries_entries. reflexivity.
Qed.

(** X16.  In the same format, setting a key to the value it was just set to
    changes nothing: a second [updateEnvFile] with the same key and value
    writes the text that is already there. *)
Theorem X16_updateEnvFile_idempotent (filePath key value : string)
    (w : World) :
  clean_key key -> clean_value value ->
  let w1 := snd (updateEnvFile filePath key value w) in
  let w2 := snd (updateEnvFile filePath key value w1) in
  files w2 = files w1.
Proof.
  intros Hk Hv. cbv zeta. rewrite !updateEnvFile_run. cbn [snd files].
  rewrite lookup_insert_eq, updated_twice by assumption.
  apply insert_insert_eq.
Qed.

Lemma X16_updateEnvFile_idempotent_witness :
  let w := Sample.world {[ "svc.env" := "A=1" ]} in
  let w1 := snd (updateEnvFile "svc.env" "TOKEN" "abc123" w) in
  files (snd (updateEnvFile "svc.env" "TOKEN" "abc123" w1)) = files w1.
Proof.
  apply (X16_updateEnvFile_idempotent "svc.env" "TOKEN" "abc123"
           (Sample.world {[ "svc.env" := "A=1" ]})).
  - repeat split; discriminate || reflexivity.
  - reflexivity.
Defined.

(** ** Written, then found *)

Section WrittenThenFound.

Context (H : Host).
Variable config : SetupConfig.t.
Variable variable : EnvVariable.t.
Variable value projectDir : string.

Hypothesis clean_name : clean_key (EnvVariable.name variable).
Hypothesis clean_text : clean_value value.

#[local] Abbreviation name := (EnvVariable.name variable).

Lemma bound_after w new path key :
  bound (after w new) path key = bound w path key.
Proof. reflexivity. Qed.

(** One write to a project with an env file binds the name in that file
    and keeps the binding wherever it was. *)
Lemma update_binds p w :
  Js.truthy (Project.envFile p) = true ->
  let w1 := snd (updateProjectValue H p name value projectDir w) in
  bound w1 (env_path H projectDir p) name = Some value
  /\ forall path, bound w path name = Some value ->
       bound w1 path name = Some value.
Proof.
  intros Ht. cbv zeta. rewrite updateProjectValue_file_backed by exact Ht.
  cbv zeta. cbn [snd].
  assert (Hp : Dotenv.get
                 (Dotenv.parse
                    (updated name value
                       (files w !! env_path H projectDir p))) name
               = Some value).
  { unfold updated. rewrite get_parse_serialize
      by (apply set_well_formed; [apply parse_well_formed|split; assumption]).
    apply get_set_same. }
  unfold bound. cbn [files]. split.
  - rewrite lookup_insert_eq. exact Hp.
  - intros path Hb.
    destruct (decide (env_path H projectDir p = path)) as [<-|Hne].
    + rewrite lookup_insert_eq. exact Hp.
    + rewrite lookup_insert_ne by exact Hne. exact Hb.
Qed.

Lemma write_projects_binds ids acc w :
  (forall pid p, In pid ids ->
     find_project (SetupConfig.projects config) pid = Some p ->
     Js.truthy (Project.envFile p) = true) ->
  let w' := snd (write_projects H config variable value projectDir ids
                   acc w) in
  (forall path, bound w path name = Some value ->
     bound w' path name = Some value)
  /\ (forall pid p, In pid ids ->
        find_project (SetupConfig.projects config) pid = Some p ->
        bound w' (env_path H projectDir p) name = Some value).
Proof.
  revert acc w. induction ids as [|pid ids IH]; intros acc w Hfb; cbv zeta.
  - simpl. split; [auto|]. intros ? ? [].
  - simpl. destruct (find_project _ pid) as [p|] eqn:Hf.
    + unfold bind.
      destruct (update_binds p w (Hfb pid p (or_introl eq_refl) Hf))
        as [Hp Hkeep].
      destruct (updateProjectValue H p name value projectDir w) as [u w1].
      cbn [snd] in Hp, Hkeep.
      destruct (IH (if Js.truthy u then acc ++ [default "" u] else acc) w1)
        as [Hk2 Hb2].
      { intros q p' Hq. apply Hfb. right. exact Hq. }
      split.
      * intros path Hb. apply Hk2, Hkeep, Hb.
      * intros q p' [<-|Hin] Hq.
        -- rewrite Hf in Hq. injection Hq as <-. apply Hk2, Hp.
        -- eapply Hb2; eassumption.
    + destruct (IH acc w) as [Hk2 Hb2].
      { intros q p' Hq. apply Hfb. right. exact Hq. }
      split; [exact Hk2|].
      intros q p' [<-|Hin] Hq; [congruence|]. eapply Hb2; eassumption.
Qed.

Lemma lookup_finds ids w :
  Js.truthy_string value = true ->
  (forall pid p, In pid ids ->
     find_project (SetupConfig.projects config) pid = Some p ->
     Js.truthy (Project.envFile p) = true
     /\ bound w (env_path H projectDir p) name = Some value) ->
  (exists pid p, In pid ids
     /\ find_project (SetupConfig.projects config) pid = Some p) ->
  fst (getExistingValue_loop H (SetupConfig.projects config) variable
         projectDir ids w) = Some value.
Proof.
  intros Hv. induction ids as [|pid ids IH]; intros Hall Hex.
  - destruct Hex as (q & p & [] & _).
  - simpl. destruct (find_project _ pid) as [p|] eqn:Hf.
    + destruct (Hall pid p (or_introl eq_refl) Hf) as [Ht Hb].
      unfold bind. rewrite read_project_file_backed by exact Ht.
      cbv zeta. rewrite Hb. cbn [Js.truthy]. rewrite Hv. reflexivity.
    + apply IH.
      * intros q p' Hq. apply Hall. right. exact Hq.
      * destruct Hex as (q & p' & [<-|Hin] & Hq); [congruence|eauto].
Qed.

Lemma customConsole_log_files message w :
  files (snd (customConsole_log config message w)) = files w.
Proof. rewrite customConsole_log_run. reflexivity. Qed.

Lemma for_each_log_files (line : string -> string) fs w :
  files (snd (for_each fs (fun file => customConsole_log config (line file))
                w)) = files w.
Proof.
  revert w. induction fs as [|f fs IHf]; intros w; [reflexivity|].
  simpl. unfold bind. rewrite customConsole_log_run. rewrite IHf.
  reflexivity.
Qed.

Lemma report_set_files updatedFiles w :
  files (snd (report_set H config variable updatedFiles w)) = files w.
Proof.
  unfold report_set. destruct (Nat.ltb 0 (length updatedFiles));
    [|apply customConsole_log_files].
  unfold bind. rewrite customConsole_log_run.
  rewrite (for_each_log_files (fun file => chalk H Green ("   - " +:+ file))).
  reflexivity.
Qed.

End WrittenThenFound.

(** X17.  In the format of plain [KEY=VALUE] lines, what is written is found
    again.  Take a variable whose listed projects, as far as the
    configuration knows them, all have an env file, and at least one is
    known.  After [persistValue] has written a value that is not empty (the
    name without [=] and line feed, the value without line feed), the lookup
    of the existing value returns that value: a second run offers what the
    first run wrote. *)
Theorem X17_written_value_is_found (H : Host) (config : SetupConfig.t)
    (variable : EnvVariable.t) (value projectDir : string) (w : World) :
  clean_key (EnvVariable.name variable) -> clean_value value ->
  value <> "" ->
  (forall pid p, In pid (EnvVariable.projects variable) ->
     find_project (SetupConfig.projects config) pid = Some p ->
     Js.truthy (Project.envFile p) = true) ->
  (exists pid p, In pid (EnvVariable.projects variable)
     /\ find_project (SetupConfig.projects config) pid = Some p) ->
  let w' := snd (persistValue H config variable value projectDir w) in
  fst (getExistingValue H (SetupConfig.projects config) variable projectDir
         w') = Some value.
Proof.
  intros Hk Hv Hne Hfb Hex. cbv zeta.
  assert (Ht : Js.truthy_string value = true)
    by (destruct value; [congruence|reflexivity]).
  unfold persistValue, accepted. rewrite Ht. cbn [orb]. unfold bind.
  destruct (write_projects_binds H config variable value projectDir Hk Hv
              (EnvVariable.projects variable) [] w Hfb) as [_ Hb].
  destruct (write_projects H config variable value projectDir
              (EnvVariable.projects variable) [] w) as [fs w1].
  cbn [snd] in Hb. unfold getExistingValue.
  apply lookup_finds; [exact Ht| |exact Hex].
  intros pid p Hin Hf. split; [eapply Hfb; eassumption|].
  unfold bound. rewrite report_set_files. apply (Hb pid p Hin Hf).
Qed.

Lemma X17_written_value_is_found_witness :
  let config := Sample.config [Sample.web; Sample.api] [] in
  let variable :=
    Sample.variable "SITE_URL" ["web"; "ghost"; "api"] None None None in
  let w' := snd (persistValue Sample.quiet config variable
                   "http://localhost:3001" "/p"
                   (Sample.world {[ "/p/apps/web/.env" := "OTHER=1" ]})) in
  fst (getExistingValue Sample.quiet (SetupConfig.projects config) variable
         "/p" w') = Some "http://localhost:3001".
Proof.
  apply (X17_written_value_is_found Sample.quiet
           (Sample.config [Sample.web; Sample.api] [])
           (Sample.variable "SITE_URL" ["web"; "ghost"; "api"] None None None)
           "http://localhost:3001" "/p"
           (Sample.world {[ "/p/apps/web/.env" := "OTHER=1" ]})).
  - repeat split; discriminate || reflexivity.
  - reflexivity.
  - discriminate.
  - intros pid p [<-|[<-|[<-|[]]]]; vm_compute; intros Hf;
      try discriminate; injection Hf as <-; reflexivity.
  - exists "web", Sample.web. split; [left; reflexivity|reflexivity].
Defined.

Module UrlFacts.

Import Url.

Lemma strip_prefix_some p s r :
  strip_prefix p s = Some r -> s = p +:+ r.
Proof.
  revert s. induction p as [|a p IH]; intros s; simpl.
  - intros [= ->]. reflexivity.
  - destruct s as [|b s]; [discriminate|].
    destruct (Ascii.eqb_spec a b) as [->|]; [|discriminate].
    intros Hs. rewrite (IH s Hs). reflexivity.
Qed.

(** What [skip_space] drops stands at the head of the text. *)
Lemma skip_space_suffix s : exists ws, s = ws +:+ skip_space s.
Proof.
  remember (String.length s) as n eqn:Hn. revert s Hn.
  induction n as [n IH] using lt_wf_ind. intros s Hn.
  destruct s as [|a t]; [exists ""; reflexivity|].
  cbn [skip_space]. destruct (space1 a).
  { destruct (IH (String.length t)) with (s := t) as [ws Hw];
      [simpl in Hn; lia|reflexivity|].
    exists (String a ws). rewrite JsFacts.append_cons, <- Hw. reflexivity. }
  destruct t as [|b t']; [exists ""; reflexivity|].
  destruct (space2 a b).
  { destruct (IH (String.length t')) with (s := t') as [ws Hw];
      [simpl in Hn; lia|reflexivity|].
    exists (String a (String b ws)).
    rewrite !JsFacts.append_cons, <- Hw. reflexivity. }
  destruct t' as [|c t'']; [exists ""; reflexivity|].
  destruct (space3 a b c); [|exists ""; reflexivity].
  destruct (IH (String.length t'')) with (s := t'') as [ws Hw];
    [simpl in Hn; lia|reflexivity|].
  exists (String a (String b (String c ws))).
  rewrite !JsFacts.append_cons, <- Hw. reflexivity.
Qed.

Lemma span_unquoted_spec s :
  s = fst (span_unquoted s) +:+ snd (span_unquoted s)
  /\ has quote (fst (span_unquoted s)) = false.
Proof.
  induction s as [|c t [IH1 IH2]]; simpl; [split; reflexivity|].
  destruct (Ascii.eqb c quote) eqn:E; [split; reflexivity|].
  destruct (span_unquoted t) as [run rest]. simpl in *.
  rewrite JsFacts.append_cons, <- IH1. split; [reflexivity|].
  rewrite E. exact IH2.
Qed.

Lemma span_unquoted_rest s run d rest :
  span_unquoted s = (run, String d rest) -> d = quote.
Proof.
  revert run. induction s as [|x s IH]; intros run; simpl; [discriminate|].
  destruct (Ascii.eqb_spec x quote) as [->|_].
  - intros [= _ -> _]. reflexivity.
  - destruct (span_unquoted s) as [r' rest']. intros [= _ ->].
    eapply IH. reflexivity.
Qed.

(** A match at the head: the group starts with [https://], goes on with at
    least one character, holds no double quote, and stands in the text
    between double quotes. *)
Lemma match_url_some s url :
  match_url s = Some url ->
  exists run,
    url = "https://" +:+ run /\ run <> "" /\ has quote run = false
    /\ exists before rest,
         s = before +:+ String quote (url +:+ String quote rest).
Proof.
  unfold match_url.
  destruct (strip_prefix url_key s) as [s1|] eqn:E1; [|discriminate].
  destruct (strip_prefix ":" (skip_space s1)) as [s2|] eqn:E2;
    [|discriminate].
  destruct (strip_prefix (String quote "https://") (skip_space s2))
    as [s3|] eqn:E3; [|discriminate].
  pose proof (span_unquoted_spec s3) as [Hs3 Hq].
  destruct (span_unquoted s3) as [[|c run] [|d rest]] eqn:E4;
    try discriminate.
  intros [= <-]. cbn [fst snd] in *.
  apply span_unquoted_rest in E4 as ->.
  exists (String c run). split; [reflexivity|]. split; [discriminate|].
  split; [exact Hq|].
  apply strip_prefix_some in E1, E2, E3.
  destruct (skip_space_suffix s1) as [ws1 H1].
  destruct (skip_space_suffix s2) as [ws2 H2].
  exists (url_key +:+ ws1 +:+ ":" +:+ ws2), rest.
  rewrite E1, H1, E2, H2, E3, Hs3.
  rewrite !JsFacts.append_assoc. reflexivity.
Qed.

Lemma find_url_some s url :
  find_url s = Some url ->
  exists run,
    url = "https://" +:+ run /\ run <> "" /\ has quote run = false
    /\ exists before rest,
         s = before +:+ String quote (url +:+ String quote rest).
Proof.
  induction s as [|x s IH].
  - discriminate.
  - cbn [find_url]. destruct (match_url (String x s)) eqn:E.
    + intros [= <-]. apply match_url_some, E.
    + intros Hf. destruct (IH Hf) as (run & Hu & Hne & Hq & b & r & Hs).
      exists run. repeat split; try assumption.
      exists (String x b), r. rewrite Hs. reflexivity.
Qed.

Lemma site_url_https run :
  site_url ("https://" +:+ run)
  = "https://" +:+ Sample.replace_first run "convex.cloud" "convex.site".
Proof. reflexivity. Qed.

End UrlFacts.

Section ConvexUrlsFacts.

Context (H : Host).
Variable existsSync : string -> bool.
Variable projectDir : string.

#[local] Abbreviation convexDir :=
  (path_join H [projectDir; "packages"; "backend"]).

(** What a run of [getConvexUrls] returns, case by case. *)
Lemma getConvexUrls_result w :
  fst (getConvexUrls H existsSync projectDir w) =
  if negb (existsSync convexDir) then UrlsExit 1
  else
    match fst (run_command H function_spec convexDir (files w)) with
    | ExecThrew _ => UrlsExit 1
    | ExecReturned output =>
        match Url.find_url (string_trim H output) with
        | Some convexUrl =>
            Urls {| Values.convexUrl := convexUrl;
                    Values.convexSiteUrl := site_url convexUrl |}
        | None => UrlsExit 1
        end
    end.
Proof.
  unfold getConvexUrls. destruct (negb (existsSync convexDir));
    [reflexivity|].
  unfold bind at 1 2. unfold console_log, emit, execSync.
  cbn [fst snd files events].
  destruct (run_command H function_spec convexDir (files w))
    as [[output|message] fs]; cbn [fst]; [|reflexivity].
  unfold bind at 1 2. cbn [fst snd].
  destruct (Url.find_url (string_trim H output)); reflexivity.
Qed.

End ConvexUrlsFacts.

(** X18.  When [getConvexUrls] returns, the URL it returns as [convexUrl]
    starts with [https://], goes on with at least one character, holds no
    double quote, and stands between double quotes in the trimmed output of
    [npx convex function-spec].  The [convexSiteUrl] is the same URL with
    its first [convex.cloud] replaced by [convex.site]; it starts with
    [https://] too.  Neither URL is empty. *)
Theorem X18_retrieved_urls (H : Host) (existsSync : string -> bool)
    (projectDir : string) (w : World) (values : Values.t) :
  fst (getConvexUrls H existsSync projectDir w) = Urls values ->
  exists run output,
    Values.convexUrl values = "https://" +:+ run
    /\ run <> "" /\ has Url.quote run = false
    /\ Values.convexSiteUrl values =
         "https://" +:+ Sample.replace_first run "convex.cloud" "convex.site"
    /\ fst (run_command H function_spec
              (path_join H [projectDir; "packages"; "backend"]) (files w))
       = ExecReturned output
    /\ (exists before rest,
          string_trim H output =
          before +:+ String Url.quote
                       (Values.convexUrl values +:+ String Url.quote rest))
    /\ Values.convexUrl values <> "" /\ Values.convexSiteUrl values <> "".
Proof.
  rewrite getConvexUrls_result.
  destruct (negb (existsSync _)); [discriminate|].
  destruct (fst (run_command H function_spec _ (files w)))
    as [output|message]; [|discriminate].
  destruct (Url.find_url (string_trim H output)) as [url|] eqn:Ef;
    [|discriminate].
  intros [= <-]. cbn [Values.convexUrl Values.convexSiteUrl].
  destruct (UrlFacts.find_url_some _ _ Ef) as (run & -> & Hne & Hq & Hs).
  exists run, output. rewrite UrlFacts.site_url_https.
  repeat split; try assumption; try reflexivity; discriminate.
Qed.

Lemma X18_retrieved_urls_witness :
  exists run output,
    Values.convexUrl Sample.values = "https://" +:+ run
    /\ run <> "" /\ has Url.quote run = false
    /\ Values.convexSiteUrl Sample.values =
         "https://" +:+ Sample.replace_first run "convex.cloud" "convex.site"
    /\ fst (run_command spec_host function_spec
              (path_join spec_host ["/p"; "packages"; "backend"])
              (files (Sample.world ∅)))
       = ExecReturned output
    /\ (exists before rest,
          string_trim spec_host output =
          before +:+ String Url.quote
                       (Values.convexUrl Sample.values
                        +:+ String Url.quote rest))
    /\ Values.convexUrl Sample.values <> ""
    /\ Values.convexSiteUrl Sample.values <> "".
Proof.
  apply (X18_retrieved_urls spec_host (fun _ => true) "/p" (Sample.world ∅)
           Sample.values).
  vm_compute. reflexivity.
Defined.

(** X19.  With the values that [getConvexUrls] returned, the placeholders
    [{{convexUrl}}] and [{{convexSiteUrl}}] are always replaced by the URLs:
    the marker for a key without a value never stands for them in an info
    string, and a template never loses them. *)
Theorem X19_retrieved_urls_render (H : Host) (existsSync : string -> bool)
    (projectDir : string) (w : World) (values : Values.t)
    (pre post : string) :
  fst (getConvexUrls H existsSync projectDir w) = Urls values ->
  render_info values (pre +:+ Js.placeholder "convexUrl" +:+ post) =
    render_info values pre +:+ Values.convexUrl values
    +:+ render_info values post
  /\ render_info values (pre +:+ Js.placeholder "convexSiteUrl" +:+ post) =
       render_info values pre +:+ Values.convexSiteUrl values
       +:+ render_info values post
  /\ render_template values (pre +:+ Js.placeholder "convexUrl" +:+ post) =
       render_template values pre +:+ Values.convexUrl values
       +:+ render_template values post
  /\ render_template values
       (pre +:+ Js.placeholder "convexSiteUrl" +:+ post) =
       render_template values pre +:+ Values.convexSiteUrl values
       +:+ render_template values post.
Proof.
  intros Hr. rewrite getConvexUrls_result in Hr.
  destruct (negb (existsSync _)); [discriminate|].
  destruct (fst (run_command H function_spec _ (files w)))
    as [output|message]; [|discriminate].
  destruct (Url.find_url (string_trim H output)) as [url|] eqn:Ef;
    [|discriminate].
  injection Hr as <-.
  destruct (UrlFacts.find_url_some _ _ Ef) as (run & -> & _).
  destruct (render_key_with_value
              {| Values.convexUrl := "https://" +:+ run;
                 Values.convexSiteUrl := site_url ("https://" +:+ run) |}
              pre "convexUrl" post ("https://" +:+ run) eq_refl)
    as [Hi1 Ht1].
  destruct (render_key_with_value
              {| Values.convexUrl := "https://" +:+ run;
                 Values.convexSiteUrl := site_url ("https://" +:+ run) |}
              pre "convexSiteUrl" post (site_url ("https://" +:+ run))
              eq_refl)
    as [Hi2 Ht2].
  rewrite UrlFacts.site_url_https in *.
  cbn [Values.convexUrl Values.convexSiteUrl].
  repeat split; assumption.
Qed.

Lemma X19_retrieved_urls_render_witness :
  render_info Sample.values
    ("Open " +:+ Js.placeholder "convexUrl" +:+ " first")
  = "Open https://calm-owl-1.convex.cloud first".
Proof.
  destruct (X19_retrieved_urls_render spec_host (fun _ => true) "/p"
              (Sample.world ∅) Sample.values "Open " " first") as (Hi & _).
  - vm_compute. reflexivity.
  - rewrite Hi. vm_compute. reflexivity.
Defined.

(** X20.  [getConvexUrls] ends the process with exit code 1, after one
    error line, in three cases.  When [packages/backend] does not exist in
    the project directory, it does so without running the command and
    without printing anything else.  When the command throws, the line
    carries the message of the error.  When the trimmed output holds no
    match of the URL pattern, as when it holds no double quote at all, the
    line says that the URL was not found. *)
Theorem X20_retrieval_failures (H : Host) (existsSync : string -> bool)
    (projectDir : string) (w : World) :
  let convexDir := path_join H [projectDir; "packages"; "backend"] in
  let run := getConvexUrls H existsSync projectDir w in
  let out := run_command H function_spec convexDir (files w) in
  let executing := ConsoleLog (chalk H Dim "Executing 'npx convex function-spec'...") in
  let failed message :=
    ConsoleError (chalk H Red ("Failed to retrieve Convex URLs: " +:+ message)) in
  (existsSync convexDir = false ->
   run = (UrlsExit 1,
          after w [ConsoleError
                     (chalk H Red
                        ("Error: 'packages/backend' directory not found in "
                         +:+ projectDir))]))
  /\ (existsSync convexDir = true ->
      forall message, fst out = ExecThrew message ->
      run = (UrlsExit 1,
             {| files := snd out;
                events := events w ++ [executing; Exec function_spec convexDir;
                                       failed message] |}))
  /\ (existsSync convexDir = true ->
      forall output, fst out = ExecReturned output ->
      Url.find_url (string_trim H output) = None ->
      run = (UrlsExit 1,
             {| files := snd out;
                events :=
                  events w ++
                  [executing; Exec function_spec convexDir;
                   ConsoleLog (chalk H Dim "Raw output from convex function-spec:");
                   ConsoleLog (chalk H Dim (string_trim H output));
                   failed url_not_found] |}))
  /\ (forall text, has Url.quote text = false -> Url.find_url text = None).
Proof.
  cbv zeta. unfold getConvexUrls. split; [|split; [|split]].
  - intros ->. reflexivity.
  - intros -> message Hm. cbn [negb].
    unfold bind at 1 2. unfold console_log, emit, execSync.
    cbn [fst snd files events].
    destruct (run_command H function_spec _ (files w)) as [r fs].
    cbn [fst snd] in *. subst r.
    unfold retrieval_failed, bind, console_error, emit, ret.
    cbn [files events]. rewrite <- !app_assoc. reflexivity.
  - intros -> output Ho Hf. cbn [negb].
    unfold bind at 1 2. unfold console_log, emit, execSync.
    cbn [fst snd files events].
    destruct (run_command H function_spec _ (files w)) as [r fs].
    cbn [fst snd] in *. subst r. rewrite Hf.
    unfold retrieval_failed, bind, console_error, emit, ret.
    cbn [files events]. rewrite <- !app_assoc. reflexivity.
  - intros text Hq. destruct (Url.find_url text) as [url|] eqn:Ef;
      [|reflexivity].
    destruct (UrlFacts.find_url_some _ _ Ef)
      as (run & _ & _ & _ & before & rest & Hs).
    rewrite Hs, has_app in Hq. apply orb_false_elim in Hq as [_ Hq].
    discriminate Hq.
Qed.

(** The example output gives the values used throughout the examples. *)
Example getConvexUrls_demo :
  fst (getConvexUrls spec_host (fun _ => true) "/p" (Sample.world ∅))
  = Urls Sample.values.
Proof. vm_compute. reflexivity. Qed.

(** ** Concrete runs for the statements above *)

(** A host whose commands all throw. *)
Definition failing_host : Host :=
  {| path_join := Sample.join_path;
     path_relative := fun _ to => to;
     process_cwd := "/work";
     run_command := fun _ _ fs => (ExecThrew "Command failed", fs);
     string_replace := Sample.replace_first;
     string_trim := fun s => s;
     JSON_parse := Sample.parse_json;
     read_error := fun p => p;
     chalk := fun _ s => s;
     boxen := fun s => s;
     answer_confirm := fun _ _ => true;
     answer_input := fun _ _ d => default "" d |}.

(** One step, [interactive: false], with a variable that has a static
    default. *)
Definition unattended_config : SetupConfig.t :=
  Sample.config [Sample.svc]
    [Sample.step (Some false) (Some false)
       [Sample.variable "TOKEN" ["svc"] None (Some "abc123") None]].

(** A project that lists the empty prefix. *)
Definition mute : Project.t :=
  Project.mk "mute" (Some "mute.env") None None (Some [""]).

Definition mute_config : SetupConfig.t :=
  Sample.config [mute]
    [Sample.step None (Some false)
       [Sample.variable "TOKEN" ["mute"] None (Some "abc123") None]].

Lemma X5_file_backed_runs_no_command_witness :
  exists new,
    events (snd (setupEnvironment Sample.quiet token_config "/p" Sample.values
                   (Sample.world ∅)))
      = events (Sample.world ∅) ++ new
    /\ forall command cwd, ~ In (Exec command cwd) new.
Proof.
  apply (X5_file_backed_runs_no_command Sample.quiet token_config
           Sample.values "/p" (Sample.world ∅)).
  intros p [<-|[]]. reflexivity.
Defined.

Lemma X6_non_interactive_run_is_unattended_witness :
  exists new,
    events (snd (setupEnvironment Sample.quiet unattended_config "/p"
                   Sample.values (Sample.world ∅)))
      = events (Sample.world ∅) ++ new
    /\ Forall (fun e => ~ is_prompt e) new.
Proof.
  apply (X6_non_interactive_run_is_unattended Sample.quiet unattended_config
           Sample.values "/p" (Sample.world ∅)).
  intros step [<-|[]]. reflexivity.
Defined.

(** A host that reads every configuration file as the same document. *)
Definition reading (document : json) : Host :=
  {| path_join := Sample.join_path;
     path_relative := fun _ to => to;
     process_cwd := "/work";
     run_command := fun _ _ fs => (ExecReturned "", fs);
     string_replace := Sample.replace_first;
     string_trim := fun s => s;
     JSON_parse := fun _ => inl document;
     read_error := fun p => "ENOENT: no such file or directory, open " +:+ p;
     chalk := fun _ s => s;
     boxen := fun s => s;
     answer_confirm := fun _ _ => true;
     answer_input := fun _ _ d => default "" d |}.

(** The document of a configuration with the project [svc], whose
    [ignoreLogs] is given, and one step, [interactive: false], with the
    variable [TOKEN] and its static default. *)
Definition token_document (ignoreLogs : list json) : json :=
  JObject
    [("introMessage", JString "intro");
     ("projects",
      JArray [JObject [("id", JString "svc");
                       ("envFile", JString "svc.env");
                       ("ignoreLogs", JArray ignoreLogs)]]);
     ("steps",
      JArray [JObject [("title", JString "Title");
                       ("instructions", JString "Do this");
                       ("variables",
                        JArray [JObject [("name", JString "TOKEN");
                                         ("projects",
                                          JArray [JString "svc"]);
                                         ("details", JString "details");
                                         ("defaultValue",
                                          JString "abc123")]]);
                       ("interactive", JBool false)]])].

Example token_document_decoded :
  Decode.config (token_document [JString ""])
  = Some (Sample.config
            [Project.mk "svc" (Some "svc.env") None None (Some [""])]
            [Sample.step None (Some false)
               [Sample.variable "TOKEN" ["svc"] None (Some "abc123") None]]).
Proof. reflexivity. Qed.

(** The call on that document: the configuration file is read, then the
    env file of [svc] is read by the lookup and read and written by the
    write, and no other file is touched. *)
Lemma X4_file_access_confined_witness :
  let w := Sample.world {[ "setup-config.json" := "{}" ]} in
  let run := Entry.setupEnvironment (reading (token_document [])) "/p"
               Sample.values "setup-config.json" w in
  fst run = Completed
  /\ files (snd run) !! "/p/svc.env" = Some "TOKEN=abc123"
  /\ exists new,
       events (snd run) = events w ++ new
       /\ In (ReadFile "setup-config.json") new
       /\ forall path,
            (In (ReadFile path) new \/ exists content,
               In (WriteFile path content) new) ->
            path = "setup-config.json"
            \/ exists config p,
                 walks (reading (token_document [])) "setup-config.json" w
                   config
                 /\ In p (SetupConfig.projects config)
                 /\ Js.truthy (Project.envFile p) = true
                 /\ path = Sample.join_path
                             ["/p"; default "" (Project.envFile p)].
Proof.
  cbv zeta. split; [vm_compute; reflexivity|].
  split; [vm_compute; reflexivity|].
  apply (X4_file_access_confined (reading (token_document [])) "/p"
           Sample.values "setup-config.json"
           (Sample.world {[ "setup-config.json" := "{}" ]})).
  vm_compute. discriminate.
Defined.

Lemma X7_empty_prefix_silences_run_witness :
  let w := Sample.world {[ "setup-config.json" := "{}" ]} in
  let run := Entry.setupEnvironment (reading (token_document [JString ""]))
               "/p" Sample.values "setup-config.json" w in
  events (snd run)
  = [ConsoleLog "Loading config from: setup-config.json";
     ReadFile "setup-config.json";
     ReadFile "/p/svc.env"; ReadFile "/p/svc.env";
     WriteFile "/p/svc.env" "TOKEN=abc123"]
  /\ fst run = Completed
  /\ exists new,
       events (snd run)
       = events w ++ ConsoleLog "Loading config from: setup-config.json"
                     :: new
       /\ forall message, ~ In (ConsoleLog message) new.
Proof.
  cbv zeta. split; [vm_compute; reflexivity|].
  apply (X7_empty_prefix_silences_run (reading (token_document [JString ""]))
           "/p" Sample.values "setup-config.json"
           (Sample.world {[ "setup-config.json" := "{}" ]})
           (Sample.config
              [Project.mk "svc" (Some "svc.env") None None (Some [""])]
              [Sample.step None (Some false)
                 [Sample.variable "TOKEN" ["svc"] None (Some "abc123")
                    None]])
           (Project.mk "svc" (Some "svc.env") None None (Some [""])) [""]).
  - exists "{}", (token_document [JString ""]).
    split; [vm_compute; reflexivity|]. split; reflexivity.
  - left. reflexivity.
  - reflexivity.
  - left. reflexivity.
Defined.

(** The walk alone, with the empty prefix: nothing is printed. *)
Example mute_run :
  events (snd (setupEnvironment Sample.quiet mute_config "/p" Sample.values
                 (Sample.world ∅)))
  = [ReadFile "/p/mute.env"; ReadFile "/p/mute.env";
     WriteFile "/p/mute.env" "TOKEN=abc123"].
Proof. vm_compute. reflexivity. Qed.

(** The variable is written to [web] and [api]: both files are reported;
    and where the write of the first file throws, the run is seen to end
    there, before the second file and before the report. *)
Lemma X13_reported_files_witness :
  let config := Sample.config [Sample.web; Sample.api] [] in
  let variable := Sample.variable "KEY" ["web"; "ghost"; "api"] None None None in
  let run := persistValue Sample.quiet config variable "v" "/p"
               (Sample.world ∅) in
  exists writes,
    events (snd run)
    = [] ++ writes
      ++ [ConsoleLog "✅ Set KEY in:";
          ConsoleLog "   - /p/apps/web/.env";
          ConsoleLog "   - /p/apps/api/.env"]
    /\ seen_until (fun _ _ _ => true) [] 
         (writes
          ++ [ConsoleLog "✅ Set KEY in:";
              ConsoleLog "   - /p/apps/web/.env";
              ConsoleLog "   - /p/apps/api/.env"])
       = [ReadFile "/p/apps/web/.env"; WriteFile "/p/apps/web/.env" "KEY=v"].
Proof.
  cbv zeta.
  destruct (X13_reported_files Sample.quiet
              (Sample.config [Sample.web; Sample.api] [])
              (Sample.variable "KEY" ["web"; "ghost"; "api"] None None None)
              "v" "/p" (Sample.world ∅) eq_refl)
    as (writes & Ew & _ & Erun & _).
  exists writes. split; [exact Erun|].
  assert (Hw : writes = [ReadFile "/p/apps/web/.env";
                         WriteFile "/p/apps/web/.env" "KEY=v";
                         ReadFile "/p/apps/api/.env";
                         WriteFile "/p/apps/api/.env" "KEY=v"]).
  { vm_compute in Ew. symmetry. exact Ew. }
  rewrite Hw. reflexivity.
Defined.

Lemma X10_found_value_not_empty_witness :
  "1" <> ""
  /\ forall values,
       computeDefault values
         (Sample.variable "KEY" ["web"] None (Some "static") (Some "{{x}}"))
         (Some "1") = Some "1".
Proof.
  apply (X10_found_value_not_empty Sample.quiet
           (Sample.config [Sample.web] [])
           (Sample.variable "KEY" ["web"] None (Some "static") (Some "{{x}}"))
           "/p" (Sample.world {[ "/p/apps/web/.env" := "KEY=1" ]}) "1").
  vm_compute. reflexivity.
Defined.

(** The import command of [backend] throws: the error is printed and the
    lookup goes on to [web], whose env file has the value. *)
Lemma X11_import_command_read_witness :
  let w := Sample.world {[ "/p/apps/web/.env" := "SITE_URL=1" ]} in
  getExistingValue_loop failing_host [Sample.backend; Sample.web]
    (Sample.variable "SITE_URL" ["backend"; "web"] None None None) "/p"
    ["backend"; "web"] w
  = (Some "1",
     after w [Exec "npx convex env get SITE_URL" "/p/packages/backend";
              ConsoleError "Error: Command failed";
              ReadFile "/p/apps/web/.env"]).
Proof.
  cbv zeta.
  pose proof (X11_import_command_read failing_host
                [Sample.backend; Sample.web]
                (Sample.variable "SITE_URL" ["backend"; "web"] None None None)
                "/p" "npx convex env get {{name}}" "backend" Sample.backend
                ["web"]
                (Sample.world {[ "/p/apps/web/.env" := "SITE_URL=1" ]})
                (ExecThrew "Command failed")
                {[ "/p/apps/web/.env" := "SITE_URL=1" ]}
                eq_refl eq_refl eq_refl) as Hx.
  cbv zeta in Hx. rewrite Hx.
  - vm_compute. reflexivity.
  - discriminate.
  - reflexivity.
Defined.

Lemma X12_export_failure_is_contained_witness :
  updateProjectValue failing_host Sample.backend "SITE_URL" "v" "/p"
    (Sample.world ∅)
  = (None,
     after (Sample.world ∅)
       [Exec "npx convex env set SITE_URL v" "/p/packages/backend";
        ConsoleError "Failed to export value for SITE_URL to backend";
        ConsoleError "Error: Command failed"]).
Proof.
  rewrite (X12_export_failure_is_contained failing_host Sample.backend
             "SITE_URL" "v" "/p" (Sample.world ∅)).
  - vm_compute. reflexivity.
  - reflexivity.
Defined.
